(** * Reconciliation plus eviction (src/btree/rec_evict.c)

    A shallow embedding of the eviction core: the hazard snapshot and the
    exclusive-access request, the subtree review and its unlock walk, the
    parent-reference updates, the root-split loop and the discard walks.

    Pages live in a heap indexed by their address; a [WT_REF *] is either the
    tree's root reference or the [ref] member of a slot of an internal page.
    Every function is a state transformer that may fault (a null or wild page
    pointer is dereferenced) or stay unfinished (a loop bound or the recorded
    answers of the environment ran out). *)

From stdpp Require Import base numbers list gmap sorting.

Open Scope Z_scope.

(** ** Data model *)

(** A [WT_PAGE *]: the address of the page, [NULL] being 0. *)
Abbreviation ptr := Z (only parsing).
Definition NULL : ptr := 0.

(** [WT_REF.state]. *)
Inductive wt_state : Type :=
  | WT_REF_DISK
  | WT_REF_LOCKED
  | WT_REF_MEM
  | WT_REF_READING.

#[global] Instance wt_state_eq_dec : EqDecision wt_state.
Proof. solve_decision. Defined.

(** [WT_REF]: the edge from a parent to a child. *)
Record WT_REF : Type := MkRef {
  ref_state : wt_state;
  ref_page : ptr;
  ref_addr : Z;
  ref_size : Z
}.

(** [WT_ROW_REF] and [WT_COL_REF]: a slot of a row-store, respectively
    column-store, internal page; both embed a [WT_REF] as member [ref]. *)
Record WT_ROW_REF : Type := MkRowRef {
  rref_ref : WT_REF;
  rref_key : Z
}.

Record WT_COL_REF : Type := MkColRef {
  cref_recno : Z;
  cref_ref : WT_REF
}.

(** A C macro is not typed: [(x)->ref] names the member [ref] of whatever
    structure [x] points to. *)
Class HasRef (A : Type) : Type := {
  ref : A → WT_REF;
  with_ref : WT_REF → A → A
}.

#[global] Instance row_has_ref : HasRef WT_ROW_REF := {|
  ref := rref_ref;
  with_ref r x := {| rref_ref := r; rref_key := rref_key x |}
|}.

#[global] Instance col_has_ref : HasRef WT_COL_REF := {|
  ref := cref_ref;
  with_ref r x := {| cref_recno := cref_recno x; cref_ref := r |}
|}.

(** Modelled from the spec: the accessor macros are declared in
    wt_internal.h, which is not part of the sources at hand.  The source
    addresses the embedded reference of both slot kinds as [->ref]
    ([&cref->ref], [&rref->ref]), and the spec knows one reference slot with
    one page pointer and one state, so each macro projects that field of
    the member [ref].  [__rec_sub_discard_col] applies [WT_ROW_REF_PAGE] to
    a column-store slot; that the macro reads the slot's page pointer there
    too is an assumption of this model, which neither the sources at hand
    nor the spec settle, and no theorem below is about it. *)
Definition WT_ROW_REF_PAGE {A : Type} `{HasRef A} (rref : A) : ptr :=
  ref_page (ref rref).
Definition WT_COL_REF_PAGE {A : Type} `{HasRef A} (cref : A) : ptr :=
  ref_page (ref cref).
Definition WT_ROW_REF_STATE {A : Type} `{HasRef A} (rref : A) : wt_state :=
  ref_state (ref rref).
Definition WT_COL_REF_STATE {A : Type} `{HasRef A} (cref : A) : wt_state :=
  ref_state (ref cref).

(** [page->type]. *)
Inductive page_type : Type :=
  | WT_PAGE_COL_FIX
  | WT_PAGE_COL_INT
  | WT_PAGE_COL_VAR
  | WT_PAGE_ROW_INT
  | WT_PAGE_ROW_LEAF.

#[global] Instance page_type_eq_dec : EqDecision page_type.
Proof. solve_decision. Defined.

(** [page->u]: the union selected by the page type; only the slot arrays of
    the internal pages are used here ([page->entries] is their length). *)
Inductive page_u : Type :=
  | u_col_fix
  | u_col_int (t : list WT_COL_REF)
  | u_col_var
  | u_row_int (t : list WT_ROW_REF)
  | u_row_leaf.

(** [WT_PAGE_MODIFY]: the members of [u] this file reads, and whether the
    page is dirty. *)
Record WT_PAGE_MODIFY : Type := MkModify {
  write_off_addr : Z;
  write_off_size : Z;
  write_split : ptr;
  dirty : bool
}.

(** A [WT_REF *]. *)
Inductive ref_ptr : Type :=
  | RootRef                          (* &btree->root_page *)
  | SlotRef (p : ptr) (i : nat).     (* &page->u.{row,col}_int.t[i].ref *)

#[global] Instance ref_ptr_eq_dec : EqDecision ref_ptr.
Proof. solve_decision. Defined.

(** [WT_PAGE]; [modify] is [None] for a null pointer. *)
Record WT_PAGE : Type := MkPage {
  u : page_u;
  parent : ptr;
  parent_ref : ref_ptr;
  modify : option WT_PAGE_MODIFY;
  read_gen : Z;
  flags : Z
}.

Definition type (pg : WT_PAGE) : page_type :=
  match u pg with
  | u_col_fix => WT_PAGE_COL_FIX
  | u_col_int _ => WT_PAGE_COL_INT
  | u_col_var => WT_PAGE_COL_VAR
  | u_row_int _ => WT_PAGE_ROW_INT
  | u_row_leaf => WT_PAGE_ROW_LEAF
  end.

(** ** Constants of wt_internal.h *)

(** Modelled from the spec: the flag values are declared in a header that is
    not part of the sources at hand.  The spec lists them as separate flags
    of one flag word, so each is one bit of its own, and the mask is the
    union of the four reconciliation results. *)
Definition WT_PAGE_FORCE_EVICT : Z := 0x02.
Definition WT_PAGE_REC_EMPTY : Z := 0x10.
Definition WT_PAGE_REC_REPLACE : Z := 0x20.
Definition WT_PAGE_REC_SPLIT : Z := 0x40.
Definition WT_PAGE_REC_SPLIT_MERGE : Z := 0x80.
Definition WT_PAGE_REC_MASK : Z :=
  Z.lor (Z.lor WT_PAGE_REC_EMPTY WT_PAGE_REC_REPLACE)
        (Z.lor WT_PAGE_REC_SPLIT WT_PAGE_REC_SPLIT_MERGE).

(** Modelled from the spec: the two flags of the entry point, [SINGLE] and
    [WAIT], one bit each; the invalid address; the generic error code, any
    value other than 0. *)
Definition WT_REC_SINGLE : Z := 0x01.
Definition WT_REC_WAIT : Z := 0x02.
Definition WT_ADDR_INVALID : Z := 0xffffffff.
Definition WT_ERROR : Z := -31802.

Definition F_ISSET (pg : WT_PAGE) (mask : Z) : Z := Z.land (flags pg) mask.
Definition LF_ISSET (lflags mask : Z) : Z := Z.land lflags mask.
Definition LF_SET (lflags mask : Z) : Z := Z.lor lflags mask.

(** Modelled from the spec: a page is the root iff it has no parent page. *)
Definition WT_PAGE_IS_ROOT (pg : WT_PAGE) : bool := bool_decide (parent pg = NULL).

(** ** The state of a run *)

(** Modelled from the spec: the answer of one [write_page] call.  The
    reconciler is not part of the sources at hand; on success it leaves the
    reconciliation result in the page's flags and its outcome in
    [page->modify], on failure it returns its error. *)
Record rec_answer : Type := MkAnswer {
  rec_ret : Z;
  rec_flags : Z;
  rec_modify : WT_PAGE_MODIFY
}.

Record St : Type := MkSt {
  heap : gmap Z WT_PAGE;          (* the pages in memory, by address *)
  root_page : WT_REF;             (* session->btree->root_page *)
  conn_hazard : list ptr;         (* conn->hazard, all sessions' slots *)
  cache_hazard : list ptr;        (* cache->hazard[0 .. hazard_elem) *)
  cache_read_gen : Z;             (* the cache's read generation *)
  readers : list (list ptr);      (* conn->hazard as other sessions leave it
                                     at each later yield *)
  rec_answers : list rec_answer;  (* answers of the later write_page calls *)
  setmod_answers : list Z;        (* ... of __wt_page_set_modified *)
  track_answers : list Z;         (* ... of __wt_rec_track_discard *)
  discarded : list ptr            (* pages handed to __wt_page_out, in order *)
}.

Definition set_heap (h : gmap Z WT_PAGE) (s : St) : St :=
  MkSt h (root_page s) (conn_hazard s) (cache_hazard s) (cache_read_gen s)
       (readers s) (rec_answers s) (setmod_answers s) (track_answers s)
       (discarded s).

Definition set_root_page (r : WT_REF) (s : St) : St :=
  MkSt (heap s) r (conn_hazard s) (cache_hazard s) (cache_read_gen s)
       (readers s) (rec_answers s) (setmod_answers s) (track_answers s)
       (discarded s).

(** The outcome of running a function from a state. *)
Inductive res (A : Type) : Type :=
  | Ret (a : A) (s : St)     (* returned [a], leaving state [s] *)
  | Fault (s : St)           (* dereferenced a null or wild pointer in [s] *)
  | Unfinished.              (* loop bound or recorded answers exhausted *)

Arguments Ret {A} a s.
Arguments Fault {A} s.
Arguments Unfinished {A}.

Definition M (A : Type) : Type := St → res A.

Definition ret {A : Type} (a : A) : M A := fun s => Ret a s.

Definition bind {A B : Type} (m : M A) (k : A → M B) : M B :=
  fun s =>
    match m s with
    | Ret a s' => k a s'
    | Fault s' => Fault s'
    | Unfinished => Unfinished
    end.

Notation "x <- m ;; k" := (bind m (fun x => k))
  (at level 100, m at next level, right associativity).
Notation "m ;;; k" := (bind m (fun _ => k))
  (at level 100, right associativity).

Definition fault {A : Type} : M A := fun s => Fault s.
Definition unfinished {A : Type} : M A := fun _ => Unfinished.
Definition get : M St := fun s => Ret s s.
Definition modify_st (f : St → St) : M unit := fun s => Ret tt (f s).

(** ** Memory access *)

(** [*page]. *)
Definition get_page (page : ptr) : M WT_PAGE :=
  fun s => match heap s !! page with
           | Some pg => Ret pg s
           | None => Fault s
           end.

Definition put_page (page : ptr) (pg : WT_PAGE) : M unit :=
  modify_st (fun s => set_heap (<[page := pg]> (heap s)) s).

Definition set_u (x : page_u) (pg : WT_PAGE) : WT_PAGE :=
  MkPage x (parent pg) (parent_ref pg) (modify pg) (read_gen pg) (flags pg).
Definition set_flags (f : Z) (pg : WT_PAGE) : WT_PAGE :=
  MkPage (u pg) (parent pg) (parent_ref pg) (modify pg) (read_gen pg) f.
Definition set_modify (m : option WT_PAGE_MODIFY) (pg : WT_PAGE) : WT_PAGE :=
  MkPage (u pg) (parent pg) (parent_ref pg) m (read_gen pg) (flags pg).
Definition set_read_gen (g : Z) (pg : WT_PAGE) : WT_PAGE :=
  MkPage (u pg) (parent pg) (parent_ref pg) (modify pg) g (flags pg).

(** The reference in slot [i] of an internal page, if there is one. *)
Definition slot_ref (pg : WT_PAGE) (i : nat) : option WT_REF :=
  match u pg with
  | u_col_int t => ref <$> t !! i
  | u_row_int t => ref <$> t !! i
  | _ => None
  end.

Definition slot_with_ref (r : WT_REF) (i : nat) (pg : WT_PAGE) : WT_PAGE :=
  match u pg with
  | u_col_int t => set_u (u_col_int (alter (with_ref r) i t)) pg
  | u_row_int t => set_u (u_row_int (alter (with_ref r) i t)) pg
  | _ => pg
  end.

(** What a [WT_REF *] points to in a state. *)
Definition lookup_ref (r : ref_ptr) (s : St) : option WT_REF :=
  match r with
  | RootRef => Some (root_page s)
  | SlotRef p i => pg ← heap s !! p; slot_ref pg i
  end.

(** [*ref]. *)
Definition get_ref (r : ref_ptr) : M WT_REF :=
  fun s => match lookup_ref r s with
           | Some x => Ret x s
           | None => Fault s
           end.

Definition store_ref (r : ref_ptr) (x : WT_REF) (s : St) : St :=
  match r with
  | RootRef => set_root_page x s
  | SlotRef p i =>
      match heap s !! p with
      | Some pg => set_heap (<[p := slot_with_ref x i pg]> (heap s)) s
      | None => s
      end
  end.

(** [*ref = x]. *)
Definition put_ref (r : ref_ptr) (x : WT_REF) : M unit :=
  get_ref r ;;; modify_st (store_ref r x).

Definition with_state (st : wt_state) (x : WT_REF) : WT_REF :=
  MkRef st (ref_page x) (ref_addr x) (ref_size x).
Definition with_page (p : ptr) (x : WT_REF) : WT_REF :=
  MkRef (ref_state x) p (ref_addr x) (ref_size x).
Definition with_addr (a : Z) (x : WT_REF) : WT_REF :=
  MkRef (ref_state x) (ref_page x) a (ref_size x).
Definition with_size (n : Z) (x : WT_REF) : WT_REF :=
  MkRef (ref_state x) (ref_page x) (ref_addr x) n.

(** [ref->state = st], also [WT_PUBLISH(ref->state, st)]: the barrier orders
    the stores for other threads and is no step of its own here. *)
Definition set_ref_state (r : ref_ptr) (st : wt_state) : M unit :=
  x <- get_ref r ;; put_ref r (with_state st x).
Definition set_ref_page (r : ref_ptr) (p : ptr) : M unit :=
  x <- get_ref r ;; put_ref r (with_page p x).
Definition set_ref_addr (r : ref_ptr) (a : Z) : M unit :=
  x <- get_ref r ;; put_ref r (with_addr a x).
Definition set_ref_size (r : ref_ptr) (n : Z) : M unit :=
  x <- get_ref r ;; put_ref r (with_size n x).

Definition set_cache_hazard (h : list ptr) (s : St) : St :=
  MkSt (heap s) (root_page s) (conn_hazard s) h (cache_read_gen s)
       (readers s) (rec_answers s) (setmod_answers s) (track_answers s)
       (discarded s).

Definition set_readers (h : list ptr) (rs : list (list ptr)) (s : St) : St :=
  MkSt (heap s) (root_page s) h (cache_hazard s) (cache_read_gen s)
       rs (rec_answers s) (setmod_answers s) (track_answers s)
       (discarded s).

Definition set_rec_answers (l : list rec_answer) (s : St) : St :=
  MkSt (heap s) (root_page s) (conn_hazard s) (cache_hazard s)
       (cache_read_gen s) (readers s) l (setmod_answers s) (track_answers s)
       (discarded s).

Definition set_setmod_answers (l : list Z) (s : St) : St :=
  MkSt (heap s) (root_page s) (conn_hazard s) (cache_hazard s)
       (cache_read_gen s) (readers s) (rec_answers s) l (track_answers s)
       (discarded s).

Definition set_track_answers (l : list Z) (s : St) : St :=
  MkSt (heap s) (root_page s) (conn_hazard s) (cache_hazard s)
       (cache_read_gen s) (readers s) (rec_answers s) (setmod_answers s) l
       (discarded s).

Definition free_page (page : ptr) (s : St) : St :=
  MkSt (delete page (heap s)) (root_page s) (conn_hazard s) (cache_hazard s)
       (cache_read_gen s) (readers s) (rec_answers s) (setmod_answers s)
       (track_answers s) (discarded s ++ [page]).

(** ** The hazard snapshot *)

(** [__hazard_qsort_cmp]: order hazard entries by page address. *)
Definition __hazard_qsort_cmp (a_page b_page : ptr) : Z :=
  if decide (a_page > b_page) then 1
  else if decide (a_page < b_page) then -1 else 0.

(** [__hazard_bsearch_cmp]. *)
Definition __hazard_bsearch_cmp (search entry : ptr) : Z :=
  if decide (search > entry) then 1
  else if decide (search < entry) then -1 else 0.

(** The C library's [qsort]: the array sorted by the comparison function
    (here by insertion). *)
Fixpoint qsort_insert (cmp : ptr → ptr → Z) (x : ptr) (l : list ptr)
  : list ptr :=
  match l with
  | [] => [x]
  | y :: l' =>
      if decide (cmp x y ≤ 0) then x :: l else y :: qsort_insert cmp x l'
  end.

Fixpoint qsort (base : list ptr) (cmp : ptr → ptr → Z) : list ptr :=
  match base with
  | [] => []
  | x :: l => qsort_insert cmp x (qsort l cmp)
  end.

(** The C library's [bsearch] over [base[0 .. nmemb)]: halve the interval
    until the comparison function answers 0; [None] is the null result. *)
Fixpoint bsearch_loop (cmp : ptr → ptr → Z) (key : ptr) (base : list ptr)
    (n lo hi : nat) : option ptr :=
  match n with
  | O => None
  | S n' =>
      if decide (lo < hi)%nat then
        let idx := ((lo + hi) / 2)%nat in
        match base !! idx with
        | None => None
        | Some e =>
            let c := cmp key e in
            if decide (c < 0) then bsearch_loop cmp key base n' lo idx
            else if decide (c > 0) then bsearch_loop cmp key base n' (S idx) hi
            else Some e
        end
      else None
  end.

Definition bsearch (key : ptr) (base : list ptr) (nmemb : nat)
    (cmp : ptr → ptr → Z) : option ptr :=
  bsearch_loop cmp key base nmemb 0 nmemb.

(** The copy loop of [__hazard_copy]: skip the empty slots. *)
Fixpoint hazard_compact (hazard : list ptr) : list ptr :=
  match hazard with
  | [] => []
  | p :: rest =>
      if decide (p = NULL) then hazard_compact rest
      else p :: hazard_compact rest
  end.

(** What [__hazard_copy] leaves in [cache->hazard] for a hazard array. *)
Definition snapshot (hazard : list ptr) : list ptr :=
  qsort (hazard_compact hazard) __hazard_qsort_cmp.

(** [__hazard_copy]: copy the hazard array and prepare it for searching. *)
Definition __hazard_copy : M unit :=
  modify_st (fun s => set_cache_hazard (snapshot (conn_hazard s)) s).

(** The test of [__hazard_exclusive] on a fresh snapshot of a hazard array:
    is there a matching hazard reference? *)
Definition hazard_found (page : ptr) (hazard : list ptr) : bool :=
  match bsearch page (snapshot hazard) (length (snapshot hazard))
                __hazard_bsearch_cmp with
  | Some _ => true
  | None => false
  end.

(** Modelled from the spec: [__wt_yield] gives the processor to the other
    sessions; the readers are taken to run there, leaving the hazard array
    as the next recorded table says (or as it is, when none is recorded). *)
Definition yield_st (s : St) : St :=
  match readers s with
  | [] => s
  | h :: rs => set_readers h rs s
  end.

Definition __wt_yield : M unit := modify_st yield_st.

(** The hazard array after [k] more yields, from the array [hazard] and the
    recorded tables [rs]. *)
Fixpoint table_after (hazard : list ptr) (rs : list (list ptr)) (k : nat)
    {struct k} : list ptr :=
  match k with
  | O => hazard
  | S k' =>
      match rs with
      | [] => hazard
      | h :: rs' => table_after h rs' k'
      end
  end.

(** The [retry:] loop of [__hazard_exclusive]. *)
Fixpoint hazard_retry (fuel : nat) (r : ref_ptr) (force : Z) : M Z :=
  match fuel with
  | O => unfinished
  | S fuel' =>
      __hazard_copy ;;;
      x <- get_ref r ;;
      s <- get ;;
      match bsearch (ref_page x) (cache_hazard s) (length (cache_hazard s))
                    __hazard_bsearch_cmp with
      | None => ret 0
      | Some _ =>
          if decide (force ≠ 0) then
            __wt_yield ;;; hazard_retry fuel' r force
          else
            set_ref_state r WT_REF_MEM ;;; ret 1
      end
  end.

(** [__hazard_exclusive]: request exclusive access to a page.  [WT_ASSERT]
    compiles to nothing outside diagnostic builds; statistics and verbose
    messages are no part of the state. *)
Definition __hazard_exclusive (fuel : nat) (r : ref_ptr) (force : Z) : M Z :=
  set_ref_state r WT_REF_LOCKED ;;;
  hazard_retry fuel r force.

(** ** The collaborators *)

(** Modelled from the spec: [page_is_modified]; a page without a modify
    record has never been dirtied. *)
Definition __wt_page_is_modified (pg : WT_PAGE) : bool :=
  match modify pg with
  | Some m => dirty m
  | None => false
  end.

(** Modelled from the spec: [cache_read_gen] returns the current
    read generation. *)
Definition __wt_cache_read_gen : M Z :=
  s <- get ;; ret (cache_read_gen s).

Definition F_CLR (page : ptr) (mask : Z) : M unit :=
  pg <- get_page page ;;
  put_page page (set_flags (Z.ldiff (flags pg) mask) pg).

(** Modelled from the spec: "clear force-evict marker". *)
Definition __wt_evict_force_clear (page : ptr) : M unit :=
  F_CLR page WT_PAGE_FORCE_EVICT.

(** Modelled from the spec: [write_page]; the next recorded answer says
    what the reconciler does. *)
Definition __wt_rec_write (page : ptr) : M Z :=
  s <- get ;;
  match rec_answers s with
  | [] => unfinished
  | a :: rest =>
      modify_st (set_rec_answers rest) ;;;
      if decide (rec_ret a = 0) then
        pg <- get_page page ;;
        put_page page
          (set_modify (Some (rec_modify a))
             (set_flags (Z.lor (Z.ldiff (flags pg) WT_PAGE_REC_MASK)
                               (Z.land (rec_flags a) WT_PAGE_REC_MASK)) pg)) ;;;
        ret 0
      else ret (rec_ret a)
  end.

Definition mark_dirty (m : option WT_PAGE_MODIFY) : WT_PAGE_MODIFY :=
  match m with
  | Some m => MkModify (write_off_addr m) (write_off_size m) (write_split m) true
  | None => MkModify 0 0 NULL true
  end.

(** Modelled from the spec: "marks the new root as modified"; the call may
    fail (it allocates the modify record), as the next recorded answer says. *)
Definition __wt_page_set_modified (page : ptr) : M Z :=
  s <- get ;;
  match setmod_answers s with
  | [] => unfinished
  | a :: rest =>
      modify_st (set_setmod_answers rest) ;;;
      if decide (a = 0) then
        pg <- get_page page ;;
        put_page page (set_modify (Some (mark_dirty (modify pg))) pg) ;;;
        ret 0
      else ret a
  end.

(** Modelled from the spec: [discard_page] "also drains the page's
    tracked-object list"; draining may fail, as the next recorded answer
    says. *)
Definition __wt_rec_track_discard (page : ptr) : M Z :=
  s <- get ;;
  match track_answers s with
  | [] => unfinished
  | a :: rest => modify_st (set_track_answers rest) ;;; ret a
  end.

(** Modelled from the spec: the deallocator; the page leaves memory. *)
Definition __wt_page_out (page : ptr) : M unit :=
  modify_st (free_page page).

(** [WT_ILLEGAL_VALUE]: the default case of a switch.  Modelled from the
    spec: an invariant violation is fatal; the generic error is returned. *)
Definition WT_ILLEGAL_VALUE : M Z := ret WT_ERROR.

(** ** Walking the slots of an internal page *)

(** One pass of a loop body: go on with the loop, or return from the
    function. *)
Inductive step (A B : Type) : Type :=
  | Next (a : A)
  | Return (b : B).

Arguments Next {A B} a.
Arguments Return {A B} b.

(** [WT_ROW_REF_FOREACH], [WT_COL_REF_FOREACH]: the slots in array order. *)
Fixpoint foreach {A B : Type} (body : nat → A → M (step A B))
    (idx : list nat) (a : A) : M (step A B) :=
  match idx with
  | [] => ret (Next a)
  | i :: rest =>
      r <- body i a ;;
      match r with
      | Next a' => foreach body rest a'
      | Return b => ret (Return b)
      end
  end.

(** [page->u.row_int.t[i]] and [page->u.col_int.t[i]]. *)
Definition get_row_slot (page : ptr) (i : nat) : M WT_ROW_REF :=
  pg <- get_page page ;;
  match u pg with
  | u_row_int t => match t !! i with Some x => ret x | None => fault end
  | _ => fault
  end.

Definition get_col_slot (page : ptr) (i : nat) : M WT_COL_REF :=
  pg <- get_page page ;;
  match u pg with
  | u_col_int t => match t !! i with Some x => ret x | None => fault end
  | _ => fault
  end.

(** The slot indices of an internal page, as the FOREACH macros run
    through them; a page of another type has no such array. *)
Definition row_slots (page : ptr) : M (list nat) :=
  pg <- get_page page ;;
  match u pg with
  | u_row_int t => ret (seq 0 (length t))
  | _ => fault
  end.

Definition col_slots (page : ptr) : M (list nat) :=
  pg <- get_page page ;;
  match u pg with
  | u_col_int t => ret (seq 0 (length t))
  | _ => fault
  end.

Definition page_type_of (page : ptr) : M page_type :=
  pg <- get_page page ;; ret (type pg).

(** ** The review of a subtree *)

(** [LF_ISSET(WT_REC_WAIT) ? 1 : 0]. *)
Definition wait_of (fl : Z) : Z :=
  if decide (LF_ISSET fl WT_REC_WAIT ≠ 0) then 1 else 0.

(** [__rec_sub_excl_page]: acquire exclusive access to a page as necessary,
    and check if the page can be evicted. *)
Definition __rec_sub_excl_page (fuel : nat) (r : ref_ptr) (page : ptr)
    (fl : Z) : M Z :=
  pg <- get_page page ;;
  if decide (F_ISSET pg (Z.lor (Z.lor WT_PAGE_REC_EMPTY WT_PAGE_REC_SPLIT)
                               WT_PAGE_REC_SPLIT_MERGE) = 0) then ret 1
  else
    e <- (if decide (LF_ISSET fl WT_REC_SINGLE = 0)
          then __hazard_exclusive fuel r (wait_of fl) else ret 0) ;;
    if decide (e ≠ 0) then ret e
    else
      pg <- get_page page ;;
      if decide (F_ISSET pg WT_PAGE_REC_SPLIT_MERGE ≠ 0) then ret 0
      else if decide (F_ISSET pg (Z.lor WT_PAGE_REC_SPLIT WT_PAGE_REC_EMPTY) ≠ 0)
      then (if __wt_page_is_modified pg then ret 1 else ret 0)
      else ret 1.

(** The body of the loop of [__rec_sub_excl_row], given the function for
    the recursive call; the accumulator is [*last_pagep]. *)
Definition excl_row_body (fuel : nat) (rec : ptr → ptr → M (Z * ptr))
    (parent : ptr) (fl : Z) (i : nat) (last_page : ptr)
  : M (step ptr (Z * ptr)) :=
  rref <- get_row_slot parent i ;;
  match WT_ROW_REF_STATE rref with
  | WT_REF_DISK => ret (Next last_page)
  | WT_REF_LOCKED | WT_REF_READING => ret (Return (WT_ERROR, last_page))
  | WT_REF_MEM =>
      let page := WT_ROW_REF_PAGE rref in
      e <- __rec_sub_excl_page fuel (SlotRef parent i) page fl ;;
      if decide (e ≠ 0) then ret (Return (e, last_page))
      else
        ty <- page_type_of page ;;
        if decide (ty = WT_PAGE_ROW_INT) then
          x <- rec page page ;;
          if decide (x.1 ≠ 0) then ret (Return x) else ret (Next x.2)
        else ret (Next page)
  end.

(** [__rec_sub_excl_row]: walk a row-store internal page's subtree; the
    result pairs the return value with [*last_pagep]. *)
Fixpoint __rec_sub_excl_row (fuel : nat) (parent : ptr) (last_page : ptr)
    (fl : Z) : M (Z * ptr) :=
  match fuel with
  | O => unfinished
  | S fuel' =>
      idx <- row_slots parent ;;
      x <- foreach
             (excl_row_body fuel
                (fun page last => __rec_sub_excl_row fuel' page last fl)
                parent fl)
             idx last_page ;;
      match x with
      | Next last => ret (0, last)
      | Return x => ret x
      end
  end.

Definition excl_col_body (fuel : nat) (rec : ptr → ptr → M (Z * ptr))
    (parent : ptr) (fl : Z) (i : nat) (last_page : ptr)
  : M (step ptr (Z * ptr)) :=
  cref <- get_col_slot parent i ;;
  match WT_COL_REF_STATE cref with
  | WT_REF_DISK => ret (Next last_page)
  | WT_REF_LOCKED | WT_REF_READING => ret (Return (WT_ERROR, last_page))
  | WT_REF_MEM =>
      let page := WT_COL_REF_PAGE cref in
      e <- __rec_sub_excl_page fuel (SlotRef parent i) page fl ;;
      if decide (e ≠ 0) then ret (Return (e, last_page))
      else
        ty <- page_type_of page ;;
        if decide (ty = WT_PAGE_COL_INT) then
          x <- rec page page ;;
          if decide (x.1 ≠ 0) then ret (Return x) else ret (Next x.2)
        else ret (Next page)
  end.

(** [__rec_sub_excl_col]: the same walk over a column-store internal page. *)
Fixpoint __rec_sub_excl_col (fuel : nat) (parent : ptr) (last_page : ptr)
    (fl : Z) : M (Z * ptr) :=
  match fuel with
  | O => unfinished
  | S fuel' =>
      idx <- col_slots parent ;;
      x <- foreach
             (excl_col_body fuel
                (fun page last => __rec_sub_excl_col fuel' page last fl)
                parent fl)
             idx last_page ;;
      match x with
      | Next last => ret (0, last)
      | Return x => ret x
      end
  end.

(** ** The unlock walk *)

Definition excl_row_clear_body (rec : ptr → M Z) (parent last_page : ptr)
    (i : nat) (_ : unit) : M (step unit Z) :=
  rref <- get_row_slot parent i ;;
  set_ref_state (SlotRef parent i) WT_REF_MEM ;;;
  let page := WT_ROW_REF_PAGE rref in
  if decide (page = last_page) then ret (Return 1)
  else
    ty <- page_type_of page ;;
    if decide (ty = WT_PAGE_ROW_INT) then
      e <- rec page ;;
      if decide (e ≠ 0) then ret (Return 1) else ret (Next tt)
    else ret (Next tt).

(** [__rec_sub_excl_row_clear]: clear any pages for which we have exclusive
    access. *)
Fixpoint __rec_sub_excl_row_clear (fuel : nat) (parent last_page : ptr)
  : M Z :=
  match fuel with
  | O => unfinished
  | S fuel' =>
      idx <- row_slots parent ;;
      x <- foreach
             (excl_row_clear_body
                (fun page => __rec_sub_excl_row_clear fuel' page last_page)
                parent last_page)
             idx tt ;;
      match x with
      | Next _ => ret 0
      | Return e => ret e
      end
  end.

Definition excl_col_clear_body (rec : ptr → M Z) (parent last_page : ptr)
    (i : nat) (_ : unit) : M (step unit Z) :=
  cref <- get_col_slot parent i ;;
  set_ref_state (SlotRef parent i) WT_REF_MEM ;;;
  let page := WT_COL_REF_PAGE cref in
  if decide (page = last_page) then ret (Return 1)
  else
    ty <- page_type_of page ;;
    if decide (ty = WT_PAGE_COL_INT) then
      e <- rec page ;;
      if decide (e ≠ 0) then ret (Return 1) else ret (Next tt)
    else ret (Next tt).

(** [__rec_sub_excl_col_clear]. *)
Fixpoint __rec_sub_excl_col_clear (fuel : nat) (parent last_page : ptr)
  : M Z :=
  match fuel with
  | O => unfinished
  | S fuel' =>
      idx <- col_slots parent ;;
      x <- foreach
             (excl_col_clear_body
                (fun page => __rec_sub_excl_col_clear fuel' page last_page)
                parent last_page)
             idx tt ;;
      match x with
      | Next _ => ret 0
      | Return e => ret e
      end
  end.

(** [__rec_sub_excl_clear]: discard exclusive access and return a page to
    availability. *)
Definition __rec_sub_excl_clear (fuel : nat) (page last_page : ptr) (fl : Z)
  : M unit :=
  if decide (LF_ISSET fl WT_REC_SINGLE ≠ 0) then ret tt
  else
    pg <- get_page page ;;
    set_ref_state (parent_ref pg) WT_REF_MEM ;;;
    if decide (page = last_page) then ret tt
    else
      ty <- page_type_of page ;;
      match ty with
      | WT_PAGE_COL_INT => __rec_sub_excl_col_clear fuel page last_page ;;; ret tt
      | WT_PAGE_ROW_INT => __rec_sub_excl_row_clear fuel page last_page ;;; ret tt
      | _ => ret tt
      end.

(** [__rec_review]: get exclusive access to the page and review the page and
    its subtree for conditions that would block our eviction of the page.
    Under [WT_REC_SINGLE] the local [last_page] starts uninitialised; it is
    read by [__rec_sub_excl_clear] only, which returns at once in that
    mode, so any start value does. *)
Definition __rec_review (fuel : nat) (page : ptr) (fl : Z) : M Z :=
  pg <- get_page page ;;
  e <- (if decide (LF_ISSET fl WT_REC_SINGLE = 0)
        then __hazard_exclusive fuel (parent_ref pg) (wait_of fl)
        else ret 0) ;;
  if decide (e ≠ 0) then ret e
  else
    let last_page := if decide (LF_ISSET fl WT_REC_SINGLE = 0) then page else NULL in
    ty <- page_type_of page ;;
    x <- match ty with
         | WT_PAGE_COL_INT => __rec_sub_excl_col fuel page last_page fl
         | WT_PAGE_ROW_INT => __rec_sub_excl_row fuel page last_page fl
         | _ => ret (0, last_page)
         end ;;
    (if decide (x.1 ≠ 0) then __rec_sub_excl_clear fuel page x.2 fl else ret tt) ;;;
    ret x.1.

(** ** Discarding pages *)

(** [__rec_discard_page]: process the page's list of tracked objects, and
    discard it. *)
Definition __rec_discard_page (page : ptr) : M Z :=
  pg <- get_page page ;;
  e <- (if decide (modify pg ≠ None) then __wt_rec_track_discard page else ret 0) ;;
  if decide (e ≠ 0) then ret e
  else __wt_page_out page ;;; ret 0.

Definition discard_row_body (rec : ptr → M Z) (parent : ptr)
    (i : nat) (_ : unit) : M (step unit Z) :=
  rref <- get_row_slot parent i ;;
  if decide (WT_ROW_REF_STATE rref ≠ WT_REF_DISK) then
    let page := WT_ROW_REF_PAGE rref in
    ty <- page_type_of page ;;
    e <- (if decide (ty = WT_PAGE_ROW_INT) then rec page else ret 0) ;;
    if decide (e ≠ 0) then ret (Return e)
    else
      e <- __rec_discard_page page ;;
      if decide (e ≠ 0) then ret (Return e) else ret (Next tt)
  else ret (Next tt).

(** [__rec_sub_discard_row]: discard any row-store pages we merged. *)
Fixpoint __rec_sub_discard_row (fuel : nat) (parent : ptr) : M Z :=
  match fuel with
  | O => unfinished
  | S fuel' =>
      idx <- row_slots parent ;;
      x <- foreach (discard_row_body (__rec_sub_discard_row fuel') parent) idx tt ;;
      match x with
      | Next _ => ret 0
      | Return e => ret e
      end
  end.

(** The loop body of [__rec_sub_discard_col]; the source reads the child's
    page pointer with [WT_ROW_REF_PAGE]. *)
Definition discard_col_body (rec : ptr → M Z) (parent : ptr)
    (i : nat) (_ : unit) : M (step unit Z) :=
  cref <- get_col_slot parent i ;;
  if decide (WT_COL_REF_STATE cref ≠ WT_REF_DISK) then
    let page := WT_ROW_REF_PAGE cref in
    ty <- page_type_of page ;;
    e <- (if decide (ty = WT_PAGE_COL_INT) then rec page else ret 0) ;;
    if decide (e ≠ 0) then ret (Return e)
    else
      e <- __rec_discard_page page ;;
      if decide (e ≠ 0) then ret (Return e) else ret (Next tt)
  else ret (Next tt).

(** [__rec_sub_discard_col]: discard any column-store pages we merged. *)
Fixpoint __rec_sub_discard_col (fuel : nat) (parent : ptr) : M Z :=
  match fuel with
  | O => unfinished
  | S fuel' =>
      idx <- col_slots parent ;;
      x <- foreach (discard_col_body (__rec_sub_discard_col fuel') parent) idx tt ;;
      match x with
      | Next _ => ret 0
      | Return e => ret e
      end
  end.

(** [__rec_sub_discard]: discard any pages merged into the evicted page. *)
Definition __rec_sub_discard (fuel : nat) (page : ptr) : M Z :=
  ty <- page_type_of page ;;
  match ty with
  | WT_PAGE_COL_INT => __rec_sub_discard_col fuel page
  | WT_PAGE_ROW_INT => __rec_sub_discard_row fuel page
  | _ => ret 0
  end.

(** ** Updating the parent *)

(** [*page->modify]. *)
Definition get_modify (page : ptr) : M WT_PAGE_MODIFY :=
  pg <- get_page page ;;
  match modify pg with
  | Some m => ret m
  | None => fault
  end.

(** [__rec_parent_clean_update]: update a parent page's reference for an
    evicted, clean page. *)
Definition __rec_parent_clean_update (page : ptr) : M Z :=
  pg <- get_page page ;;
  set_ref_page (parent_ref pg) NULL ;;;
  pg <- get_page page ;;
  set_ref_state (parent_ref pg) WT_REF_DISK ;;;
  __rec_discard_page page.

(** One pass of the loop of [__rec_root_split]: the result is [next], or
    the value the function returns with. *)
Definition root_split_body (page : ptr) : M (step ptr Z) :=
  e <- __wt_page_set_modified page ;;
  if decide (e ≠ 0) then ret (Return e)
  else
    F_CLR page WT_PAGE_REC_MASK ;;;
    e <- __wt_rec_write page ;;
    if decide (e ≠ 0) then ret (Return e)
    else
      pg <- get_page page ;;
      x <- (if decide (F_ISSET pg WT_PAGE_REC_MASK = WT_PAGE_REC_REPLACE) then
              m <- get_modify page ;;
              modify_st (fun s => set_root_page (with_addr (write_off_addr m) (root_page s)) s) ;;;
              m <- get_modify page ;;
              modify_st (fun s => set_root_page (with_size (write_off_size m) (root_page s)) s) ;;;
              modify_st (fun s => set_root_page (with_page NULL (root_page s)) s) ;;;
              ret (Next NULL)
            else if decide (F_ISSET pg WT_PAGE_REC_MASK = WT_PAGE_REC_SPLIT) then
              m <- get_modify page ;;
              ret (Next (write_split m))
            else
              e <- WT_ILLEGAL_VALUE ;; ret (Return e)) ;;
      match x with
      | Return e => ret (Return e)
      | Next next =>
          e <- __rec_discard_page page ;;
          if decide (e ≠ 0) then ret (Return e) else ret (Next next)
      end.

(** [__rec_root_split]: root splits. *)
Fixpoint __rec_root_split (fuel : nat) (page : ptr) : M Z :=
  if decide (page = NULL) then ret 0
  else
    match fuel with
    | O => unfinished
    | S fuel' =>
        x <- root_split_body page ;;
        match x with
        | Return e => ret e
        | Next next => __rec_root_split fuel' next
        end
    end.

(** The end of [__rec_parent_dirty_update], after the switch. *)
Definition dirty_update_discard (fuel : nat) (page : ptr) : M Z :=
  e <- __rec_sub_discard fuel page ;;
  if decide (e ≠ 0) then ret e
  else
    e <- __rec_discard_page page ;;
    if decide (e ≠ 0) then ret e else ret 0.

(** [__rec_parent_dirty_update]: update a parent page's reference for an
    evicted, dirty page. *)
Definition __rec_parent_dirty_update (fuel : nat) (page : ptr) (fl : Z)
  : M Z :=
  pg <- get_page page ;;
  let parent_ref := parent_ref pg in
  let sw := F_ISSET pg WT_PAGE_REC_MASK in
  if decide (sw = WT_PAGE_REC_EMPTY) then
    if WT_PAGE_IS_ROOT pg then
      set_ref_addr parent_ref WT_ADDR_INVALID ;;;
      set_ref_page parent_ref NULL ;;;
      set_ref_state parent_ref WT_REF_DISK ;;;
      dirty_update_discard fuel page
    else
      __rec_sub_excl_clear fuel page NULL fl ;;;
      ret 0
  else if decide (sw = WT_PAGE_REC_REPLACE) then
    m <- get_modify page ;;
    set_ref_addr parent_ref (write_off_addr m) ;;;
    m <- get_modify page ;;
    set_ref_size parent_ref (write_off_size m) ;;;
    set_ref_page parent_ref NULL ;;;
    set_ref_state parent_ref WT_REF_DISK ;;;
    dirty_update_discard fuel page
  else if decide (sw = WT_PAGE_REC_SPLIT) then
    if WT_PAGE_IS_ROOT pg then
      m <- get_modify page ;;
      e <- __rec_root_split fuel (write_split m) ;;
      if decide (e ≠ 0) then ret e
      else
        set_ref_state parent_ref WT_REF_DISK ;;;
        dirty_update_discard fuel page
    else
      m <- get_modify page ;;
      set_ref_page parent_ref (write_split m) ;;;
      set_ref_state parent_ref WT_REF_MEM ;;;
      dirty_update_discard fuel page
  else WT_ILLEGAL_VALUE.

(** ** The entry point *)

(** The last block of [__wt_rec_evict]: update the parent and discard the
    page. *)
Definition evict_update (fuel : nat) (page : ptr) (fl : Z) : M Z :=
  pg <- get_page page ;;
  if decide (F_ISSET pg WT_PAGE_REC_MASK = 0) then
    e <- __rec_parent_clean_update page ;;
    if decide (e ≠ 0) then ret e else ret 0
  else
    e <- __rec_parent_dirty_update fuel page fl ;;
    if decide (e ≠ 0) then ret e else ret 0.

(** [__wt_rec_evict]: reconciliation plus eviction. *)
Definition __wt_rec_evict (fuel : nat) (page : ptr) (fl : Z) : M Z :=
  pg <- get_page page ;;
  if decide (F_ISSET pg WT_PAGE_REC_SPLIT_MERGE ≠ 0) then
    g <- __wt_cache_read_gen ;;
    pg <- get_page page ;;
    put_page page (set_read_gen g pg) ;;;
    pg <- get_page page ;;
    set_ref_state (parent_ref pg) WT_REF_MEM ;;;
    ret 0
  else
    fl <- (if decide (F_ISSET pg WT_PAGE_FORCE_EVICT ≠ 0)
           then __wt_evict_force_clear page ;;; ret (LF_SET fl WT_REC_WAIT)
           else ret fl) ;;
    e <- __rec_review fuel page fl ;;
    if decide (e ≠ 0) then ret e
    else
      pg <- get_page page ;;
      e <- (if __wt_page_is_modified pg then __wt_rec_write page else ret 0) ;;
      if decide (e ≠ 0) then
        __rec_sub_excl_clear fuel page NULL fl ;;; ret e
      else evict_update fuel page fl.

(** * Notions used in the statements *)

(** ** What locking and unlocking leave alone *)

(** A reference, a slot and a page with the reference states forgotten. *)
Definition erase_ref (x : WT_REF) : WT_REF := with_state WT_REF_DISK x.

Definition erase_slot {A : Type} `{HasRef A} (c : A) : A :=
  with_ref (erase_ref (ref c)) c.

Definition erase_page (pg : WT_PAGE) : WT_PAGE :=
  match u pg with
  | u_col_int t => set_u (u_col_int (erase_slot <$> t)) pg
  | u_row_int t => set_u (u_row_int (erase_slot <$> t)) pg
  | _ => pg
  end.

(** A state up to the reference states, the hazard arrays and the readers'
    schedule. *)
Definition erase (s : St) : St :=
  MkSt (erase_page <$> heap s) (erase_ref (root_page s)) [] []
       (cache_read_gen s) [] (rec_answers s) (setmod_answers s)
       (track_answers s) (discarded s).

(** A run that changes reference states, hazard arrays and the readers'
    schedule at most. *)
Definition frames {A : Type} (m : M A) : Prop :=
  ∀ s a s', m s = Ret a s' → erase s' = erase s.

(** ** The skeleton of a state: what no lock, flag or outcome changes *)

(** A page and a state with the reference states, the flags, the modify
    records and the reconciler's answers forgotten. *)
Definition skel_page (pg : WT_PAGE) : WT_PAGE :=
  set_flags 0 (set_modify None (erase_page pg)).

Definition skel (s : St) : St :=
  MkSt (skel_page <$> heap s) (erase_ref (root_page s)) [] []
       (cache_read_gen s) [] [] (setmod_answers s) (track_answers s)
       (discarded s).

(** ** Errors of the collaborators reach the caller *)

(** The non-zero codes among answers. *)
Definition errors (l : list Z) : list Z := filter (λ z, z ≠ 0) l.

(** Between [s] and [s'] the run consumed answers of the collaborators; all
    of them were 0, or one was not and [e] is that one. *)
Definition surfaced (s : St) (e : Z) (s' : St) : Prop :=
  ∃ cw ct cm,
    rec_answers s = cw ++ rec_answers s' ∧
    track_answers s = ct ++ track_answers s' ∧
    setmod_answers s = cm ++ setmod_answers s' ∧
    (errors (rec_ret <$> cw) ++ errors ct ++ errors cm = [] ∨
     e ≠ 0 ∧ errors (rec_ret <$> cw) ++ errors ct ++ errors cm = [e]).

(** Every run of [m] surfaces the errors it meets in [code] of its result. *)
Definition surfaces {A : Type} (code : A → Z) (m : M A) : Prop :=
  ∀ s a s', m s = Ret a s' → surfaced s (code a) s'.

(** A run that asks the collaborators nothing. *)
Definition quiet {A : Type} (m : M A) : Prop :=
  ∀ s a s', m s = Ret a s' →
    rec_answers s' = rec_answers s ∧ track_answers s' = track_answers s ∧
    setmod_answers s' = setmod_answers s.

(** The return value a loop pass stands for: 0 while the loop goes on. *)
Definition step_code {A : Type} (x : step A Z) : Z :=
  match x with
  | Next _ => 0
  | Return e => e
  end.

(** ** The shape of a run of the entry point *)

(** The flags [__wt_rec_evict] goes on with: [WT_REC_WAIT] is added for a
    page marked for forced eviction. *)
Definition evict_flags (pg : WT_PAGE) (fl : Z) : Z :=
  if decide (F_ISSET pg WT_PAGE_FORCE_EVICT ≠ 0) then LF_SET fl WT_REC_WAIT else fl.

(** What a successful [write_page] with answer [a] leaves of a page. *)
Definition written (a : rec_answer) (pg : WT_PAGE) : WT_PAGE :=
  set_modify (Some (rec_modify a))
    (set_flags (Z.lor (Z.ldiff (flags pg) WT_PAGE_REC_MASK)
                      (Z.land (rec_flags a) WT_PAGE_REC_MASK)) pg).

(** The reference [r] is not a slot of the page [page]. *)
Definition outside (r : ref_ptr) (page : ptr) : Prop :=
  ∀ i, r ≠ SlotRef page i.

(** The page reconciles to no result: it is not dirty and carries none, or
    the reconciler's next answer is a success with none. *)
Definition clean_outcome (pg : WT_PAGE) (s : St) : Prop :=
  if __wt_page_is_modified pg
  then ∃ a rest, rec_answers s = a :: rest ∧ rec_ret a = 0 ∧
                 Z.land (rec_flags a) WT_PAGE_REC_MASK = 0
  else F_ISSET pg WT_PAGE_REC_MASK = 0.

(** ** The unlock walk only ever stores [WT_REF_MEM] *)

(** The reference exists and is in state MEM. *)
Definition ref_in_mem (r : ref_ptr) (s : St) : Prop :=
  ∃ y, lookup_ref r s = Some y ∧ ref_state y = WT_REF_MEM.

(** Every run of [m] keeps the property [P] of the state. *)
Definition keeps {A : Type} (P : St → Prop) (m : M A) : Prop :=
  ∀ s a s', P s → m s = Ret a s' → P s'.

(** A run that leaves the state as it is. *)
Definition reads {A : Type} (m : M A) : Prop :=
  ∀ s a s', m s = Ret a s' → s' = s.

(** ** The root-split loop *)

(** The reconciler's answer is [Split{next}], respectively
    [Replace{addr, size}]. *)
Definition is_split (a : rec_answer) (next : ptr) : Prop :=
  rec_ret a = 0 ∧
  Z.land (rec_flags a) WT_PAGE_REC_MASK = WT_PAGE_REC_SPLIT ∧
  write_split (rec_modify a) = next.

Definition is_replace (a : rec_answer) (addr size : Z) : Prop :=
  rec_ret a = 0 ∧
  Z.land (rec_flags a) WT_PAGE_REC_MASK = WT_PAGE_REC_REPLACE ∧
  write_off_addr (rec_modify a) = addr ∧
  write_off_size (rec_modify a) = size.

(** The answers to the writes of a chain of pages: each page splits into
    the next of [rest], the last is replaced by [(addr, size)]. *)
Fixpoint split_chain (rest : list ptr) (answers : list rec_answer)
    (addr size : Z) : Prop :=
  match rest, answers with
  | [], [a] => is_replace a addr size
  | next :: rest', a :: answers' =>
      is_split a next ∧ split_chain rest' answers' addr size
  | _, _ => False
  end.

(** ** Scenarios *)

(** A tree of three levels: the root page at address 50 is a row-store
    internal page whose slot 0 references the page at address 100, the
    candidate of the eviction; the candidate's children, when it has any, are
    the leaves at 200 and 300. *)

Definition row_slot (x : WT_REF) : WT_ROW_REF := MkRowRef x 0.

Definition root_50 (st : wt_state) : WT_PAGE :=
  MkPage (u_row_int [row_slot (MkRef st 100 11 12)]) NULL RootRef None 0 0.

Definition tree (root st_100 : wt_state) (pages : list (Z * WT_PAGE))
  : gmap Z WT_PAGE :=
  <[50 := root_50 st_100]> (list_to_map pages).

Definition at_rest (h : gmap Z WT_PAGE) : St :=
  MkSt h (MkRef WT_REF_MEM 50 1 2) [] [] 9 [] [] [] [] [].

Definition leaf (fl : Z) (m : option WT_PAGE_MODIFY) (i : nat) : WT_PAGE :=
  MkPage u_row_leaf 100 (SlotRef 100 i) m 0 fl.

Definition internal_100 (fl : Z) (m : option WT_PAGE_MODIFY)
    (children : list WT_REF) : WT_PAGE :=
  MkPage (u_row_int (row_slot <$> children)) 50 (SlotRef 50 0) m 0 fl.

Definition a_dirty : WT_PAGE_MODIFY := MkModify 0 0 NULL true.
Definition a_clean : WT_PAGE_MODIFY := MkModify 0 0 NULL false.

(** The candidate has one child in memory: a leaf that split and was
    modified again. *)
Definition st_dirty_split_child : St :=
  at_rest (tree WT_REF_MEM WT_REF_MEM
    [(100, internal_100 0 None [MkRef WT_REF_MEM 200 21 22]);
     (200, leaf WT_PAGE_REC_SPLIT (Some a_dirty) 0)]).

(** The candidate has a child on disk, then a clean split leaf, then a leaf
    without any reconciliation result. *)
Definition st_disk_then_locked : St :=
  at_rest (tree WT_REF_MEM WT_REF_MEM
    [(100, internal_100 0 None
             [MkRef WT_REF_DISK NULL 21 22; MkRef WT_REF_MEM 200 0 0;
              MkRef WT_REF_MEM 300 0 0]);
     (200, leaf WT_PAGE_REC_SPLIT None 1);
     (300, leaf 0 None 2)]).

(** The candidate is clean and carries the result Empty; it has a child on
    disk and an empty leaf in memory. *)
Definition st_empty_with_disk_child : St :=
  at_rest (tree WT_REF_MEM WT_REF_MEM
    [(100, internal_100 WT_PAGE_REC_EMPTY None
             [MkRef WT_REF_DISK NULL 21 22; MkRef WT_REF_MEM 200 0 0]);
     (200, leaf WT_PAGE_REC_EMPTY None 1)]).

(** The candidate is a leaf. *)
Definition candidate_leaf (fl : Z) (m : option WT_PAGE_MODIFY) : WT_PAGE :=
  MkPage u_row_leaf 50 (SlotRef 50 0) m 0 fl.

Definition st_clean_leaf : St :=
  at_rest (tree WT_REF_MEM WT_REF_MEM [(100, candidate_leaf 0 None)]).

(** A clean leaf with a modify record whose tracked objects fail to drain
    with error 5. *)
Definition st_discard_fails : St :=
  MkSt (tree WT_REF_MEM WT_REF_MEM [(100, candidate_leaf 0 (Some a_clean))])
       (MkRef WT_REF_MEM 50 1 2) [] [] 9 [] [] [] [5] [].

(** A dirty leaf whose write fails with error 7. *)
Definition st_write_fails : St :=
  MkSt (tree WT_REF_MEM WT_REF_MEM [(100, candidate_leaf 0 (Some a_dirty))])
       (MkRef WT_REF_MEM 50 1 2) [] [] 9 []
       [MkAnswer 7 0 a_clean] [] [] [].

(** The candidate is a split-merge page the eviction server has locked. *)
Definition st_split_merge : St :=
  at_rest (tree WT_REF_MEM WT_REF_LOCKED
    [(100, internal_100 WT_PAGE_REC_SPLIT_MERGE None [MkRef WT_REF_DISK NULL 21 22])]).

(** A reader holds a hazard reference on the page at 100 and gives it up
    at the first yield. *)
Definition st_reader : St :=
  MkSt (tree WT_REF_MEM WT_REF_MEM [(100, candidate_leaf 0 None)])
       (MkRef WT_REF_MEM 50 1 2) [NULL; 100; NULL] [] 9 [[NULL; NULL; NULL]]
       [] [] [] [].

(** The new root at 500 splits again into the page at 600, which is
    replaced by the block at (0x42, 4096). *)
Definition new_root (self : ptr) : WT_PAGE :=
  MkPage (u_row_int [row_slot (MkRef WT_REF_DISK NULL 31 32)]) NULL RootRef None 0
         WT_PAGE_REC_SPLIT_MERGE.

Definition st_bulk_load : St :=
  MkSt (list_to_map [(500, new_root 500); (600, new_root 600)])
       (MkRef WT_REF_LOCKED 50 1 2) [] [] 9 []
       [MkAnswer 0 WT_PAGE_REC_SPLIT (MkModify 0 0 600 false);
        MkAnswer 0 WT_PAGE_REC_REPLACE (MkModify 0x42 4096 NULL false)]
       [0; 0] [0; 0] [].

(** ** What the discard walk leaves alone *)

(** Between [s] and [s'] the pages of [l] left memory, in that order, each
    of them once; drain answers were consumed; nothing else changed. *)
Definition discards (l : list ptr) (s s' : St) : Prop :=
  discarded s' = discarded s ++ l ∧
  NoDup l ∧
  (∀ p, p ∈ l → is_Some (heap s !! p)) ∧
  (∀ p, heap s' !! p = if decide (p ∈ l) then None else heap s !! p) ∧
  root_page s' = root_page s ∧
  conn_hazard s' = conn_hazard s ∧ cache_hazard s' = cache_hazard s ∧
  readers s' = readers s ∧ cache_read_gen s' = cache_read_gen s ∧
  rec_answers s' = rec_answers s ∧ setmod_answers s' = setmod_answers s ∧
  ∃ ct, track_answers s = ct ++ track_answers s'.

(** Every run of [m] discards pages and does nothing else. *)
Definition removing {A : Type} (m : M A) : Prop :=
  ∀ s a s', m s = Ret a s' → ∃ l, discards l s s'.

(** ** Evicting a page that reconciles to a result *)

(** The page reconciles to the result [k] with the modify record [om]: it is
    not dirty and carries them, or the reconciler's next answer is a success
    that leaves them. *)
Definition outcome (pg : WT_PAGE) (s : St) (k : Z) (om : option WT_PAGE_MODIFY)
  : Prop :=
  if __wt_page_is_modified pg
  then ∃ a rest, rec_answers s = a :: rest ∧ rec_ret a = 0 ∧
                 Z.land (rec_flags a) WT_PAGE_REC_MASK = k ∧
                 om = Some (rec_modify a)
  else F_ISSET pg WT_PAGE_REC_MASK = k ∧ modify pg = om.

(** The page has no slot array: it is a leaf. *)
Definition is_leaf (pg : WT_PAGE) : Prop :=
  type pg ≠ WT_PAGE_COL_INT ∧ type pg ≠ WT_PAGE_ROW_INT.

(** The reference lies in one of the pages of [l]. *)
Definition held_in (r : ref_ptr) (l : list ptr) : Prop :=
  ∃ p i, r = SlotRef p i ∧ p ∈ l.

(** ** The pages merged into a row-store page *)

(** The references in the slots of an internal page, in array order. *)
Definition slot_refs (pg : WT_PAGE) : list WT_REF :=
  match u pg with
  | u_col_int t => ref <$> t
  | u_row_int t => ref <$> t
  | _ => []
  end.

(** The pages below the row-store internal page [parent] that are not on
    disk, each after the pages below it, in slot order, as the heap [h] has
    them.  The depth is bounded by [fuel] as that of the discard walk is: a
    walk that returns has met no page below the bound. *)
Fixpoint merged_row (fuel : nat) (h : gmap Z WT_PAGE) (parent : ptr) : list ptr :=
  match fuel with
  | O => []
  | S fuel' =>
      match h !! parent with
      | None => []
      | Some pg =>
          y ← slot_refs pg;
          if decide (ref_state y ≠ WT_REF_DISK) then
            match h !! ref_page y with
            | Some cpg =>
                if decide (type cpg = WT_PAGE_ROW_INT)
                then merged_row fuel' h (ref_page y) else []
            | None => []
            end ++ [ref_page y]
          else []
      end
  end.

(** One slot's share of the merged pages. *)
Definition merged_slot (fuel : nat) (h : gmap Z WT_PAGE) (y : WT_REF) : list ptr :=
  if decide (ref_state y ≠ WT_REF_DISK) then
    match h !! ref_page y with
    | Some cpg =>
        if decide (type cpg = WT_PAGE_ROW_INT)
        then merged_row fuel h (ref_page y) else []
    | None => []
    end ++ [ref_page y]
  else [].

(** The pages merged into [page]: none for a leaf. *)
Definition merged (fuel : nat) (h : gmap Z WT_PAGE) (page : ptr) : list ptr :=
  match h !! page with
  | Some pg =>
      if decide (type pg = WT_PAGE_ROW_INT) then merged_row fuel h page else []
  | None => []
  end.

(** What the discard walk reads of a reference: its page pointer and
    whether its state is DISK. *)
Definition shape (y : WT_REF) : ptr * bool :=
  (ref_page y, bool_decide (ref_state y = WT_REF_DISK)).

(** The state [s'] has the pages of [s], of the same types, and every
    reference but [pr] has the shape it has in [s]. *)
Definition same_tree (pr : ref_ptr) (s s' : St) : Prop :=
  (∀ p, type <$> heap s' !! p = type <$> heap s !! p) ∧
  (∀ r, r ≠ pr → shape <$> lookup_ref r s' = shape <$> lookup_ref r s).

(** ** What a successful review leaves locked *)

(** The reference exists and its state satisfies [Q]. *)
Definition state_in (Q : wt_state → Prop) (r : ref_ptr) (s : St) : Prop :=
  ∃ y, lookup_ref r s = Some y ∧ Q (ref_state y).

Definition disk_or_locked (st : wt_state) : Prop :=
  st = WT_REF_DISK ∨ st = WT_REF_LOCKED.

(** Every run of [m] that ends with the code 0 keeps the property [P]. *)
Definition keeps_ok {A : Type} (code : A → Z) (P : St → Prop) (m : M A) : Prop :=
  ∀ s a s', P s → m s = Ret a s' → code a = 0 → P s'.

(** The return value a pass of the review walk stands for. *)
Definition walk_code {A : Type} (x : step A (Z * ptr)) : Z :=
  match x with
  | Next _ => 0
  | Return x => x.1
  end.

(** The loop body of the two review walks, over the slot accessor and the
    type of the internal pages. *)
Definition excl_body {T : Type} `{HasRef T} (get_slot : ptr → nat → M T)
    (ty0 : page_type) (fuel : nat) (rec : ptr → ptr → M (Z * ptr))
    (parent : ptr) (fl : Z) (i : nat) (last_page : ptr)
  : M (step ptr (Z * ptr)) :=
  c <- get_slot parent i ;;
  match ref_state (ref c) with
  | WT_REF_DISK => ret (Next last_page)
  | WT_REF_LOCKED | WT_REF_READING => ret (Return (WT_ERROR, last_page))
  | WT_REF_MEM =>
      let page := ref_page (ref c) in
      e <- __rec_sub_excl_page fuel (SlotRef parent i) page fl ;;
      if decide (e ≠ 0) then ret (Return (e, last_page))
      else
        ty <- page_type_of page ;;
        if decide (ty = ty0) then
          x <- rec page page ;;
          if decide (x.1 ≠ 0) then ret (Return x) else ret (Next x.2)
        else ret (Next page)
  end.

(** ** The unlock walk below a candidate whose children are leaves *)

(** The loop body of the two unlock walks, over the slot accessor and the
    type of the internal pages. *)
Definition excl_clear_body {T : Type} `{HasRef T} (get_slot : ptr → nat → M T)
    (ty0 : page_type) (rec : ptr → M Z) (parent last_page : ptr)
    (i : nat) (_ : unit) : M (step unit Z) :=
  c <- get_slot parent i ;;
  set_ref_state (SlotRef parent i) WT_REF_MEM ;;;
  let page := ref_page (ref c) in
  if decide (page = last_page) then ret (Return 1)
  else
    ty <- page_type_of page ;;
    if decide (ty = ty0) then
      e <- rec page ;;
      if decide (e ≠ 0) then ret (Return 1) else ret (Next tt)
    else ret (Next tt).

(** The number of slots of a page. *)
Definition nslots (pg : WT_PAGE) : nat :=
  match u pg with
  | u_col_int t => length t
  | u_row_int t => length t
  | _ => 0%nat
  end.

(** Relative to [s0], the state [s] has the first [m] slots of [page] in
    state [st] and differs in no other reference state. *)
Definition slots_set (st : wt_state) (page : ptr) (s0 : St) (m : nat) (s : St)
  : Prop :=
  (∀ j y, (j < m)%nat → lookup_ref (SlotRef page j) s0 = Some y →
          lookup_ref (SlotRef page j) s = Some (with_state st y)) ∧
  (∀ r, (∀ j, (j < m)%nat → r ≠ SlotRef page j) →
        lookup_ref r s = lookup_ref r s0) ∧
  erase s = erase s0.

(** ** A review that fails releases what it locked *)

(** The child can be merged into its parent: it is a split-merge page, or a
    clean page that split or is empty. *)
Definition mergeable (pg : WT_PAGE) : Prop :=
  F_ISSET pg WT_PAGE_REC_SPLIT_MERGE ≠ 0 ∨
  ((F_ISSET pg WT_PAGE_REC_SPLIT ≠ 0 ∨ F_ISSET pg WT_PAGE_REC_EMPTY ≠ 0) ∧
   __wt_page_is_modified pg = false).

(** The slot stops the review with [code]: another thread has it locked or
    is reading it, or its page is in memory without any chance of a merge. *)
Definition blocks (s : St) (y : WT_REF) (code : Z) : Prop :=
  ((ref_state y = WT_REF_LOCKED ∨ ref_state y = WT_REF_READING) ∧ code = WT_ERROR) ∨
  (ref_state y = WT_REF_MEM ∧ code = 1 ∧
   ∃ cpg, heap s !! ref_page y = Some cpg ∧
          F_ISSET cpg (Z.lor (Z.lor WT_PAGE_REC_EMPTY WT_PAGE_REC_SPLIT)
                             WT_PAGE_REC_SPLIT_MERGE) = 0).

(** [*last_pagep] after the first [k] slots of [page] were locked: the
    start value, or the page of slot [k - 1]. *)
Definition last_at (page : ptr) (s0 : St) (last0 : ptr) (k : nat) (a : ptr) : Prop :=
  (k = 0%nat → a = last0) ∧
  (∀ j, k = S j → ∃ y, lookup_ref (SlotRef page j) s0 = Some y ∧ ref_page y = a).

(** ** The subtree the unlock walk runs over *)

(** The references the unlock walk below [parent] stores to: the slots of
    [parent] and, through the children of type [ty0], the slots below
    them. *)
Inductive below (ty0 : page_type) (s : St) : ptr → ref_ptr → Prop :=
  | below_slot (parent : ptr) (i : nat) (y : WT_REF) :
      lookup_ref (SlotRef parent i) s = Some y →
      below ty0 s parent (SlotRef parent i)
  | below_child (parent : ptr) (i : nat) (y : WT_REF) (cpg : WT_PAGE)
      (r : ref_ptr) :
      lookup_ref (SlotRef parent i) s = Some y →
      heap s !! ref_page y = Some cpg → type cpg = ty0 →
      below ty0 s (ref_page y) r →
      below ty0 s parent r.

(** ** More scenarios *)

(** The candidate at 100 is dirty and has one child in memory, a clean
    empty leaf; its write answers Replace by the block at (0x42, 4096). *)
Definition st_replace_internal : St :=
  MkSt (tree WT_REF_MEM WT_REF_MEM
          [(100, internal_100 0 (Some a_dirty) [MkRef WT_REF_MEM 200 21 22]);
           (200, leaf WT_PAGE_REC_EMPTY None 0)])
       (MkRef WT_REF_MEM 50 1 2) [] [] 9 []
       [MkAnswer 0 WT_PAGE_REC_REPLACE (MkModify 0x42 4096 NULL false)] [] [0] [].

(** The candidate at 100 has three leaves in memory; the first two are
    locked. *)
Definition st_locked_children : St :=
  at_rest (tree WT_REF_MEM WT_REF_LOCKED
    [(100, internal_100 0 None
             [MkRef WT_REF_LOCKED 200 21 22; MkRef WT_REF_LOCKED 300 31 32;
              MkRef WT_REF_MEM 400 41 42]);
     (200, leaf WT_PAGE_REC_EMPTY None 0);
     (300, leaf WT_PAGE_REC_EMPTY None 1);
     (400, leaf 0 None 2)]).

(** A leaf marked for forced eviction; a reader holds a hazard reference
    on it and gives it up at the second yield. *)
Definition st_forced : St :=
  MkSt (tree WT_REF_MEM WT_REF_MEM [(100, candidate_leaf WT_PAGE_FORCE_EVICT None)])
       (MkRef WT_REF_MEM 50 1 2) [NULL; 100; NULL] [] 9
       [[NULL; 100; NULL]; [NULL; NULL; NULL]] [] [] [] [].

(** The candidate at 100 has a clean empty leaf, a child on disk and an
    ordinary leaf in memory. *)
Definition st_busy : St :=
  at_rest (tree WT_REF_MEM WT_REF_MEM
    [(100, internal_100 0 None
             [MkRef WT_REF_MEM 200 21 22; MkRef WT_REF_DISK NULL 31 32;
              MkRef WT_REF_MEM 400 41 42]);
     (200, leaf WT_PAGE_REC_EMPTY None 0);
     (400, leaf 0 None 2)]).

(** The candidate at 100 is dirty; its first slot is on disk, its second
    holds the split-merge page at 200, whose only child is the clean empty
    leaf at 300.  The write of the candidate answers Split into the page at
    700. *)
Definition st_split_internal : St :=
  MkSt (tree WT_REF_MEM WT_REF_MEM
          [(100, internal_100 0 (Some a_dirty)
                   [MkRef WT_REF_DISK NULL 31 32; MkRef WT_REF_MEM 200 21 22]);
           (200, MkPage (u_row_int [row_slot (MkRef WT_REF_MEM 300 41 42)])
                   100 (SlotRef 100 1) None 0 WT_PAGE_REC_SPLIT_MERGE);
           (300, MkPage u_row_leaf 200 (SlotRef 200 0) None 0 WT_PAGE_REC_EMPTY)])
       (MkRef WT_REF_MEM 50 1 2) [] [] 9 []
       [MkAnswer 0 WT_PAGE_REC_SPLIT (MkModify 0 0 700 false)] [] [0] [].

(** The root page at 50 is dirty and has one child in memory, the clean
    empty leaf at 100; its write answers Empty. *)
Definition root_page_50 : WT_PAGE :=
  MkPage (u_row_int [row_slot (MkRef WT_REF_MEM 100 11 12)]) NULL RootRef
         (Some a_dirty) 0 0.

Definition st_empty_root : St :=
  MkSt {[50 := root_page_50; 100 := candidate_leaf WT_PAGE_REC_EMPTY None]}
       (MkRef WT_REF_MEM 50 1 2) [] [] 9 []
       [MkAnswer 0 WT_PAGE_REC_EMPTY (MkModify 0 0 NULL false)] [] [0] [].

(** A dirty internal page with two clean empty leaves in memory; its write
    fails with error 7. *)
Definition st_write_fails_internal : St :=
  MkSt (tree WT_REF_MEM WT_REF_MEM
          [(100, internal_100 0 (Some a_dirty)
                   [MkRef WT_REF_MEM 200 21 22; MkRef WT_REF_MEM 300 31 32]);
           (200, leaf WT_PAGE_REC_EMPTY None 0);
           (300, leaf WT_PAGE_REC_EMPTY None 1)])
       (MkRef WT_REF_MEM 50 1 2) [] [] 9 []
       [MkAnswer 7 0 a_clean] [] [] [].

(** * Lemmas and theorems *)

(** ** The snapshot is the sorted list of the live hazard references *)

Lemma hazard_compact_elem (p : ptr) (hazard : list ptr) :
  p ∈ hazard_compact hazard ↔ p ∈ hazard ∧ p ≠ NULL.
Proof.
  induction hazard as [|q l IH]; simpl.
  - split; [intros H; inversion H | intros [H _]; inversion H].
  - destruct (decide (q = NULL)) as [->|Hq].
    + rewrite IH, elem_of_cons. unfold NULL. intuition congruence.
    + rewrite !elem_of_cons, IH. intuition congruence.
Qed.

Lemma qsort_insert_elem (x y : ptr) (l : list ptr) :
  y ∈ qsort_insert __hazard_qsort_cmp x l ↔ y = x ∨ y ∈ l.
Proof.
  induction l as [|z l IH]; simpl.
  - rewrite list_elem_of_singleton, elem_of_nil. tauto.
  - destruct (decide _); rewrite !elem_of_cons; [done|]. rewrite IH. tauto.
Qed.

Lemma qsort_elem (y : ptr) (l : list ptr) :
  y ∈ qsort l __hazard_qsort_cmp ↔ y ∈ l.
Proof.
  induction l as [|x l IH]; simpl; [done|].
  rewrite qsort_insert_elem, elem_of_cons, IH. done.
Qed.

Lemma qsort_cmp_le (a b : ptr) : __hazard_qsort_cmp a b ≤ 0 ↔ a ≤ b.
Proof. unfold __hazard_qsort_cmp. repeat destruct (decide _); lia. Qed.

Lemma qsort_insert_sorted (x : ptr) (l : list ptr) :
  StronglySorted Z.le l → StronglySorted Z.le (qsort_insert __hazard_qsort_cmp x l).
Proof.
  induction 1 as [|z l Hs IH Hall]; simpl.
  - repeat constructor.
  - destruct (decide _) as [Hle|Hgt].
    + apply (proj1 (qsort_cmp_le _ _)) in Hle. constructor; [by constructor|].
      constructor; [exact Hle|]. eapply Forall_impl; [exact Hall|]. intros; simpl in *; lia.
    + rewrite qsort_cmp_le in Hgt. constructor; [done|].
      apply Forall_forall. intros y Hy. apply qsort_insert_elem in Hy as [->|Hy]; [lia|].
      rewrite Forall_forall in Hall. by apply Hall.
Qed.

Lemma qsort_sorted (l : list ptr) :
  StronglySorted Z.le (qsort l __hazard_qsort_cmp).
Proof.
  induction l; simpl; [constructor | by apply qsort_insert_sorted].
Qed.

Lemma sorted_lookup_le (l : list ptr) (i j : nat) (a b : ptr) :
  StronglySorted Z.le l → (i ≤ j)%nat →
  l !! i = Some a → l !! j = Some b → a ≤ b.
Proof.
  intros Hs. revert i j. induction Hs as [|z l Hs IH Hall]; intros i j Hij Hi Hj.
  - by rewrite lookup_nil in Hi.
  - destruct i as [|i], j as [|j]; simpl in *; simplify_eq; try lia.
    + rewrite Forall_forall in Hall. apply Hall. eapply list_elem_of_lookup_2; eauto.
    + apply (IH i j); [lia | exact Hi | exact Hj].
Qed.

(** ** Binary search in a sorted array is membership *)

Lemma bsearch_loop_S (cmp : ptr → ptr → Z) (key : ptr) (base : list ptr)
    (n lo hi : nat) :
  bsearch_loop cmp key base (S n) lo hi =
  if decide (lo < hi)%nat then
    match base !! ((lo + hi) / 2)%nat with
    | None => None
    | Some e =>
        if decide (cmp key e < 0)
        then bsearch_loop cmp key base n lo ((lo + hi) / 2)%nat
        else if decide (cmp key e > 0)
             then bsearch_loop cmp key base n (S ((lo + hi) / 2)%nat) hi
             else Some e
    end
  else None.
Proof. reflexivity. Qed.

Lemma bsearch_loop_sound (key : ptr) (base : list ptr) (n lo hi : nat) (e : ptr) :
  bsearch_loop __hazard_bsearch_cmp key base n lo hi = Some e →
  e = key ∧ key ∈ base.
Proof.
  revert lo hi. induction n as [|n IH]; intros lo hi; [done|].
  rewrite bsearch_loop_S.
  destruct (decide (lo < hi)%nat); [|done].
  destruct (base !! ((lo + hi) / 2)%nat) as [x|] eqn:Hx; [|done].
  unfold __hazard_bsearch_cmp.
  repeat destruct (decide _); try lia; eauto.
  intros [= <-]. assert (key = x) as -> by lia.
  split; [done|]. eapply list_elem_of_lookup_2; eauto.
Qed.

Lemma bsearch_loop_complete (key : ptr) (base : list ptr) (n lo hi i : nat) :
  StronglySorted Z.le base →
  (hi ≤ length base)%nat → (hi - lo ≤ n)%nat →
  (lo ≤ i < hi)%nat → base !! i = Some key →
  bsearch_loop __hazard_bsearch_cmp key base n lo hi = Some key.
Proof.
  intros Hs. revert lo hi. induction n as [|n IH]; intros lo hi Hhi Hn Hi Hk; [lia|].
  rewrite bsearch_loop_S. destruct (decide (lo < hi)%nat); [|lia].
  assert (Hm : (lo ≤ (lo + hi) / 2 < hi)%nat).
  { split; [apply Nat.div_le_lower_bound; lia | apply Nat.Div0.div_lt_upper_bound; lia]. }
  generalize dependent ((lo + hi) / 2)%nat. intros m Hm.
  destruct (lookup_lt_is_Some_2 base m) as [x Hx]; [lia|].
  rewrite Hx. unfold __hazard_bsearch_cmp.
  destruct (decide (key > x)).
  - destruct (decide (1 < 0)); [lia|]. destruct (decide (1 > 0)); [|lia].
    apply IH; [lia | lia | | done].
    split; [|lia]. destruct (decide (i ≤ m)%nat) as [Him|]; [|lia].
    pose proof (sorted_lookup_le base i m key x Hs Him Hk Hx). lia.
  - destruct (decide (key < x)).
    + destruct (decide (-1 < 0)); [|lia].
      apply IH; [lia | lia | | done].
      split; [lia|]. destruct (decide (m ≤ i)%nat) as [Hmi|]; [|lia].
      pose proof (sorted_lookup_le base m i x key Hs Hmi Hx Hk). lia.
    + destruct (decide (0 < 0)); [lia|]. destruct (decide (0 > 0)); [lia|].
      f_equal. lia.
Qed.

Lemma bsearch_sorted (key : ptr) (base : list ptr) :
  StronglySorted Z.le base →
  is_Some (bsearch key base (length base) __hazard_bsearch_cmp) ↔ key ∈ base.
Proof.
  intros Hs. unfold bsearch. split.
  - intros [e He]. by apply bsearch_loop_sound in He as [_ ?].
  - intros Hin. apply list_elem_of_lookup_1 in Hin as [i Hi].
    exists key. pose proof (lookup_lt_Some _ _ _ Hi).
    eapply bsearch_loop_complete; eauto; lia.
Qed.

Lemma hazard_found_spec (page : ptr) (hazard : list ptr) :
  hazard_found page hazard = true ↔ page ∈ hazard ∧ page ≠ NULL.
Proof.
  unfold hazard_found.
  pose proof (bsearch_sorted page (snapshot hazard) (qsort_sorted _)) as Hb.
  unfold snapshot at 3 in Hb. rewrite qsort_elem, hazard_compact_elem in Hb.
  rewrite <- Hb. destruct (bsearch _ _ _ _); split; intros H; try done.
Qed.

(** ** Reading and writing references *)

Lemma ref_with_ref_row (r : WT_REF) (x : WT_ROW_REF) : ref (with_ref r x) = r.
Proof. done. Qed.

Lemma ref_with_ref_col (r : WT_REF) (x : WT_COL_REF) : ref (with_ref r x) = r.
Proof. done. Qed.

Lemma slot_ref_with_ref (pg : WT_PAGE) (i : nat) (x y : WT_REF) :
  slot_ref pg i = Some x → slot_ref (slot_with_ref y i pg) i = Some y.
Proof.
  unfold slot_ref, slot_with_ref.
  destruct (u pg) as [|t| |t|] eqn:Hu; simpl; try done;
    rewrite list_lookup_alter_eq; destruct (t !! i); simpl; intros; simplify_eq; done.
Qed.

Lemma slot_ref_with_ref_ne (pg : WT_PAGE) (i j : nat) (y : WT_REF) :
  i ≠ j → slot_ref (slot_with_ref y i pg) j = slot_ref pg j.
Proof.
  intros Hij. unfold slot_ref, slot_with_ref.
  destruct (u pg) as [|t| |t|] eqn:Hu; simpl; rewrite ?Hu; try done;
    by rewrite list_lookup_alter_ne.
Qed.

Lemma lookup_store_ref (r : ref_ptr) (s : St) (x y : WT_REF) :
  lookup_ref r s = Some x → lookup_ref r (store_ref r y s) = Some y.
Proof.
  destruct r as [|p i]; simpl; [done|].
  destruct (heap s !! p) as [pg|] eqn:Hp; simpl; [|done].
  intros Hx. rewrite lookup_insert_eq. simpl. by eapply slot_ref_with_ref.
Qed.

Lemma lookup_store_ref_ne (r r' : ref_ptr) (s : St) (y : WT_REF) :
  r ≠ r' → lookup_ref r' (store_ref r y s) = lookup_ref r' s.
Proof.
  intros Hne. destruct r as [|p i], r' as [|p' j]; simpl; try done.
  - by destruct (heap s !! p).
  - destruct (heap s !! p) as [pg|] eqn:Hp; simpl; [|done].
    destruct (decide (p = p')) as [<-|Hpp].
    + rewrite lookup_insert_eq, Hp. simpl. apply slot_ref_with_ref_ne. congruence.
    + by rewrite lookup_insert_ne.
Qed.

Lemma store_ref_env (r : ref_ptr) (y : WT_REF) (s : St) :
  conn_hazard (store_ref r y s) = conn_hazard s ∧
  cache_hazard (store_ref r y s) = cache_hazard s ∧
  readers (store_ref r y s) = readers s.
Proof. destruct r as [|p i]; simpl; [done|]. by destruct (heap s !! p). Qed.

Lemma get_ref_run (r : ref_ptr) (s : St) (x : WT_REF) :
  lookup_ref r s = Some x → get_ref r s = Ret x s.
Proof. unfold get_ref. by intros ->. Qed.

Lemma set_ref_state_run (r : ref_ptr) (st : wt_state) (s : St) (x : WT_REF) :
  lookup_ref r s = Some x →
  set_ref_state r st s = Ret tt (store_ref r (with_state st x) s).
Proof.
  intros Hx. unfold set_ref_state, put_ref, bind, modify_st.
  by rewrite !(get_ref_run r s x).
Qed.

Lemma lookup_ref_set_cache_hazard (r : ref_ptr) (h : list ptr) (s : St) :
  lookup_ref r (set_cache_hazard h s) = lookup_ref r s.
Proof. by destruct r. Qed.

Lemma lookup_ref_yield_st (r : ref_ptr) (s : St) :
  lookup_ref r (yield_st s) = lookup_ref r s.
Proof. unfold yield_st. destruct (readers s); by destruct r. Qed.

(** ** The exclusive-access request *)

(** One pass of the retry loop. *)
Lemma hazard_retry_S (fuel : nat) (r : ref_ptr) (force : Z) (s : St) (x : WT_REF) :
  lookup_ref r s = Some x →
  hazard_retry (S fuel) r force s =
    let s1 := set_cache_hazard (snapshot (conn_hazard s)) s in
    if hazard_found (ref_page x) (conn_hazard s) then
      if decide (force ≠ 0) then hazard_retry fuel r force (yield_st s1)
      else Ret 1 (store_ref r (with_state WT_REF_MEM x) s1)
    else Ret 0 s1.
Proof.
  intros Hx. cbn [hazard_retry]. unfold bind at 1. unfold __hazard_copy, modify_st.
  unfold bind at 1. rewrite (get_ref_run r _ x) by by rewrite lookup_ref_set_cache_hazard.
  unfold bind at 1, get. cbn [cache_hazard set_cache_hazard].
  unfold hazard_found. destruct (bsearch _ _ _ _); [|done].
  destruct (decide (force ≠ 0)).
  - unfold bind, __wt_yield, modify_st. done.
  - unfold bind. rewrite (set_ref_state_run r _ _ x) by by rewrite lookup_ref_set_cache_hazard.
    done.
Qed.

Lemma hazard_retry_forced (fuel : nat) (r : ref_ptr) (force : Z) (s : St)
    (x : WT_REF) (e : Z) (s' : St) :
  force ≠ 0 → lookup_ref r s = Some x →
  hazard_retry fuel r force s = Ret e s' →
  e = 0 ∧ lookup_ref r s' = Some x ∧
  hazard_found (ref_page x) (conn_hazard s') = false ∧
  cache_hazard s' = snapshot (conn_hazard s').
Proof.
  intros Hf. revert s. induction fuel as [|fuel IH]; intros s Hx; [done|].
  rewrite (hazard_retry_S _ _ _ _ x Hx). cbn zeta.
  destruct (hazard_found (ref_page x) (conn_hazard s)) eqn:Hfound.
  - destruct (decide (force ≠ 0)); [|done]. apply IH.
    by rewrite lookup_ref_yield_st, lookup_ref_set_cache_hazard.
  - intros [= <- <-]. by rewrite lookup_ref_set_cache_hazard.
Qed.

Lemma hazard_retry_progress (k fuel : nat) (r : ref_ptr) (force : Z) (s : St)
    (x : WT_REF) :
  force ≠ 0 → lookup_ref r s = Some x → (k < fuel)%nat →
  (∀ j, (j < k)%nat →
     hazard_found (ref_page x) (table_after (conn_hazard s) (readers s) j) = true) →
  hazard_found (ref_page x) (table_after (conn_hazard s) (readers s) k) = false →
  ∃ s', hazard_retry fuel r force s = Ret 0 s' ∧
        lookup_ref r s' = Some x ∧
        conn_hazard s' = table_after (conn_hazard s) (readers s) k.
Proof.
  intros Hf. revert fuel s. induction k as [|k IH]; intros fuel s Hx Hlt Hbusy Hfree.
  - destruct fuel as [|fuel]; [lia|]. rewrite (hazard_retry_S _ _ _ _ x Hx). cbn zeta.
    simpl in Hfree. rewrite Hfree. eexists; split; [done|].
    by rewrite lookup_ref_set_cache_hazard.
  - destruct fuel as [|fuel]; [lia|]. rewrite (hazard_retry_S _ _ _ _ x Hx). cbn zeta.
    pose proof (Hbusy 0%nat ltac:(lia)) as H0. simpl in H0. rewrite H0.
    destruct (decide (force ≠ 0)); [|done].
    destruct (readers s) as [|h rs] eqn:Hrs.
    + (* no reader ever moves: the table stays busy *)
      exfalso. simpl in Hfree. congruence.
    + destruct (IH fuel (yield_st (set_cache_hazard (snapshot (conn_hazard s)) s)))
        as (s' & Hrun & Hr & Hc).
      * by rewrite lookup_ref_yield_st, lookup_ref_set_cache_hazard.
      * lia.
      * intros j Hj. specialize (Hbusy (S j) ltac:(lia)).
        unfold yield_st; simpl; rewrite Hrs; simpl. exact Hbusy.
      * unfold yield_st; simpl; rewrite Hrs; simpl. exact Hfree.
      * exists s'. split; [done|]. split; [done|].
        rewrite Hc. unfold yield_st; simpl; rewrite Hrs; done.
Qed.

(** ** What locking and unlocking leave alone *)

Section slot_laws.

Context {A : Type} `{HasRef A}.
Hypothesis ref_with_ref : ∀ (r : WT_REF) (c : A), ref (with_ref r c) = r.
Hypothesis with_ref_twice :
  ∀ (r r' : WT_REF) (c : A), with_ref r (with_ref r' c) = with_ref r c.

Lemma erase_slot_alter (t : list A) (i : nat) (y : WT_REF) :
  (∀ c, t !! i = Some c → erase_ref y = erase_ref (ref c)) →
  erase_slot <$> alter (with_ref y) i t = erase_slot <$> t.
Proof.
  intros Hy. apply list_eq. intros j.
  rewrite !list_lookup_fmap. destruct (decide (i = j)) as [<-|Hij].
  - rewrite list_lookup_alter_eq. destruct (t !! i) as [c|] eqn:Hc; [|done].
    simpl. f_equal. unfold erase_slot. rewrite ref_with_ref, with_ref_twice.
    f_equal. by apply Hy.
  - by rewrite list_lookup_alter_ne.
Qed.

Lemma erase_slot_lookup (t : list A) (i : nat) :
  erase_ref <$> (ref <$> t !! i) = ref <$> (erase_slot <$> t) !! i.
Proof.
  rewrite list_lookup_fmap. destruct (t !! i); simpl; [|done].
  unfold erase_slot. by rewrite ref_with_ref.
Qed.

End slot_laws.

Lemma erase_page_slot_with_ref (pg : WT_PAGE) (i : nat) (x y : WT_REF) :
  slot_ref pg i = Some x → erase_ref y = erase_ref x →
  erase_page (slot_with_ref y i pg) = erase_page pg.
Proof.
  unfold slot_ref, slot_with_ref, erase_page. intros Hx Hy.
  destruct (u pg) as [|t| |t|] eqn:Hu; cbn [u set_u]; rewrite ?Hu; try done.
  - unfold set_u; cbn [u parent parent_ref modify read_gen flags]. do 2 f_equal.
    apply erase_slot_alter; [done|done|].
    intros c Hc. rewrite Hc in Hx. injection Hx as <-. exact Hy.
  - unfold set_u; cbn [u parent parent_ref modify read_gen flags]. do 2 f_equal.
    apply erase_slot_alter; [done|done|].
    intros c Hc. rewrite Hc in Hx. injection Hx as <-. exact Hy.
Qed.

Lemma erase_store_ref (r : ref_ptr) (s : St) (x y : WT_REF) :
  lookup_ref r s = Some x → erase_ref y = erase_ref x →
  erase (store_ref r y s) = erase s.
Proof.
  destruct r as [|p i]; simpl.
  - intros [= <-] Hy. unfold erase; simpl. by rewrite Hy.
  - destruct (heap s !! p) as [pg|] eqn:Hp; simpl; [|done]. intros Hx Hy.
    unfold erase; simpl. f_equal. rewrite fmap_insert.
    rewrite (erase_page_slot_with_ref pg i x y Hx Hy).
    apply insert_id. by rewrite lookup_fmap, Hp.
Qed.

Lemma erase_set_cache_hazard (h : list ptr) (s : St) :
  erase (set_cache_hazard h s) = erase s.
Proof. done. Qed.

Lemma erase_yield_st (s : St) : erase (yield_st s) = erase s.
Proof. unfold yield_st. by destruct (readers s). Qed.

(** What equal erasures say about pages and references. *)
Lemma erase_heap_lookup (s s' : St) (p : ptr) :
  erase s' = erase s → erase_page <$> heap s' !! p = erase_page <$> heap s !! p.
Proof.
  intros He. rewrite <- !lookup_fmap.
  change (heap (erase s') !! p = heap (erase s) !! p). by rewrite He.
Qed.

Lemma erase_page_u (pg pg' : WT_PAGE) :
  erase_page pg' = erase_page pg →
  match u pg', u pg with
  | u_col_int t', u_col_int t => erase_slot <$> t' = erase_slot <$> t
  | u_row_int t', u_row_int t => erase_slot <$> t' = erase_slot <$> t
  | x', x => x' = x
  end.
Proof.
  intros He. apply (f_equal u) in He. unfold erase_page in He.
  destruct (u pg) eqn:Hu, (u pg') eqn:Hu'; cbn [u set_u] in He;
    rewrite ?Hu, ?Hu' in He; congruence.
Qed.

Lemma erase_page_fields (pg pg' : WT_PAGE) :
  erase_page pg' = erase_page pg →
  flags pg' = flags pg ∧ modify pg' = modify pg ∧ parent_ref pg' = parent_ref pg ∧
  parent pg' = parent pg ∧ read_gen pg' = read_gen pg ∧ type pg' = type pg.
Proof.
  intros He. pose proof (erase_page_u pg pg' He) as Hu.
  assert (Hf : ∀ pg, flags (erase_page pg) = flags pg ∧ modify (erase_page pg) = modify pg ∧
            parent_ref (erase_page pg) = parent_ref pg ∧ parent (erase_page pg) = parent pg ∧
            read_gen (erase_page pg) = read_gen pg).
  { intros q. unfold erase_page. by destruct (u q). }
  destruct (Hf pg) as (<- & <- & <- & <- & <-), (Hf pg') as (<- & <- & <- & <- & <-).
  rewrite He. repeat split. unfold type.
  destruct (u pg), (u pg'); congruence.
Qed.

Lemma erase_get_page (s s' : St) (p : ptr) (pg : WT_PAGE) :
  erase s' = erase s → heap s !! p = Some pg →
  ∃ pg', heap s' !! p = Some pg' ∧ erase_page pg' = erase_page pg.
Proof.
  intros He Hp. pose proof (erase_heap_lookup s s' p He) as H.
  rewrite Hp in H. destruct (heap s' !! p) as [pg'|]; simpl in H; [|done].
  exists pg'. split; [done|]. congruence.
Qed.

Lemma erase_page_slot_ref (pg pg' : WT_PAGE) (i : nat) :
  erase_page pg' = erase_page pg →
  erase_ref <$> slot_ref pg' i = erase_ref <$> slot_ref pg i.
Proof.
  intros He. apply erase_page_u in He. unfold slot_ref.
  destruct (u pg) eqn:Hu, (u pg') eqn:Hu'; try done.
  - rewrite !erase_slot_lookup by done. by rewrite He.
  - rewrite !erase_slot_lookup by done. by rewrite He.
Qed.

Lemma erase_lookup_ref (s s' : St) (r : ref_ptr) :
  erase s' = erase s →
  erase_ref <$> lookup_ref r s' = erase_ref <$> lookup_ref r s.
Proof.
  intros He. destruct r as [|p i]; simpl.
  - f_equal. change (root_page (erase s') = root_page (erase s)). by rewrite He.
  - pose proof (erase_heap_lookup s s' p He) as H.
    destruct (heap s !! p) as [pg|], (heap s' !! p) as [pg'|]; simpl in *; try done.
    apply erase_page_slot_ref. congruence.
Qed.

(** The frame rules of the monad. *)
Lemma frames_ret {A : Type} (a : A) : frames (ret a).
Proof. by intros s a' s' [= <- <-]. Qed.

Lemma frames_bind {A B : Type} (m : M A) (k : A → M B) :
  frames m → (∀ a, frames (k a)) → frames (bind m k).
Proof.
  intros Hm Hk s b s'. unfold bind. destruct (m s) as [a s1| |] eqn:Hms; [|done..].
  intros Hks. rewrite (Hk a s1 b s' Hks). by apply (Hm s a s1).
Qed.

Lemma frames_get_page (p : ptr) : frames (get_page p).
Proof. intros s a s'. unfold get_page. destruct (heap s !! p); by intros [= <- <-]. Qed.

Lemma frames_get : frames get.
Proof. by intros s a s' [= <- <-]. Qed.

Lemma frames_get_ref (r : ref_ptr) : frames (get_ref r).
Proof. intros s a s'. unfold get_ref. destruct (lookup_ref r s); by intros [= <- <-]. Qed.

Lemma frames_set_ref_state (r : ref_ptr) (st : wt_state) : frames (set_ref_state r st).
Proof.
  intros s a s'. destruct (lookup_ref r s) as [x|] eqn:Hx.
  - rewrite (set_ref_state_run r st s x Hx). intros [= <- <-].
    by apply (erase_store_ref r s x).
  - unfold set_ref_state, bind, get_ref. by rewrite Hx.
Qed.

Lemma frames_page_type_of (p : ptr) : frames (page_type_of p).
Proof. apply frames_bind; [apply frames_get_page | intros; apply frames_ret]. Qed.

Lemma frames_get_row_slot (p : ptr) (i : nat) : frames (get_row_slot p i).
Proof.
  apply frames_bind; [apply frames_get_page|]. intros pg.
  destruct (u pg); try done. destruct (_ !! _); [apply frames_ret | done].
Qed.

Lemma frames_get_col_slot (p : ptr) (i : nat) : frames (get_col_slot p i).
Proof.
  apply frames_bind; [apply frames_get_page|]. intros pg.
  destruct (u pg); try done. destruct (_ !! _); [apply frames_ret | done].
Qed.

Lemma frames_row_slots (p : ptr) : frames (row_slots p).
Proof.
  apply frames_bind; [apply frames_get_page|]. intros pg.
  destruct (u pg); try done. apply frames_ret.
Qed.

Lemma frames_col_slots (p : ptr) : frames (col_slots p).
Proof.
  apply frames_bind; [apply frames_get_page|]. intros pg.
  destruct (u pg); try done. apply frames_ret.
Qed.

Lemma frames_foreach {A B : Type} (body : nat → A → M (step A B))
    (idx : list nat) (a : A) :
  (∀ i a, frames (body i a)) → frames (foreach body idx a).
Proof.
  intros Hb. revert a. induction idx as [|i idx IH]; intros a; simpl.
  - apply frames_ret.
  - apply frames_bind; [apply Hb|]. intros [a'|b]; [apply IH | apply frames_ret].
Qed.

Lemma frames_hazard_retry (fuel : nat) (r : ref_ptr) (force : Z) :
  frames (hazard_retry fuel r force).
Proof.
  induction fuel as [|fuel IH]; [done|]. simpl.
  apply frames_bind; [by intros s a s' [= <- <-]|]. intros _.
  apply frames_bind; [apply frames_get_ref|]. intros x.
  apply frames_bind; [apply frames_get|]. intros s0.
  destruct (bsearch _ _ _ _); [|apply frames_ret].
  destruct (decide _).
  - apply frames_bind; [|done]. intros s a s' [= <- <-]. apply erase_yield_st.
  - apply frames_bind; [apply frames_set_ref_state | intros; apply frames_ret].
Qed.

Lemma frames_hazard_exclusive (fuel : nat) (r : ref_ptr) (force : Z) :
  frames (__hazard_exclusive fuel r force).
Proof.
  apply frames_bind; [apply frames_set_ref_state | intros; apply frames_hazard_retry].
Qed.

Create HintDb frames discriminated.
#[local] Hint Resolve frames_ret frames_get_page frames_get frames_get_ref
  frames_set_ref_state frames_page_type_of frames_get_row_slot
  frames_get_col_slot frames_row_slots frames_col_slots
  frames_hazard_exclusive : frames.

Ltac frames_step :=
  match goal with
  | |- frames (bind _ _) => apply frames_bind; [|intros ?]
  | |- frames (if ?c then _ else _) => destruct c
  | |- frames (match ?x with _ => _ end) => destruct x
  | |- frames (foreach _ _ _) => apply frames_foreach; intros ? ?
  | |- frames _ => solve [auto with frames]
  end.

Lemma frames_rec_sub_excl_page (fuel : nat) (r : ref_ptr) (page : ptr) (fl : Z) :
  frames (__rec_sub_excl_page fuel r page fl).
Proof. unfold __rec_sub_excl_page. repeat frames_step. Qed.

#[local] Hint Resolve frames_rec_sub_excl_page : frames.

Lemma frames_rec_sub_excl_row (fuel : nat) (parent last : ptr) (fl : Z) :
  frames (__rec_sub_excl_row fuel parent last fl).
Proof.
  revert parent last. induction fuel as [|fuel IH]; intros parent last; [done|].
  cbn [__rec_sub_excl_row]. unfold excl_row_body. repeat frames_step.
Qed.

Lemma frames_rec_sub_excl_col (fuel : nat) (parent last : ptr) (fl : Z) :
  frames (__rec_sub_excl_col fuel parent last fl).
Proof.
  revert parent last. induction fuel as [|fuel IH]; intros parent last; [done|].
  cbn [__rec_sub_excl_col]. unfold excl_col_body. repeat frames_step.
Qed.

Lemma frames_rec_sub_excl_row_clear (fuel : nat) (parent last : ptr) :
  frames (__rec_sub_excl_row_clear fuel parent last).
Proof.
  revert parent. induction fuel as [|fuel IH]; intros parent; [done|].
  cbn [__rec_sub_excl_row_clear]. unfold excl_row_clear_body. repeat frames_step.
Qed.

Lemma frames_rec_sub_excl_col_clear (fuel : nat) (parent last : ptr) :
  frames (__rec_sub_excl_col_clear fuel parent last).
Proof.
  revert parent. induction fuel as [|fuel IH]; intros parent; [done|].
  cbn [__rec_sub_excl_col_clear]. unfold excl_col_clear_body. repeat frames_step.
Qed.

#[local] Hint Resolve frames_rec_sub_excl_row frames_rec_sub_excl_col
  frames_rec_sub_excl_row_clear frames_rec_sub_excl_col_clear : frames.

Lemma frames_rec_sub_excl_clear (fuel : nat) (page last : ptr) (fl : Z) :
  frames (__rec_sub_excl_clear fuel page last fl).
Proof. unfold __rec_sub_excl_clear. repeat frames_step. Qed.

#[local] Hint Resolve frames_rec_sub_excl_clear : frames.

Lemma frames_rec_review (fuel : nat) (page : ptr) (fl : Z) :
  frames (__rec_review fuel page fl).
Proof. unfold __rec_review. repeat frames_step. Qed.

(** C3.  For a reference in state MEM or LOCKED, [__hazard_exclusive] without
    [force] returns 0 with the reference LOCKED exactly when the page is not
    found in the fresh hazard snapshot, and returns 1 with the reference back
    in MEM when it is found.  With [force] it never returns 1: whenever it
    returns, it returns 0 with the reference LOCKED and the page absent from
    the last snapshot; and it does return, after [k] yields, as soon as the
    page is absent from the hazard array the readers leave at the [k]-th yield
    (the loop bound being larger than [k]).  By [hazard_found_spec], found
    means that the page address is one of the non-null hazard entries. *)
Theorem hazard_exclusive_spec (r : ref_ptr) (x : WT_REF) (s : St) :
  lookup_ref r s = Some x →
  ref_state x = WT_REF_MEM ∨ ref_state x = WT_REF_LOCKED →
  (∀ fuel, ∃ s',
      __hazard_exclusive (S fuel) r 0 s =
        Ret (if hazard_found (ref_page x) (conn_hazard s) then 1 else 0) s' ∧
      lookup_ref r s' =
        Some (with_state (if hazard_found (ref_page x) (conn_hazard s)
                          then WT_REF_MEM else WT_REF_LOCKED) x) ∧
      cache_hazard s' = snapshot (conn_hazard s)) ∧
  (∀ force, force ≠ 0 →
     (∀ fuel e s', __hazard_exclusive fuel r force s = Ret e s' →
        e = 0 ∧ lookup_ref r s' = Some (with_state WT_REF_LOCKED x) ∧
        hazard_found (ref_page x) (conn_hazard s') = false ∧
        cache_hazard s' = snapshot (conn_hazard s')) ∧
     (∀ k fuel, (k < fuel)%nat →
        (∀ j, (j < k)%nat →
           hazard_found (ref_page x) (table_after (conn_hazard s) (readers s) j) = true) →
        hazard_found (ref_page x) (table_after (conn_hazard s) (readers s) k) = false →
        ∃ s', __hazard_exclusive fuel r force s = Ret 0 s' ∧
              lookup_ref r s' = Some (with_state WT_REF_LOCKED x) ∧
              conn_hazard s' = table_after (conn_hazard s) (readers s) k)).
Proof.
  intros Hx _.
  assert (Hl : lookup_ref r (store_ref r (with_state WT_REF_LOCKED x) s)
               = Some (with_state WT_REF_LOCKED x)) by by eapply lookup_store_ref.
  assert (Hc : ∀ y, conn_hazard (store_ref r y s) = conn_hazard s)
    by (intros; apply store_ref_env).
  assert (Hr : ∀ y, readers (store_ref r y s) = readers s)
    by (intros; apply store_ref_env).
  assert (Hrun : ∀ fuel force, __hazard_exclusive fuel r force s =
            hazard_retry fuel r force (store_ref r (with_state WT_REF_LOCKED x) s)).
  { intros. unfold __hazard_exclusive, bind. by rewrite (set_ref_state_run r _ s x Hx). }
  split.
  - intros fuel. rewrite Hrun, (hazard_retry_S _ _ _ _ _ Hl). cbn zeta.
    rewrite Hc. cbn [ref_page with_state].
    destruct (hazard_found (ref_page x) (conn_hazard s)).
    + destruct (decide (0 ≠ 0)); [done|]. eexists. split; [done|]. split.
      * erewrite lookup_store_ref; [done|]. by rewrite lookup_ref_set_cache_hazard.
      * by rewrite (proj1 (proj2 (store_ref_env _ _ _))).
    + eexists. split; [done|]. by rewrite lookup_ref_set_cache_hazard.
  - intros force Hf. split.
    + intros fuel e s'. rewrite Hrun. intros Hret.
      by apply (hazard_retry_forced _ _ _ _ _ _ _ Hf Hl) in Hret.
    + intros k fuel Hk Hbusy Hfree. rewrite Hrun.
      destruct (hazard_retry_progress k fuel r force _ _ Hf Hl Hk) as (s' & ? & ? & Hs').
      * by rewrite Hc, Hr.
      * by rewrite Hc, Hr.
      * exists s'. rewrite Hc, Hr in Hs'. done.
Qed.

Lemma F_ISSET_lor (pg : WT_PAGE) (a b : Z) :
  F_ISSET pg (Z.lor a b) = 0 ↔ F_ISSET pg a = 0 ∧ F_ISSET pg b = 0.
Proof. unfold F_ISSET. by rewrite Z.land_lor_distr_r, Z.lor_eq_0_iff. Qed.

(** C4.  For a child in memory examined by [__rec_sub_excl_page]: when its
    flags include none of REC_EMPTY, REC_SPLIT, REC_SPLIT_MERGE the result is
    1 and the state is untouched (no lock is taken).  Otherwise, once the lock
    step has succeeded (exclusive access granted, or none needed under
    WT_REC_SINGLE), a child with REC_SPLIT_MERGE is accepted whether clean or
    dirty, and a child without it, with REC_SPLIT or REC_EMPTY, is accepted
    iff it is not modified: a dirty one is rejected with 1. *)
Theorem rec_sub_excl_page_spec (fuel : nat) (r : ref_ptr) (page : ptr)
    (fl : Z) (s : St) (pg : WT_PAGE) :
  heap s !! page = Some pg →
  (F_ISSET pg WT_PAGE_REC_EMPTY = 0 → F_ISSET pg WT_PAGE_REC_SPLIT = 0 →
   F_ISSET pg WT_PAGE_REC_SPLIT_MERGE = 0 →
   __rec_sub_excl_page fuel r page fl s = Ret 1 s) ∧
  (∀ s1,
     (if decide (LF_ISSET fl WT_REC_SINGLE = 0)
      then __hazard_exclusive fuel r (wait_of fl) else ret 0) s = Ret 0 s1 →
     (F_ISSET pg WT_PAGE_REC_SPLIT_MERGE ≠ 0 →
      __rec_sub_excl_page fuel r page fl s = Ret 0 s1) ∧
     (F_ISSET pg WT_PAGE_REC_SPLIT_MERGE = 0 →
      F_ISSET pg WT_PAGE_REC_SPLIT ≠ 0 ∨ F_ISSET pg WT_PAGE_REC_EMPTY ≠ 0 →
      __rec_sub_excl_page fuel r page fl s =
        Ret (if __wt_page_is_modified pg then 1 else 0) s1)).
Proof.
  intros Hp.
  assert (Hget : get_page page s = Ret pg s) by (unfold get_page; by rewrite Hp).
  split.
  - intros He Hs Hm. unfold __rec_sub_excl_page, bind. rewrite Hget.
    destruct (decide _) as [|Hne]; [done|]. exfalso. apply Hne.
    rewrite !F_ISSET_lor. done.
  - intros s1 Hlock.
    assert (Hfr : erase s1 = erase s).
    { destruct (decide _); [by eapply frames_hazard_exclusive | by injection Hlock as <-]. }
    destruct (erase_get_page s s1 page pg Hfr Hp) as (pg1 & Hp1 & Hpg1).
    apply erase_page_fields in Hpg1 as (Hflags & Hmod & _).
    assert (Hget1 : get_page page s1 = Ret pg1 s1) by (unfold get_page; by rewrite Hp1).
    assert (HF : ∀ m, F_ISSET pg1 m = F_ISSET pg m) by (intros; unfold F_ISSET; by rewrite Hflags).
    assert (HM : __wt_page_is_modified pg1 = __wt_page_is_modified pg)
      by (unfold __wt_page_is_modified; by rewrite Hmod).
    split.
    + intros Hm. unfold __rec_sub_excl_page, bind. rewrite Hget.
      destruct (decide (F_ISSET pg _ = 0)) as [H0|_].
      { rewrite !F_ISSET_lor in H0. by destruct H0 as [_ ?]. }
      rewrite Hlock. destruct (decide (0 ≠ 0)); [done|]. rewrite Hget1, HF.
      by destruct (decide (F_ISSET pg WT_PAGE_REC_SPLIT_MERGE ≠ 0)).
    + intros Hm Hse. unfold __rec_sub_excl_page, bind. rewrite Hget.
      destruct (decide (F_ISSET pg _ = 0)) as [H0|_].
      { rewrite !F_ISSET_lor in H0. destruct H0 as [[? ?] _], Hse; done. }
      rewrite Hlock. destruct (decide (0 ≠ 0)); [done|]. rewrite Hget1, !HF, HM.
      destruct (decide (F_ISSET pg WT_PAGE_REC_SPLIT_MERGE ≠ 0)) as [|_]; [done|].
      destruct (decide (F_ISSET pg _ ≠ 0)) as [_|H0].
      * by destruct (__wt_page_is_modified pg).
      * exfalso. apply H0. intros H1. rewrite F_ISSET_lor in H1.
        destruct H1, Hse; done.
Qed.

(** ** Running the monad *)

Lemma bind_Ret {A B : Type} (m : M A) (k : A → M B) (s s' : St) (b : B) :
  bind m k s = Ret b s' ↔ ∃ a s1, m s = Ret a s1 ∧ k a s1 = Ret b s'.
Proof.
  unfold bind. destruct (m s) as [a s1| |]; split; try done.
  - intros H. by exists a, s1.
  - by intros (? & ? & [= <- <-] & ?).
  - by intros (? & ? & ? & ?).
  - by intros (? & ? & ? & ?).
Qed.

Lemma bind_run {A B : Type} (m : M A) (k : A → M B) (s s1 : St) (a : A) :
  m s = Ret a s1 → bind m k s = k a s1.
Proof. unfold bind. by intros ->. Qed.

Lemma get_page_run (page : ptr) (s : St) (pg : WT_PAGE) :
  heap s !! page = Some pg → get_page page s = Ret pg s.
Proof. unfold get_page. by intros ->. Qed.

Lemma get_page_Ret (page : ptr) (s s' : St) (pg : WT_PAGE) :
  get_page page s = Ret pg s' ↔ heap s !! page = Some pg ∧ s' = s.
Proof.
  unfold get_page. destruct (heap s !! page); split; try done.
  - by intros [= -> ->].
  - by intros [[= ->] ->].
  - by intros [? _].
Qed.

Lemma skel_of_erase (s s' : St) : erase s' = erase s → skel s' = skel s.
Proof.
  intros He. unfold skel.
  assert (Hh : skel_page <$> heap s' = skel_page <$> heap s).
  { apply map_eq. intros p. rewrite !lookup_fmap.
    pose proof (erase_heap_lookup s s' p He) as H.
    destruct (heap s !! p), (heap s' !! p); simpl in H |- *; try done.
    injection H as H. unfold skel_page. by rewrite H. }
  rewrite Hh.
  pose proof (f_equal root_page He). pose proof (f_equal cache_read_gen He).
  pose proof (f_equal setmod_answers He). pose proof (f_equal track_answers He).
  pose proof (f_equal discarded He). simpl in *. congruence.
Qed.

Lemma slot_ref_erase_page (pg : WT_PAGE) (i : nat) :
  slot_ref (erase_page pg) i = erase_ref <$> slot_ref pg i.
Proof.
  unfold slot_ref, erase_page. destruct (u pg) eqn:Hu; cbn [u set_u]; rewrite ?Hu; try done.
  - by rewrite erase_slot_lookup.
  - by rewrite erase_slot_lookup.
Qed.

Lemma lookup_ref_skel (r : ref_ptr) (s : St) :
  lookup_ref r (skel s) = erase_ref <$> lookup_ref r s.
Proof.
  destruct r as [|p i]; simpl; [done|].
  rewrite lookup_fmap. destruct (heap s !! p) as [pg|]; simpl; [|done].
  rewrite <- slot_ref_erase_page. unfold skel_page, slot_ref. done.
Qed.

Lemma skel_lookup_ref (s s' : St) (r : ref_ptr) (x : WT_REF) :
  skel s' = skel s → lookup_ref r s = Some x →
  ∃ x', lookup_ref r s' = Some x' ∧ ref_page x' = ref_page x ∧
        ref_addr x' = ref_addr x ∧ ref_size x' = ref_size x.
Proof.
  intros Hs Hx. pose proof (lookup_ref_skel r s') as H. rewrite Hs, lookup_ref_skel, Hx in H.
  destruct (lookup_ref r s') as [x'|]; simpl in H; [|done].
  exists x'. split; [done|]. injection H. by intros -> -> ->.
Qed.

Lemma skel_get_page (s s' : St) (p : ptr) (pg : WT_PAGE) :
  skel s' = skel s → heap s !! p = Some pg →
  ∃ pg', heap s' !! p = Some pg' ∧ parent_ref pg' = parent_ref pg ∧
         parent pg' = parent pg ∧ type pg' = type pg.
Proof.
  intros Hs Hp. pose proof (f_equal (λ s, heap s !! p) Hs) as H. simpl in H.
  rewrite !lookup_fmap, Hp in H. destruct (heap s' !! p) as [pg'|]; simpl in H; [|done].
  exists pg'. split; [done|]. injection H as H.
  assert (He : erase_page pg' = erase_page (set_flags (flags pg') (set_modify (modify pg') pg))).
  { unfold skel_page in H. unfold erase_page in *. cbn [u set_flags set_modify] in *.
    destruct (u pg') eqn:Hu', (u pg) eqn:Hu; unfold set_u, set_flags, set_modify in *;
      cbn [u parent parent_ref modify read_gen flags] in *; rewrite ?Hu in *;
      simplify_eq; destruct pg'; simpl in *; congruence. }
  apply erase_page_fields in He as (_ & _ & ? & ? & _ & ?). done.
Qed.

Lemma skel_put_page (s : St) (p : ptr) (pg pg' : WT_PAGE) :
  heap s !! p = Some pg → skel_page pg' = skel_page pg →
  skel (set_heap (<[p := pg']> (heap s)) s) = skel s.
Proof.
  intros Hp Hpg. unfold skel; simpl. f_equal.
  rewrite fmap_insert, Hpg. apply insert_id. by rewrite lookup_fmap, Hp.
Qed.

Lemma lookup_ref_put_page (r : ref_ptr) (s : St) (p : ptr) (pg pg' : WT_PAGE) :
  heap s !! p = Some pg → u pg' = u pg →
  lookup_ref r (set_heap (<[p := pg']> (heap s)) s) = lookup_ref r s.
Proof.
  intros Hp Hu. destruct r as [|q i]; simpl; [done|].
  destruct (decide (p = q)) as [<-|Hpq].
  - rewrite lookup_insert_eq, Hp. simpl. unfold slot_ref. by rewrite Hu.
  - by rewrite lookup_insert_ne.
Qed.

(** C7.  For a page whose flags include REC_SPLIT_MERGE, [__wt_rec_evict]
    returns 0 and the final state is the initial one with the page's read
    generation set to the cache's and the parent reference's state set to
    MEM: the parent reference keeps its page, address and size, every other
    reference is as before, no page is discarded, no answer of the reconciler
    or of the other collaborators is consumed, and no hazard snapshot is
    taken. *)
Theorem evict_split_merge_noop (fuel : nat) (page : ptr) (fl : Z) (s : St)
    (pg : WT_PAGE) (x : WT_REF) :
  heap s !! page = Some pg →
  F_ISSET pg WT_PAGE_REC_SPLIT_MERGE ≠ 0 →
  lookup_ref (parent_ref pg) s = Some x →
  let s1 := set_heap (<[page := set_read_gen (cache_read_gen s) pg]> (heap s)) s in
  let s' := store_ref (parent_ref pg) (with_state WT_REF_MEM x) s1 in
  __wt_rec_evict fuel page fl s = Ret 0 s' ∧
  lookup_ref (parent_ref pg) s' =
    Some (MkRef WT_REF_MEM (ref_page x) (ref_addr x) (ref_size x)) ∧
  (∀ r, r ≠ parent_ref pg → lookup_ref r s' = lookup_ref r s) ∧
  (∃ pg', heap s' !! page = Some pg' ∧ read_gen pg' = cache_read_gen s ∧
          flags pg' = flags pg ∧ modify pg' = modify pg) ∧
  (∀ q, q ≠ page → skel_page <$> heap s' !! q = skel_page <$> heap s !! q) ∧
  discarded s' = discarded s ∧ rec_answers s' = rec_answers s ∧
  track_answers s' = track_answers s ∧ setmod_answers s' = setmod_answers s ∧
  conn_hazard s' = conn_hazard s ∧ cache_hazard s' = cache_hazard s ∧
  readers s' = readers s ∧ cache_read_gen s' = cache_read_gen s.
Proof.
  intros Hp Hsm Hx s1 s'.
  assert (Hx1 : ∀ r, lookup_ref r s1 = lookup_ref r s).
  { intros r. by apply (lookup_ref_put_page r s page pg). }
  assert (Hp1 : heap s1 !! page = Some (set_read_gen (cache_read_gen s) pg)).
  { unfold s1; simpl. by rewrite lookup_insert_eq. }
  split; [|split; [|split; [|split; [|split]]]].
  - unfold __wt_rec_evict. rewrite (bind_run _ _ _ _ _ (get_page_run _ _ _ Hp)).
    destruct (decide _); [|done].
    unfold __wt_cache_read_gen, get, ret, bind at 1 2.
    rewrite (bind_run _ _ _ _ _ (get_page_run _ _ _ Hp)).
    unfold put_page, modify_st, bind at 1. fold s1.
    rewrite (bind_run _ _ _ _ _ (get_page_run _ _ _ Hp1)).
    cbn [parent_ref set_read_gen].
    unfold bind. rewrite (set_ref_state_run _ _ _ x) by by rewrite Hx1. done.
  - unfold s'. erewrite lookup_store_ref; [done|]. by rewrite Hx1.
  - intros r Hr. unfold s'. rewrite lookup_store_ref_ne by done. apply Hx1.
  - unfold s'. destruct (parent_ref pg) as [|p i]; simpl.
    + rewrite lookup_insert_eq. by eexists.
    + destruct (decide (page = p)) as [<-|Hne].
      * rewrite lookup_insert_eq. simpl. rewrite lookup_insert_eq.
        eexists. split; [done|]. unfold slot_with_ref; simpl. by destruct (u pg).
      * rewrite lookup_insert_ne by done. destruct (heap s !! p); simpl.
        -- rewrite lookup_insert_ne, lookup_insert_eq by done. by eexists.
        -- rewrite lookup_insert_eq. by eexists.
  - intros q Hq.
    assert (He : erase s' = erase s1).
    { apply (erase_store_ref (parent_ref pg) s1 x); [by rewrite Hx1 | done]. }
    pose proof (f_equal (λ s, heap s !! q) (skel_of_erase s1 s' He)) as H.
    simpl in H. rewrite !lookup_fmap in H. rewrite H.
    by rewrite lookup_insert_ne.
  - unfold s'. destruct (parent_ref pg) as [|p i]; simpl; [done|].
    by destruct (<[_:=_]> _ !! p).
Qed.

Lemma surfaced_quiet (s s' : St) (e : Z) :
  rec_answers s' = rec_answers s → track_answers s' = track_answers s →
  setmod_answers s' = setmod_answers s → surfaced s e s'.
Proof. intros Hw Ht Hm. exists [], [], []. rewrite Hw, Ht, Hm. repeat split; by left. Qed.

Lemma surfaced_trans (s s1 s' : St) (e : Z) :
  surfaced s 0 s1 → surfaced s1 e s' → surfaced s e s'.
Proof.
  intros (cw & ct & cm & Hw & Ht & Hm & He) (cw' & ct' & cm' & Hw' & Ht' & Hm' & He').
  destruct He as [He|[? _]]; [|done].
  apply app_eq_nil in He as [Hew He]. apply app_eq_nil in He as [Het Hem].
  exists (cw ++ cw'), (ct ++ ct'), (cm ++ cm').
  rewrite Hw, Ht, Hm, Hw', Ht', Hm', <- !(assoc_L (++)). repeat split.
  unfold errors in *. rewrite fmap_app, !filter_app, Hew, Het, Hem. exact He'.
Qed.

Lemma quiet_of_frames {A : Type} (m : M A) : frames m → quiet m.
Proof.
  intros Hf s a s' Hs. apply Hf in Hs.
  pose proof (f_equal rec_answers Hs). pose proof (f_equal track_answers Hs).
  pose proof (f_equal setmod_answers Hs). done.
Qed.

Lemma quiet_ret {A : Type} (a : A) : quiet (ret a).
Proof. by intros s a' s' [= <- <-]. Qed.

Lemma quiet_bind {A B : Type} (m : M A) (k : A → M B) :
  quiet m → (∀ a, quiet (k a)) → quiet (bind m k).
Proof.
  intros Hm Hk s b s' (a & s1 & Hs1 & Hs')%bind_Ret.
  destruct (Hm _ _ _ Hs1) as (Hw & Ht & Hc). destruct (Hk a _ _ _ Hs') as (? & ? & ?).
  repeat split; congruence.
Qed.

Lemma surfaces_quiet {A : Type} (code : A → Z) (m : M A) :
  quiet m → surfaces code m.
Proof. intros Hq s a s' Hs. destruct (Hq _ _ _ Hs) as (? & ? & ?). by apply surfaced_quiet. Qed.

Lemma surfaces_bind_quiet {A B : Type} (code : B → Z) (m : M A) (k : A → M B) :
  quiet m → (∀ a, surfaces code (k a)) → surfaces code (bind m k).
Proof.
  intros Hm Hk s b s' (a & s1 & Hs1 & Hs')%bind_Ret.
  destruct (Hm _ _ _ Hs1) as (? & ? & ?).
  eapply surfaced_trans; [by apply surfaced_quiet | by eapply Hk].
Qed.

(** [e <- call ;; if e ≠ 0 then return e else ...]. *)
Lemma surfaces_bind_check {A B : Type} (codeA : A → Z) (code : B → Z)
    (m : M A) (k : A → M B) :
  surfaces codeA m →
  (∀ a, codeA a = 0 → surfaces code (k a)) →
  (∀ a s b s', codeA a ≠ 0 → k a s = Ret b s' →
     (rec_answers s' = rec_answers s ∧ track_answers s' = track_answers s ∧
      setmod_answers s' = setmod_answers s) ∧ code b = codeA a) →
  surfaces code (bind m k).
Proof.
  intros Hm Hk0 Hk1 s b s' (a & s1 & Hs1 & Hs')%bind_Ret.
  apply Hm in Hs1. destruct (decide (codeA a = 0)) as [H0|H0].
  - rewrite H0 in Hs1. eapply surfaced_trans; [done | by eapply Hk0].
  - destruct (Hk1 _ _ _ _ H0 Hs') as [(Hw & Ht & Hc) ->].
    destruct Hs1 as (cw & ct & cm & ? & ? & ? & ?). exists cw, ct, cm.
    by rewrite Hw, Ht, Hc.
Qed.

Lemma surfaces_foreach {A : Type} (body : nat → A → M (step A Z))
    (idx : list nat) (a : A) :
  (∀ i a, surfaces step_code (body i a)) → surfaces step_code (foreach body idx a).
Proof.
  intros Hb. revert a. induction idx as [|i idx IH]; intros a; simpl.
  - apply surfaces_quiet, quiet_ret.
  - eapply surfaces_bind_check; [apply Hb | |].
    + intros [a'|e] H0; [apply IH | apply surfaces_quiet, quiet_ret].
    + intros [a'|e] s b s' H0; [done|]. by intros [= <- <-].
Qed.

Lemma quiet_modify_st (f : St → St) :
  (∀ s, rec_answers (f s) = rec_answers s ∧ track_answers (f s) = track_answers s ∧
        setmod_answers (f s) = setmod_answers s) →
  quiet (modify_st f).
Proof. intros Hf s a s' [= _ <-]. apply Hf. Qed.

Lemma quiet_put_page (p : ptr) (pg : WT_PAGE) : quiet (put_page p pg).
Proof. by apply quiet_modify_st. Qed.

Lemma quiet_put_ref (r : ref_ptr) (x : WT_REF) : quiet (put_ref r x).
Proof.
  apply quiet_bind; [apply quiet_of_frames, frames_get_ref|]. intros _.
  apply quiet_modify_st. intros s. destruct r as [|p i]; simpl; [done|].
  by destruct (heap s !! p).
Qed.

Lemma quiet_set_ref (r : ref_ptr) (f : WT_REF → WT_REF) :
  quiet (x <- get_ref r ;; put_ref r (f x)).
Proof.
  apply quiet_bind; [apply quiet_of_frames, frames_get_ref|]. intros; apply quiet_put_ref.
Qed.

Lemma quiet_get_page (p : ptr) : quiet (get_page p).
Proof. apply quiet_of_frames, frames_get_page. Qed.

Lemma quiet_get_modify (p : ptr) : quiet (get_modify p).
Proof.
  apply quiet_bind; [apply quiet_get_page|]. intros pg.
  destruct (modify pg); [apply quiet_ret | done].
Qed.

Lemma quiet_F_CLR (p : ptr) (m : Z) : quiet (F_CLR p m).
Proof. apply quiet_bind; [apply quiet_get_page | intros; apply quiet_put_page]. Qed.

Lemma quiet_page_out (p : ptr) : quiet (__wt_page_out p).
Proof. by apply quiet_modify_st. Qed.

Lemma surfaces_track_discard (p : ptr) : surfaces id (__wt_rec_track_discard p).
Proof.
  intros s a s'. unfold __wt_rec_track_discard, bind, get, modify_st, ret.
  destruct (track_answers s) as [|t rest] eqn:Ht; [done|]. intros [= <- <-].
  exists [], [t], []. simpl. rewrite Ht. repeat split.
  unfold errors, id. rewrite filter_cons. destruct (decide (t ≠ 0)); [by right | by left].
Qed.

Lemma surfaces_rec_write (p : ptr) : surfaces id (__wt_rec_write p).
Proof.
  intros s e s'. unfold __wt_rec_write. unfold bind at 1, get.
  destruct (rec_answers s) as [|a rest] eqn:Ha; [done|].
  unfold bind at 1, modify_st. destruct (decide (rec_ret a = 0)) as [H0|H0].
  - intros (pg & s1 & [_ ->]%get_page_Ret & Hs')%bind_Ret.
    unfold bind, put_page, modify_st, ret in Hs'. injection Hs' as <- <-.
    exists [a], [], []. simpl. rewrite Ha. repeat split. left.
    unfold errors. rewrite filter_cons. by destruct (decide _).
  - intros [= <- <-]. exists [a], [], []. simpl. rewrite Ha. repeat split. right.
    split; [done|]. unfold errors, id. rewrite filter_cons. by destruct (decide _).
Qed.

Lemma surfaces_set_modified (p : ptr) : surfaces id (__wt_page_set_modified p).
Proof.
  intros s e s'. unfold __wt_page_set_modified. unfold bind at 1, get.
  destruct (setmod_answers s) as [|a rest] eqn:Ha; [done|].
  unfold bind at 1, modify_st. destruct (decide (a = 0)) as [H0|H0].
  - intros (pg & s1 & [_ ->]%get_page_Ret & Hs')%bind_Ret.
    unfold bind, put_page, modify_st, ret in Hs'. injection Hs' as <- <-.
    exists [], [], [a]. simpl. rewrite Ha. repeat split. left.
    unfold errors. rewrite filter_cons. by destruct (decide _).
  - intros [= <- <-]. exists [], [], [a]. simpl. rewrite Ha. repeat split. right.
    split; [done|]. unfold errors, id. rewrite filter_cons. by destruct (decide _).
Qed.

Create HintDb quiet discriminated.
#[local] Hint Resolve quiet_ret quiet_get_page quiet_get_modify quiet_F_CLR
  quiet_page_out quiet_put_page quiet_set_ref quiet_put_ref : quiet.
#[local] Hint Extern 1 (quiet _) =>
  (apply quiet_of_frames; solve [auto with frames]) : quiet.

Ltac quiet_step :=
  match goal with
  | |- quiet (get_modify _) => apply quiet_get_modify
  | |- quiet (modify_st _) => by apply quiet_modify_st
  | |- quiet (ret _) => apply quiet_ret
  | |- quiet (if ?c then _ else _) => destruct c
  | |- quiet (match ?x with _ => _ end) => destruct x
  | |- quiet _ => solve [auto with quiet]
  | |- quiet (bind _ _) => apply quiet_bind; [|intros ?]
  end.

(** Branch on the control flow; the side conditions of an early return are
    closed by computation. *)
Ltac surfaces_step :=
  match goal with
  | |- surfaces _ (bind (__wt_rec_track_discard _) _) =>
      eapply (surfaces_bind_check id); [apply surfaces_track_discard | intros ? ? | ]
  | |- surfaces _ (if ?c then _ else _) => destruct c
  | |- surfaces _ (match ?x with _ => _ end) => destruct x
  | |- surfaces _ (ret _) => apply surfaces_quiet, quiet_ret
  | |- surfaces _ (foreach _ _ _) => apply surfaces_foreach; intros ? ?
  | |- surfaces _ _ => solve [apply surfaces_quiet; auto with quiet]
  | |- surfaces _ (bind _ _) =>
      apply surfaces_bind_quiet; [solve [auto with quiet] | intros ?]
  end.

Ltac early_return :=
  let a := fresh in let s := fresh in let b := fresh in let s' := fresh in
  let H := fresh in let Hr := fresh in
  intros a s b s' H Hr; simpl in *; unfold id in *;
  repeat match type of Hr with
         | context [decide ?P] => destruct (decide P); try done
         end;
  try (destruct a; try done);
  try (injection Hr as <- <-); try done.

Lemma surfaces_rec_discard_page (p : ptr) : surfaces id (__rec_discard_page p).
Proof.
  unfold __rec_discard_page. apply surfaces_bind_quiet; [auto with quiet|]. intros pg.
  eapply (surfaces_bind_check id).
  - destruct (decide _); [apply surfaces_track_discard | apply surfaces_quiet, quiet_ret].
  - intros e He; unfold id in He; subst e. destruct (decide _); [done|]. repeat surfaces_step.
  - early_return.
Qed.

Lemma surfaces_discard_body {T : Type} `{HasRef T} (get_slot : ptr → nat → M T)
    (ty0 : page_type) (rec : ptr → M Z) (parent : ptr) (i : nat) :
  quiet (get_slot parent i) → (∀ p, surfaces id (rec p)) →
  surfaces step_code
    (c <- get_slot parent i ;;
     if decide (ref_state (ref c) ≠ WT_REF_DISK) then
       let page := ref_page (ref c) in
       ty <- page_type_of page ;;
       e <- (if decide (ty = ty0) then rec page else ret 0) ;;
       if decide (e ≠ 0) then ret (Return e)
       else
         e <- __rec_discard_page page ;;
         if decide (e ≠ 0) then ret (Return e) else ret (Next tt)
     else ret (Next tt)).
Proof.
  intros Hq Hrec. apply surfaces_bind_quiet; [done|]. intros c.
  destruct (decide _); [|surfaces_step]. cbn zeta.
  apply surfaces_bind_quiet; [auto with quiet|]. intros ty.
  eapply (surfaces_bind_check id).
  - destruct (decide _); [apply Hrec | surfaces_step].
  - intros e He; unfold id in He; subst e. destruct (decide _); [done|].
    eapply (surfaces_bind_check id); [apply surfaces_rec_discard_page | |].
    + intros e He; unfold id in He; subst e. destruct (decide _); [done|]. surfaces_step.
    + early_return.
  - early_return.
Qed.

Lemma surfaces_rec_sub_discard_row (fuel : nat) (parent : ptr) :
  surfaces id (__rec_sub_discard_row fuel parent).
Proof.
  revert parent. induction fuel as [|fuel IH]; intros parent; [done|].
  cbn [__rec_sub_discard_row]. apply surfaces_bind_quiet; [auto with quiet|]. intros idx.
  eapply (surfaces_bind_check step_code).
  - apply surfaces_foreach. intros i [].
    apply (surfaces_discard_body get_row_slot WT_PAGE_ROW_INT); [auto with quiet | done].
  - intros [[]|e]; simpl; intros; subst; surfaces_step.
  - early_return.
Qed.

Lemma surfaces_rec_sub_discard_col (fuel : nat) (parent : ptr) :
  surfaces id (__rec_sub_discard_col fuel parent).
Proof.
  revert parent. induction fuel as [|fuel IH]; intros parent; [done|].
  cbn [__rec_sub_discard_col]. apply surfaces_bind_quiet; [auto with quiet|]. intros idx.
  eapply (surfaces_bind_check step_code).
  - apply surfaces_foreach. intros i [].
    apply (surfaces_discard_body get_col_slot WT_PAGE_COL_INT); [auto with quiet | done].
  - intros [[]|e]; simpl; intros; subst; surfaces_step.
  - early_return.
Qed.

Lemma surfaces_rec_sub_discard (fuel : nat) (page : ptr) :
  surfaces id (__rec_sub_discard fuel page).
Proof.
  unfold __rec_sub_discard. apply surfaces_bind_quiet; [auto with quiet|].
  intros []; try surfaces_step;
    [apply surfaces_rec_sub_discard_col | apply surfaces_rec_sub_discard_row].
Qed.

Lemma surfaces_dirty_update_discard (fuel : nat) (page : ptr) :
  surfaces id (dirty_update_discard fuel page).
Proof.
  unfold dirty_update_discard.
  eapply (surfaces_bind_check id); [apply surfaces_rec_sub_discard | |].
  - intros e He; unfold id in He; subst e. destruct (decide _); [done|].
    eapply (surfaces_bind_check id); [apply surfaces_rec_discard_page | |].
    + intros e He; unfold id in He; subst e. destruct (decide _); [done|]. surfaces_step.
    + early_return.
  - early_return.
Qed.

Lemma surfaces_root_split_body (page : ptr) : surfaces step_code (root_split_body page).
Proof.
  unfold root_split_body.
  eapply (surfaces_bind_check id); [apply surfaces_set_modified | | early_return].
  intros e He; unfold id in He; subst e. destruct (decide _); [done|].
  apply surfaces_bind_quiet; [auto with quiet|]. intros _.
  eapply (surfaces_bind_check id); [apply surfaces_rec_write | | early_return].
  intros e He; unfold id in He; subst e. destruct (decide _); [done|].
  apply surfaces_bind_quiet; [auto with quiet|]. intros pg.
  eapply (surfaces_bind_check step_code).
  - apply surfaces_quiet. unfold WT_ILLEGAL_VALUE. repeat quiet_step.
  - intros [next|e]; simpl; intros; subst; [|surfaces_step].
    eapply (surfaces_bind_check id); [apply surfaces_rec_discard_page | |].
    + intros e He; unfold id in He; subst e. destruct (decide _); [done|]. surfaces_step.
    + early_return.
  - early_return.
Qed.

Lemma surfaces_rec_root_split (fuel : nat) (page : ptr) :
  surfaces id (__rec_root_split fuel page).
Proof.
  revert page. induction fuel as [|fuel IH]; intros page; simpl.
  - destruct (decide _); [surfaces_step | done].
  - destruct (decide _); [surfaces_step|].
    eapply (surfaces_bind_check step_code); [apply surfaces_root_split_body | |].
    + intros [next|e]; simpl; intros; subst; [apply IH | surfaces_step].
    + early_return.
Qed.

Lemma quiet_set_ref_state (r : ref_ptr) (st : wt_state) : quiet (set_ref_state r st).
Proof. apply quiet_set_ref. Qed.
Lemma quiet_set_ref_page (r : ref_ptr) (p : ptr) : quiet (set_ref_page r p).
Proof. apply quiet_set_ref. Qed.
Lemma quiet_set_ref_addr (r : ref_ptr) (a : Z) : quiet (set_ref_addr r a).
Proof. apply quiet_set_ref. Qed.
Lemma quiet_set_ref_size (r : ref_ptr) (a : Z) : quiet (set_ref_size r a).
Proof. apply quiet_set_ref. Qed.

#[local] Hint Resolve quiet_set_ref_state quiet_set_ref_page quiet_set_ref_addr
  quiet_set_ref_size : quiet.
#[local] Hint Resolve frames_rec_review : frames.

(** [e <- call ;; if e ≠ 0 then ret e else ...] for a call whose errors
    surface by lemma [L]. *)
Ltac surfaces_check L :=
  eapply (surfaces_bind_check id);
  [apply L
  | let e := fresh "e" in let He := fresh "He" in
    intros e He; unfold id in He; subst e; destruct (decide (0 ≠ 0)); [done|]
  | early_return].

Lemma surfaces_rec_parent_clean_update (page : ptr) :
  surfaces id (__rec_parent_clean_update page).
Proof.
  unfold __rec_parent_clean_update. do 4 surfaces_step. apply surfaces_rec_discard_page.
Qed.

Lemma surfaces_rec_parent_dirty_update (fuel : nat) (page : ptr) (fl : Z) :
  surfaces id (__rec_parent_dirty_update fuel page fl).
Proof.
  unfold __rec_parent_dirty_update, WT_ILLEGAL_VALUE. surfaces_step. cbn zeta.
  repeat first
    [ apply surfaces_dirty_update_discard
    | surfaces_check surfaces_rec_root_split
    | surfaces_step ].
Qed.

Lemma surfaces_evict_update (fuel : nat) (page : ptr) (fl : Z) :
  surfaces id (evict_update fuel page fl).
Proof.
  unfold evict_update. do 2 surfaces_step.
  - surfaces_check surfaces_rec_parent_clean_update. surfaces_step.
  - surfaces_check surfaces_rec_parent_dirty_update. surfaces_step.
Qed.

Lemma surfaces_wt_rec_evict (fuel : nat) (page : ptr) (fl : Z) :
  surfaces id (__wt_rec_evict fuel page fl).
Proof.
  unfold __wt_rec_evict. do 2 surfaces_step.
  - apply surfaces_quiet. unfold __wt_cache_read_gen. repeat quiet_step.
  - apply surfaces_bind_quiet.
    { unfold __wt_evict_force_clear. repeat quiet_step. }
    intros fl'. apply surfaces_bind_quiet; [auto with quiet|]. intros e.
    destruct (decide _); [surfaces_step|].
    surfaces_step.
    eapply (surfaces_bind_check id).
    + destruct (__wt_page_is_modified _); [apply surfaces_rec_write | surfaces_step].
    + intros e' He; unfold id in He; subst e'. destruct (decide (0 ≠ 0)); [done|].
      apply surfaces_evict_update.
    + intros e' s b s' He'. unfold id in He'. destruct (decide _); [|done].
      intros (? & ? & Hc & [= <- <-])%bind_Ret. split; [|done].
      eapply quiet_of_frames; [apply frames_rec_sub_excl_clear | exact Hc].
Qed.

(** ** Flag arithmetic *)

Lemma mask_after_force_clear (f : Z) :
  Z.land (Z.ldiff f WT_PAGE_FORCE_EVICT) WT_PAGE_REC_MASK = Z.land f WT_PAGE_REC_MASK.
Proof. by rewrite Z.ldiff_land, <- Z.land_assoc. Qed.

Lemma split_merge_after_force_clear (f : Z) :
  Z.land (Z.ldiff f WT_PAGE_FORCE_EVICT) WT_PAGE_REC_SPLIT_MERGE =
  Z.land f WT_PAGE_REC_SPLIT_MERGE.
Proof. by rewrite Z.ldiff_land, <- Z.land_assoc. Qed.

Lemma mask_after_write (f rf : Z) :
  Z.land (Z.lor (Z.ldiff f WT_PAGE_REC_MASK) (Z.land rf WT_PAGE_REC_MASK))
         WT_PAGE_REC_MASK = Z.land rf WT_PAGE_REC_MASK.
Proof.
  rewrite Z.land_lor_distr_l, Z.ldiff_land, <- !Z.land_assoc.
  rewrite (Z.land_comm (Z.lnot _)), Z.land_lnot_diag, Z.land_0_r, Z.land_diag.
  apply Z.lor_0_l.
Qed.

Lemma mask_after_clear (f : Z) :
  Z.land (Z.ldiff f WT_PAGE_REC_MASK) WT_PAGE_REC_MASK = 0.
Proof.
  rewrite Z.ldiff_land, <- !Z.land_assoc.
  by rewrite (Z.land_comm (Z.lnot _)), Z.land_lnot_diag, Z.land_0_r.
Qed.

Lemma skel_page_same (pg pg' : WT_PAGE) :
  u pg' = u pg → parent pg' = parent pg → parent_ref pg' = parent_ref pg →
  read_gen pg' = read_gen pg → skel_page pg' = skel_page pg.
Proof.
  intros Hu Hp Hr Hg. unfold skel_page, erase_page. rewrite Hu.
  destruct (u pg) eqn:E; unfold set_flags, set_modify, set_u; simpl; congruence.
Qed.

Lemma rec_write_run (page : ptr) (s : St) (pg : WT_PAGE) (a : rec_answer)
    (rest : list rec_answer) :
  heap s !! page = Some pg → rec_answers s = a :: rest →
  __wt_rec_write page s =
    if decide (rec_ret a = 0)
    then Ret 0 (set_heap (<[page := written a pg]> (heap s)) (set_rec_answers rest s))
    else Ret (rec_ret a) (set_rec_answers rest s).
Proof.
  intros Hp Ha. unfold __wt_rec_write, bind at 1, get. rewrite Ha.
  unfold bind at 1, modify_st. destruct (decide _); [|done].
  rewrite (bind_run _ _ _ _ pg) by (apply get_page_run; exact Hp). done.
Qed.

Lemma evict_cases (fuel : nat) (page : ptr) (fl : Z) (s : St) (pg : WT_PAGE)
    (e : Z) (s' : St) :
  heap s !! page = Some pg →
  F_ISSET pg WT_PAGE_REC_SPLIT_MERGE = 0 →
  __wt_rec_evict fuel page fl s = Ret e s' →
  ∃ s1 pg1,
    skel s1 = skel s ∧ rec_answers s1 = rec_answers s ∧
    heap s1 !! page = Some pg1 ∧ modify pg1 = modify pg ∧
    parent_ref pg1 = parent_ref pg ∧
    F_ISSET pg1 WT_PAGE_REC_MASK = F_ISSET pg WT_PAGE_REC_MASK ∧
    ((e ≠ 0 ∧ s' = s1) ∨
     (__wt_page_is_modified pg = false ∧
      evict_update fuel page (evict_flags pg fl) s1 = Ret e s') ∨
     (__wt_page_is_modified pg = true ∧ ∃ a rest,
        rec_answers s = a :: rest ∧
        ((rec_ret a ≠ 0 ∧ e = rec_ret a ∧
          __rec_sub_excl_clear fuel page NULL (evict_flags pg fl)
            (set_rec_answers rest s1) = Ret tt s') ∨
         (rec_ret a = 0 ∧
          evict_update fuel page (evict_flags pg fl)
            (set_heap (<[page := written a pg1]> (heap s1))
                      (set_rec_answers rest s1)) = Ret e s')))).
Proof.
  intros Hp Hsm. unfold __wt_rec_evict.
  rewrite (bind_run _ _ _ _ pg) by (by apply get_page_run).
  destruct (decide _); [done|].
  intros (fl' & s0 & Hs0 & (e1 & s1 & Hrev & Hrest)%bind_Ret)%bind_Ret.
  assert (∃ pg0, fl' = evict_flags pg fl ∧ skel s0 = skel s ∧
            rec_answers s0 = rec_answers s ∧ heap s0 !! page = Some pg0 ∧
            modify pg0 = modify pg ∧ parent_ref pg0 = parent_ref pg ∧
            F_ISSET pg0 WT_PAGE_REC_MASK = F_ISSET pg WT_PAGE_REC_MASK)
    as (pg0 & -> & Hsk0 & Hans0 & Hp0 & Hm0 & Hr0 & Hf0).
  { revert Hs0. unfold evict_flags.
    destruct (decide (F_ISSET pg WT_PAGE_FORCE_EVICT ≠ 0)); intros Hs0.
    - unfold __wt_evict_force_clear, F_CLR, bind in Hs0.
      rewrite (get_page_run _ _ _ Hp) in Hs0. injection Hs0 as <- <-. eexists. split; [done|]. split; [|split; [done|split]].
      + by apply (skel_put_page s page pg); [|apply skel_page_same].
      + simpl. by rewrite lookup_insert_eq.
      + repeat split. unfold F_ISSET; simpl. apply mask_after_force_clear.
    - injection Hs0 as <- <-. by exists pg. }
  pose proof (frames_rec_review _ _ _ _ _ _ Hrev) as Hfr.
  destruct (erase_get_page s0 s1 page pg0 Hfr Hp0) as (pg1 & Hp1 & Hpg1).
  apply erase_page_fields in Hpg1 as (Hflags & Hmod & Hpref & _).
  exists s1, pg1. split; [by rewrite (skel_of_erase _ _ Hfr)|].
  split; [by rewrite (f_equal rec_answers Hfr : rec_answers s1 = rec_answers s0)|].
  split; [done|]. split; [congruence|]. split; [congruence|].
  split; [unfold F_ISSET in *; rewrite Hflags; exact Hf0|].
  destruct (decide (e1 ≠ 0)) as [He1|He1].
  { left. by injection Hrest as <- <-. }
  right. rewrite (bind_run _ _ _ _ pg1) in Hrest by (by apply get_page_run).
  assert (Hdirty : __wt_page_is_modified pg1 = __wt_page_is_modified pg).
  { unfold __wt_page_is_modified. by rewrite Hmod, Hm0. }
  rewrite Hdirty in Hrest. destruct (__wt_page_is_modified pg).
  - right. split; [done|].
    apply bind_Ret in Hrest as (e2 & s2 & Hw & Hrest).
    destruct (rec_answers s1) as [|a rest] eqn:Ha.
    { unfold __wt_rec_write, bind, get in Hw. by rewrite Ha in Hw. }
    exists a, rest. split.
    { rewrite <- Hans0. rewrite <- (f_equal rec_answers Hfr : rec_answers s1 = rec_answers s0).
      done. }
    rewrite (rec_write_run page s1 pg1 a rest Hp1 Ha) in Hw.
    destruct (decide (rec_ret a = 0)) as [H0|H0].
    + right. injection Hw as <- <-. destruct (decide (0 ≠ 0)); [done|].
      split; [exact H0 | exact Hrest].
    + left. injection Hw as <- <-. destruct (decide (rec_ret a ≠ 0)); [|done].
      apply bind_Ret in Hrest as ([] & s3 & Hc & [= <- <-]).
      split; [exact H0 | split; [reflexivity | exact Hc]].
  - left. split; [done|]. unfold bind at 1, ret in Hrest.
    destruct (decide (0 ≠ 0)); [done | exact Hrest].
Qed.

Lemma store_ref_heap_outside (r : ref_ptr) (y : WT_REF) (s : St) (page : ptr) :
  outside r page → heap (store_ref r y s) !! page = heap s !! page.
Proof.
  intros Ho. destruct r as [|p i]; simpl; [done|].
  destruct (heap s !! p) eqn:Hp; simpl; [|done].
  rewrite lookup_insert_ne; [done|]. intros ->. by apply (Ho i).
Qed.

Lemma store_ref_answers (r : ref_ptr) (y : WT_REF) (s : St) :
  rec_answers (store_ref r y s) = rec_answers s ∧
  track_answers (store_ref r y s) = track_answers s ∧
  setmod_answers (store_ref r y s) = setmod_answers s ∧
  discarded (store_ref r y s) = discarded s.
Proof. destruct r as [|p i]; simpl; [done|]. by destruct (heap s !! p). Qed.

Lemma lookup_ref_free_page (r : ref_ptr) (page : ptr) (s : St) :
  outside r page → lookup_ref r (free_page page s) = lookup_ref r s.
Proof.
  intros Ho. destruct r as [|p i]; simpl; [done|].
  rewrite lookup_delete_ne; [done|]. intros ->. by apply (Ho i).
Qed.

Lemma lookup_ref_set_answers (r : ref_ptr) (s : St) (l : list Z) :
  lookup_ref r (set_track_answers l s) = lookup_ref r s.
Proof. by destruct r. Qed.

Lemma set_ref_page_run (r : ref_ptr) (p : ptr) (s : St) (x : WT_REF) :
  lookup_ref r s = Some x →
  set_ref_page r p s = Ret tt (store_ref r (with_page p x) s).
Proof.
  intros Hx. unfold set_ref_page, put_ref, bind, modify_st.
  by rewrite !(get_ref_run r s x).
Qed.

(** What [__rec_discard_page] does to a page in memory. *)
Lemma rec_discard_page_run (page : ptr) (s : St) (pg : WT_PAGE) (e : Z) (s' : St) :
  heap s !! page = Some pg →
  __rec_discard_page page s = Ret e s' →
  (e = 0 ∧ s' = free_page page
                  (if decide (modify pg ≠ None)
                   then set_track_answers (tail (track_answers s)) s else s) ∧
   (modify pg ≠ None → ∃ rest, track_answers s = 0 :: rest)) ∨
  (e ≠ 0 ∧ modify pg ≠ None ∧ ∃ rest, track_answers s = e :: rest ∧
   s' = set_track_answers rest s).
Proof.
  intros Hp. unfold __rec_discard_page.
  rewrite (bind_run _ _ _ _ pg) by (by apply get_page_run).
  destruct (decide (modify pg ≠ None)) as [Hm|Hm].
  - unfold __wt_rec_track_discard, bind at 1 2, get.
    destruct (track_answers s) as [|t rest] eqn:Ht; [done|].
    unfold bind at 1, modify_st, ret. destruct (decide (t ≠ 0)) as [Hn|Hn].
    + intros [= <- <-]. right. split; [done|]. split; [done|]. by exists rest.
    + assert (t = 0) as -> by lia. intros [= <- <-]. left. split; [done|].
      split; [done|]. intros _. by exists rest.
  - unfold bind at 1, ret. destruct (decide (0 ≠ 0)); [done|].
    intros [= <- <-]. left. done.
Qed.

(** What [__rec_parent_clean_update] does. *)
Lemma rec_parent_clean_update_run (page : ptr) (s : St) (pg : WT_PAGE)
    (x : WT_REF) (e : Z) (s' : St) :
  heap s !! page = Some pg →
  lookup_ref (parent_ref pg) s = Some x →
  outside (parent_ref pg) page →
  __rec_parent_clean_update page s = Ret e s' →
  lookup_ref (parent_ref pg) s' =
    Some (MkRef WT_REF_DISK NULL (ref_addr x) (ref_size x)) ∧
  ((e = 0 ∧ heap s' !! page = None ∧ discarded s' = discarded s ++ [page]) ∨
   (e ≠ 0 ∧ heap s' !! page = Some pg ∧ discarded s' = discarded s ∧
    track_answers s = e :: track_answers s')).
Proof.
  intros Hp Hx Ho. unfold __rec_parent_clean_update.
  rewrite (bind_run _ _ _ _ pg) by (by apply get_page_run).
  rewrite (bind_run _ _ _ _ _ (set_ref_page_run _ NULL _ _ Hx)).
  set (sa := store_ref (parent_ref pg) (with_page NULL x) s).
  assert (Hpa : heap sa !! page = Some pg) by (unfold sa; by rewrite store_ref_heap_outside).
  assert (Hxa : lookup_ref (parent_ref pg) sa = Some (with_page NULL x))
    by (by eapply lookup_store_ref).
  rewrite (bind_run _ _ _ _ pg) by (by apply get_page_run).
  rewrite (bind_run _ _ _ _ _ (set_ref_state_run _ WT_REF_DISK _ _ Hxa)).
  set (sb := store_ref (parent_ref pg) _ sa).
  assert (Hpb : heap sb !! page = Some pg) by (unfold sb; by rewrite store_ref_heap_outside).
  assert (Hxb : lookup_ref (parent_ref pg) sb =
                Some (MkRef WT_REF_DISK NULL (ref_addr x) (ref_size x)))
    by (by eapply lookup_store_ref).
  assert (Hab : track_answers sb = track_answers s ∧ discarded sb = discarded s).
  { unfold sb, sa. destruct (store_ref_answers (parent_ref pg)
      (with_state WT_REF_DISK (with_page NULL x))
      (store_ref (parent_ref pg) (with_page NULL x) s)) as (_ & -> & _ & ->).
    by destruct (store_ref_answers (parent_ref pg) (with_page NULL x) s) as (_ & -> & _ & ->). }
  destruct Hab as [Ht Hd].
  intros Hdp. apply (rec_discard_page_run _ _ pg _ _ Hpb) in Hdp
    as [(-> & -> & Hz)|(Hne & Hm & rest & Hrest & ->)].
  - split.
    + rewrite lookup_ref_free_page by done.
      destruct (decide _); [by rewrite lookup_ref_set_answers | done].
    + left. split; [done|]. split; [apply lookup_delete_eq|].
      simpl. by destruct (decide _); simpl; rewrite Hd.
  - split; [by rewrite lookup_ref_set_answers|]. right.
    split; [done|]. split; [done|]. split; [done|]. simpl. by rewrite <- Ht.
Qed.

(** A run of the entry point on a page that reconciles to no result: the
    review fails, or the clean update runs. *)
Lemma evict_clean_run (fuel : nat) (page : ptr) (fl : Z) (s : St)
    (pg : WT_PAGE) (x : WT_REF) (e : Z) (s' : St) :
  heap s !! page = Some pg →
  F_ISSET pg WT_PAGE_REC_SPLIT_MERGE = 0 →
  clean_outcome pg s →
  lookup_ref (parent_ref pg) s = Some x →
  outside (parent_ref pg) page →
  __wt_rec_evict fuel page fl s = Ret e s' →
  (e ≠ 0 ∧ skel s' = skel s) ∨
  (lookup_ref (parent_ref pg) s' =
     Some (MkRef WT_REF_DISK NULL (ref_addr x) (ref_size x)) ∧
   ((e = 0 ∧ heap s' !! page = None ∧ discarded s' = discarded s ++ [page]) ∨
    (e ≠ 0 ∧ is_Some (heap s' !! page) ∧ discarded s' = discarded s ∧
     track_answers s = e :: track_answers s'))).
Proof.
  intros Hp Hsm Hclean Hx Ho Hrun.
  destruct (evict_cases _ _ _ _ _ _ _ Hp Hsm Hrun)
    as (s1 & pg1 & Hsk & Hans & Hp1 & Hm1 & Hr1 & Hf1 & Hcases).
  unfold clean_outcome in Hclean.
  assert (Hd1 : discarded s1 = discarded s) by exact (f_equal discarded Hsk).
  assert (Ht1 : track_answers s1 = track_answers s) by exact (f_equal track_answers Hsk).
  destruct (skel_lookup_ref s s1 _ x Hsk Hx) as (x1 & Hx1 & Hxp & Hxa & Hxs).
  assert (Hgo : ∀ s2 pg2, heap s2 !! page = Some pg2 → parent_ref pg2 = parent_ref pg →
            F_ISSET pg2 WT_PAGE_REC_MASK = 0 →
            (∀ r, lookup_ref r s2 = lookup_ref r s1) → discarded s2 = discarded s1 →
            track_answers s2 = track_answers s1 →
            evict_update fuel page (evict_flags pg fl) s2 = Ret e s' →
            lookup_ref (parent_ref pg) s' =
              Some (MkRef WT_REF_DISK NULL (ref_addr x) (ref_size x)) ∧
            ((e = 0 ∧ heap s' !! page = None ∧ discarded s' = discarded s ++ [page]) ∨
             (e ≠ 0 ∧ is_Some (heap s' !! page) ∧ discarded s' = discarded s ∧
              track_answers s = e :: track_answers s'))).
  { intros s2 pg2 Hp2 Hr2 Hf2 Hl2 Hd2 Ht2. unfold evict_update.
    rewrite (bind_run _ _ _ _ pg2) by (by apply get_page_run).
    destruct (decide (F_ISSET pg2 WT_PAGE_REC_MASK = 0)); [|done].
    intros (ec & s3 & Hcu & Hret)%bind_Ret.
    assert (ec = e ∧ s3 = s') as [-> ->].
    { destruct (decide (ec ≠ 0)); injection Hret as <- <-; [done|]. split; [lia|done]. }
    apply (rec_parent_clean_update_run page s2 pg2 x1) in Hcu;
      [|done|by rewrite Hr2, Hl2|by rewrite Hr2].
    rewrite Hr2, Hxa, Hxs in Hcu. destruct Hcu as [Hl [(-> & Hh & Hd)|(? & Hh & Hd & Ht)]].
    - split; [done|]. left. split; [done|]. split; [done|]. by rewrite Hd, Hd2, Hd1.
    - split; [done|]. right. split; [done|]. split; [by rewrite Hh|].
      split; [by rewrite Hd, Hd2, Hd1 | by rewrite <- Ht1, <- Ht2]. }
  destruct Hcases as [[? ->]|[[Hnd Hup]|(Hdirty & a & rest & Ha & Hw)]].
  - by left.
  - right. rewrite Hnd in Hclean. apply (Hgo s1 pg1); try done. by rewrite Hf1.
  - right. rewrite Hdirty in Hclean. destruct Hclean as (a' & rest' & Ha' & Hok & Hfl).
    rewrite Ha in Ha'. injection Ha' as <- <-.
    destruct Hw as [(? & _)|(_ & Hup)]; [done|].
    eapply (Hgo _ (written a pg1)); [| | | | | |exact Hup].
    + simpl. by rewrite lookup_insert_eq.
    + done.
    + unfold F_ISSET, written; simpl. by rewrite mask_after_write.
    + intros r. by apply (lookup_ref_put_page r (set_rec_answers rest s1) page pg1).
    + done.
    + done.
Qed.

(** C8.  For a page that reconciles to no result (it is not modified and
    carries no REC_* flag, or its write succeeds and leaves none), a
    successful eviction ends with the parent reference in state DISK with a
    null page pointer and its address and size as they were before the call,
    and with the page discarded: it has left memory and is the one page added
    to the discard trace.  The parent reference is taken not to lie in the
    page itself. *)
Theorem evict_clean_spec (fuel : nat) (page : ptr) (fl : Z) (s : St)
    (pg : WT_PAGE) (x : WT_REF) (s' : St) :
  heap s !! page = Some pg →
  F_ISSET pg WT_PAGE_REC_SPLIT_MERGE = 0 →
  clean_outcome pg s →
  lookup_ref (parent_ref pg) s = Some x →
  outside (parent_ref pg) page →
  __wt_rec_evict fuel page fl s = Ret 0 s' →
  lookup_ref (parent_ref pg) s' =
    Some (MkRef WT_REF_DISK NULL (ref_addr x) (ref_size x)) ∧
  heap s' !! page = None ∧
  discarded s' = discarded s ++ [page].
Proof.
  intros Hp Hsm Hclean Hx Ho Hrun.
  destruct (evict_clean_run _ _ _ _ _ _ _ _ Hp Hsm Hclean Hx Ho Hrun)
    as [[? _]|[Hl [(_ & ? & ?)|(? & _)]]]; done.
Qed.

Lemma keeps_reads {A : Type} (P : St → Prop) (m : M A) : reads m → keeps P m.
Proof. intros Hr s a s' HP Hs. by rewrite (Hr _ _ _ Hs). Qed.

Lemma keeps_bind {A B : Type} (P : St → Prop) (m : M A) (k : A → M B) :
  keeps P m → (∀ a, keeps P (k a)) → keeps P (bind m k).
Proof.
  intros Hm Hk s b s' HP (a & s1 & Hs1 & Hs')%bind_Ret.
  eapply Hk; [|exact Hs']. by eapply Hm.
Qed.

Lemma keeps_foreach {A B : Type} (P : St → Prop) (body : nat → A → M (step A B))
    (idx : list nat) (a : A) :
  (∀ i a, keeps P (body i a)) → keeps P (foreach body idx a).
Proof.
  intros Hb. revert a. induction idx as [|i idx IH]; intros a; simpl.
  - apply keeps_reads. by intros s x s' [= <- <-].
  - apply keeps_bind; [apply Hb|]. intros [a'|b]; [apply IH|].
    apply keeps_reads. by intros s x s' [= <- <-].
Qed.

Lemma reads_ret {A : Type} (a : A) : reads (ret a).
Proof. by intros s x s' [= <- <-]. Qed.

Lemma reads_bind {A B : Type} (m : M A) (k : A → M B) :
  reads m → (∀ a, reads (k a)) → reads (bind m k).
Proof.
  intros Hm Hk s b s' (a & s1 & Hs1 & Hs')%bind_Ret.
  rewrite <- (Hm _ _ _ Hs1). by eapply Hk.
Qed.

Lemma reads_get_page (p : ptr) : reads (get_page p).
Proof. by intros s pg s' [_ ->]%get_page_Ret. Qed.

Lemma reads_page_type_of (p : ptr) : reads (page_type_of p).
Proof. apply reads_bind; [apply reads_get_page | intros; apply reads_ret]. Qed.

Lemma reads_get_row_slot (p : ptr) (i : nat) : reads (get_row_slot p i).
Proof.
  apply reads_bind; [apply reads_get_page|]. intros pg.
  destruct (u pg); try done. destruct (_ !! _); [apply reads_ret | done].
Qed.

Lemma reads_get_col_slot (p : ptr) (i : nat) : reads (get_col_slot p i).
Proof.
  apply reads_bind; [apply reads_get_page|]. intros pg.
  destruct (u pg); try done. destruct (_ !! _); [apply reads_ret | done].
Qed.

Lemma reads_row_slots (p : ptr) : reads (row_slots p).
Proof.
  apply reads_bind; [apply reads_get_page|]. intros pg.
  destruct (u pg); try done. apply reads_ret.
Qed.

Lemma reads_col_slots (p : ptr) : reads (col_slots p).
Proof.
  apply reads_bind; [apply reads_get_page|]. intros pg.
  destruct (u pg); try done. apply reads_ret.
Qed.

Lemma set_ref_state_Ret (r : ref_ptr) (st : wt_state) (s s' : St) (a : unit) :
  set_ref_state r st s = Ret a s' →
  ∃ x, lookup_ref r s = Some x ∧ s' = store_ref r (with_state st x) s.
Proof.
  destruct (lookup_ref r s) as [x|] eqn:Hx.
  - rewrite (set_ref_state_run r st s x Hx). intros [= <-]. by exists x.
  - unfold set_ref_state, bind, get_ref. by rewrite Hx.
Qed.

Lemma keeps_mem_set_ref_state (r r' : ref_ptr) :
  keeps (ref_in_mem r) (set_ref_state r' WT_REF_MEM).
Proof.
  intros s a s' (y & Hy & Hmem) (x & Hx & ->)%set_ref_state_Ret.
  destruct (decide (r' = r)) as [->|Hne].
  - exists (with_state WT_REF_MEM x). split; [by eapply lookup_store_ref | done].
  - exists y. by rewrite lookup_store_ref_ne.
Qed.

Create HintDb keeps discriminated.
#[local] Hint Resolve reads_ret reads_get_page reads_page_type_of reads_get_row_slot
  reads_get_col_slot reads_row_slots reads_col_slots keeps_mem_set_ref_state : keeps.
#[local] Hint Extern 1 (keeps _ _) =>
  (apply keeps_reads; solve [auto with keeps]) : keeps.

Ltac keeps_step :=
  match goal with
  | |- keeps _ (if ?c then _ else _) => destruct c
  | |- keeps _ (match ?x with _ => _ end) => destruct x
  | |- keeps _ (foreach _ _ _) => apply keeps_foreach; intros ? ?
  | |- keeps _ _ => solve [auto with keeps]
  | |- keeps _ (bind _ _) => apply keeps_bind; [|intros ?]
  end.

Lemma keeps_mem_row_clear (r : ref_ptr) (fuel : nat) (parent last : ptr) :
  keeps (ref_in_mem r) (__rec_sub_excl_row_clear fuel parent last).
Proof.
  revert parent. induction fuel as [|fuel IH]; intros parent; [done|].
  cbn [__rec_sub_excl_row_clear]. unfold excl_row_clear_body. repeat keeps_step.
Qed.

Lemma keeps_mem_col_clear (r : ref_ptr) (fuel : nat) (parent last : ptr) :
  keeps (ref_in_mem r) (__rec_sub_excl_col_clear fuel parent last).
Proof.
  revert parent. induction fuel as [|fuel IH]; intros parent; [done|].
  cbn [__rec_sub_excl_col_clear]. unfold excl_col_clear_body. repeat keeps_step.
Qed.

Lemma keeps_bind_inv {A : Type} (P : St → Prop) (m : M A) (s s' : St) (a : A) :
  keeps P m → P s → m s = Ret a s' → P s'.
Proof. intros Hk HP Hs. by eapply Hk. Qed.

(** After the unlocker the page's own reference is in state MEM. *)
Lemma rec_sub_excl_clear_parent (fuel : nat) (page last : ptr) (fl : Z)
    (s : St) (pg : WT_PAGE) (s' : St) :
  heap s !! page = Some pg →
  LF_ISSET fl WT_REC_SINGLE = 0 →
  __rec_sub_excl_clear fuel page last fl s = Ret tt s' →
  ref_in_mem (parent_ref pg) s'.
Proof.
  intros Hp Hsingle. unfold __rec_sub_excl_clear.
  destruct (decide (LF_ISSET fl WT_REC_SINGLE ≠ 0)); [done|].
  rewrite (bind_run _ _ _ _ pg) by (by apply get_page_run).
  intros ([] & s1 & (x & Hx & ->)%set_ref_state_Ret & Hrest)%bind_Ret.
  assert (Hmem : ref_in_mem (parent_ref pg)
                   (store_ref (parent_ref pg) (with_state WT_REF_MEM x) s)).
  { eexists. split; [by eapply lookup_store_ref | done]. }
  revert Hmem Hrest. apply keeps_bind_inv.
  destruct (decide (page = last)); [auto with keeps|].
  apply keeps_bind; [auto with keeps|]. intros ty.
  destruct ty; try solve [auto with keeps];
    (apply keeps_bind; [|intros; auto with keeps]);
    [apply keeps_mem_col_clear | apply keeps_mem_row_clear].
Qed.

Lemma errors_elem (l : list Z) (z : Z) : z ∈ errors l ↔ z ∈ l ∧ z ≠ 0.
Proof. unfold errors. rewrite list_elem_of_filter. tauto. Qed.

(** What [surfaced] says about each answer consumed. *)
Lemma surfaced_each (s s' : St) (e : Z) :
  surfaced s e s' →
  ∃ cw ct,
    rec_answers s = cw ++ rec_answers s' ∧
    track_answers s = ct ++ track_answers s' ∧
    (∀ a, a ∈ cw → rec_ret a ≠ 0 → e = rec_ret a) ∧
    (∀ t, t ∈ ct → t ≠ 0 → e = t).
Proof.
  intros (cw & ct & cm & Hw & Ht & _ & He). exists cw, ct.
  split; [done|]. split; [done|].
  assert (Hall : ∀ z, z ∈ errors (rec_ret <$> cw) ++ errors ct ++ errors cm → z = e).
  { intros z Hz. destruct He as [He|[_ He]]; rewrite He in Hz.
    - by apply elem_of_nil in Hz.
    - by apply list_elem_of_singleton in Hz. }
  split.
  - intros a Ha Hne. symmetry. apply Hall. rewrite elem_of_app, errors_elem. left.
    split; [|done]. apply list_elem_of_fmap. by exists a.
  - intros t Ht' Hne. symmetry. apply Hall. rewrite !elem_of_app. right; left.
    by apply errors_elem.
Qed.

Lemma set_modified_run (page : ptr) (s : St) (pg : WT_PAGE) (am : list Z) :
  heap s !! page = Some pg → setmod_answers s = 0 :: am →
  __wt_page_set_modified page s =
    Ret 0 (set_heap (<[page := set_modify (Some (mark_dirty (modify pg))) pg]> (heap s))
                    (set_setmod_answers am s)).
Proof.
  intros Hp Hm. unfold __wt_page_set_modified, bind at 1, get. rewrite Hm.
  unfold bind at 1, modify_st. destruct (decide (0 = 0)); [|done].
  rewrite (bind_run _ _ _ _ pg) by (by apply get_page_run). done.
Qed.

Lemma F_CLR_run (page : ptr) (mask : Z) (s : St) (pg : WT_PAGE) :
  heap s !! page = Some pg →
  F_CLR page mask s =
    Ret tt (set_heap (<[page := set_flags (Z.ldiff (flags pg) mask) pg]> (heap s)) s).
Proof.
  intros Hp. unfold F_CLR. by rewrite (bind_run _ _ _ _ pg) by (by apply get_page_run).
Qed.

Lemma get_modify_run (page : ptr) (s : St) (pg : WT_PAGE) (m : WT_PAGE_MODIFY) :
  heap s !! page = Some pg → modify pg = Some m → get_modify page s = Ret m s.
Proof.
  intros Hp Hm. unfold get_modify.
  rewrite (bind_run _ _ _ _ pg) by (by apply get_page_run). by rewrite Hm.
Qed.

Lemma rec_discard_page_ok (page : ptr) (s : St) (pg : WT_PAGE) (ats : list Z) :
  heap s !! page = Some pg → modify pg ≠ None → track_answers s = 0 :: ats →
  __rec_discard_page page s = Ret 0 (free_page page (set_track_answers ats s)).
Proof.
  intros Hp Hm Ht. unfold __rec_discard_page.
  rewrite (bind_run _ _ _ _ pg) by (by apply get_page_run).
  destruct (decide (modify pg ≠ None)); [|done].
  unfold __wt_rec_track_discard, bind at 1 2, get. rewrite Ht.
  unfold bind at 1, modify_st, ret. by destruct (decide (0 ≠ 0)).
Qed.

Lemma rec_write_ok (page : ptr) (s : St) (pg : WT_PAGE) (a : rec_answer)
    (rest : list rec_answer) :
  heap s !! page = Some pg → rec_answers s = a :: rest → rec_ret a = 0 →
  __wt_rec_write page s =
    Ret 0 (set_heap (<[page := written a pg]> (heap s)) (set_rec_answers rest s)).
Proof.
  intros Hp Ha Hr. rewrite (rec_write_run page s pg a rest Hp Ha).
  by destruct (decide (rec_ret a = 0)).
Qed.

Ltac run H := rewrite (bind_run _ _ _ _ _ H); cbv beta.

(** One pass of the loop on a page in memory. *)
Lemma root_split_body_run (page : ptr) (s : St) (pg : WT_PAGE) (a : rec_answer)
    (aw : list rec_answer) (am ats : list Z) :
  heap s !! page = Some pg →
  rec_answers s = a :: aw → setmod_answers s = 0 :: am →
  track_answers s = 0 :: ats → rec_ret a = 0 →
  (Z.land (rec_flags a) WT_PAGE_REC_MASK = WT_PAGE_REC_REPLACE ∨
   Z.land (rec_flags a) WT_PAGE_REC_MASK = WT_PAGE_REC_SPLIT) →
  ∃ s1,
    root_split_body page s =
      Ret (Next (if decide (Z.land (rec_flags a) WT_PAGE_REC_MASK = WT_PAGE_REC_REPLACE)
                 then NULL else write_split (rec_modify a))) s1 ∧
    heap s1 = delete page (heap s) ∧
    root_page s1 =
      (if decide (Z.land (rec_flags a) WT_PAGE_REC_MASK = WT_PAGE_REC_REPLACE)
       then MkRef (ref_state (root_page s)) NULL
                  (write_off_addr (rec_modify a)) (write_off_size (rec_modify a))
       else root_page s) ∧
    rec_answers s1 = aw ∧ setmod_answers s1 = am ∧ track_answers s1 = ats ∧
    discarded s1 = discarded s ++ [page] ∧
    conn_hazard s1 = conn_hazard s ∧ cache_hazard s1 = cache_hazard s ∧
    readers s1 = readers s ∧ cache_read_gen s1 = cache_read_gen s.
Proof.
  intros Hp Ha Hm Ht Hret Hkind. unfold root_split_body.
  run (set_modified_run page s pg am Hp Hm). destruct (decide (0 ≠ 0)); [done|].
  set (pg1 := set_modify _ pg). set (s1 := set_heap _ _).
  assert (Hp1 : heap s1 !! page = Some pg1) by (unfold s1; cbn; by rewrite lookup_insert_eq).
  run (F_CLR_run page WT_PAGE_REC_MASK s1 pg1 Hp1).
  set (pg2 := set_flags _ pg1). set (s2 := set_heap _ s1).
  assert (Hp2 : heap s2 !! page = Some pg2) by (unfold s2; cbn; by rewrite lookup_insert_eq).
  run (rec_write_ok page s2 pg2 a aw Hp2 Ha Hret). destruct (decide (0 ≠ 0)); [done|].
  set (pg3 := written a pg2). set (s3 := set_heap _ _).
  assert (Hp3 : heap s3 !! page = Some pg3) by (unfold s3; cbn; by rewrite lookup_insert_eq).
  assert (Hm3 : modify pg3 = Some (rec_modify a)) by done.
  assert (Ht3 : track_answers s3 = 0 :: ats) by done.
  run (get_page_run page s3 pg3 Hp3).
  assert (Hmask : F_ISSET pg3 WT_PAGE_REC_MASK = Z.land (rec_flags a) WT_PAGE_REC_MASK).
  { unfold F_ISSET, pg3, written. cbn. apply mask_after_write. }
  rewrite Hmask.
  destruct (decide (Z.land (rec_flags a) WT_PAGE_REC_MASK = WT_PAGE_REC_REPLACE)) as [Hr|Hr].
  - unfold bind, modify_st, ret.
    rewrite (get_modify_run page s3 pg3 _ Hp3 Hm3); cbv beta iota.
    match goal with |- context [get_modify page ?s4] =>
      rewrite (get_modify_run page s4 pg3 (rec_modify a)) by done end.
    cbv beta iota.
    match goal with |- context [__rec_discard_page page ?s5] =>
      rewrite (rec_discard_page_ok page s5 pg3 ats Hp3 ltac:(by rewrite Hm3) Ht3) end.
    cbv beta iota. destruct (decide (0 ≠ 0)); [done|].
    eexists. split; [reflexivity|]. cbn. rewrite !delete_insert_eq. done.
  - destruct Hkind as [?|Hs]; [done|].
    destruct (decide (Z.land (rec_flags a) WT_PAGE_REC_MASK = WT_PAGE_REC_SPLIT)); [|done].
    unfold bind, modify_st, ret.
    rewrite (get_modify_run page s3 pg3 _ Hp3 Hm3); cbv beta iota.
    rewrite (rec_discard_page_ok page s3 pg3 ats Hp3 ltac:(by rewrite Hm3) Ht3).
    cbv beta iota. destruct (decide (0 ≠ 0)); [done|].
    eexists. split; [reflexivity|]. cbn. rewrite !delete_insert_eq. done.
Qed.

(** C6.  For a chain of pages [page :: rest], all in memory and pairwise
    distinct, whose writes answer Split to the next page for all but the last
    and Replace (addr, size) for the last (marking modified and draining the
    tracked objects succeed), [__rec_root_split] terminates with 0 for every
    loop bound larger than the length of [rest]; afterwards the tree's root
    reference holds (addr, size) with a null page pointer, the pages of the
    chain, the last one included, have been discarded one per pass in chain
    order and have left memory, and no other page is touched. *)
Theorem root_split_collapse (rest : list ptr) (answers : list rec_answer)
    (addr size : Z) (page : ptr) (s : St) (fuel : nat)
    (aw : list rec_answer) (am ats : list Z) :
  split_chain rest answers addr size →
  NoDup (page :: rest) →
  Forall (λ p, p ≠ NULL ∧ is_Some (heap s !! p)) (page :: rest) →
  rec_answers s = answers ++ aw →
  setmod_answers s = replicate (S (length rest)) 0 ++ am →
  track_answers s = replicate (S (length rest)) 0 ++ ats →
  (length rest < fuel)%nat →
  ∃ s',
    __rec_root_split fuel page s = Ret 0 s' ∧
    root_page s' = MkRef (ref_state (root_page s)) NULL addr size ∧
    discarded s' = discarded s ++ page :: rest ∧
    (∀ p, p ∈ page :: rest → heap s' !! p = None) ∧
    (∀ p, p ∉ page :: rest → heap s' !! p = heap s !! p) ∧
    rec_answers s' = aw ∧ setmod_answers s' = am ∧ track_answers s' = ats.
Proof.
  revert answers page s fuel.
  induction rest as [|next rest IH]; intros answers page s fuel Hchain Hnd Hall Ha Hm Ht Hfuel.
  - destruct answers as [|a [|? ?]]; try done. destruct Hchain as (Hret & Hfl & <- & <-).
    apply Forall_cons in Hall as [[Hnull [pg Hp]] _].
    destruct fuel as [|fuel]; [lia|]. cbn [__rec_root_split].
    destruct (decide (page = NULL)); [done|].
    destruct (root_split_body_run page s pg a aw am ats Hp Ha Hm Ht Hret (or_introl Hfl))
      as (s1 & Hrun & Hh & Hroot & Haw & Ham & Hat & Hd & _).
    rewrite (bind_run _ _ _ _ _ Hrun).
    destruct (decide (_ = WT_PAGE_REC_REPLACE)); [|done].
    exists s1. split.
    { destruct fuel; simpl; by destruct (decide (NULL = NULL)). }
    split; [done|]. split; [done|]. split; [|split; [|done]].
    + intros p ->%list_elem_of_singleton. rewrite Hh. apply lookup_delete_eq.
    + intros p Hp'. rewrite Hh. apply lookup_delete_ne. intros ->. apply Hp'. by left.
  - destruct answers as [|a answers]; [done|]. destruct Hchain as [(Hret & Hfl & Hnext) Hchain].
    apply Forall_cons in Hall as [[Hnull [pg Hp]] Hall].
    apply NoDup_cons in Hnd as [Hnotin Hnd].
    destruct fuel as [|fuel]; [lia|]. cbn [__rec_root_split].
    destruct (decide (page = NULL)); [done|].
    destruct (root_split_body_run page s pg a (answers ++ aw)
                (replicate (S (length rest)) 0 ++ am)
                (replicate (S (length rest)) 0 ++ ats) Hp Ha Hm Ht Hret (or_intror Hfl))
      as (s1 & Hrun & Hh & Hroot & Haw & Ham & Hat & Hd & _).
    rewrite (bind_run _ _ _ _ _ Hrun).
    assert (Hne : Z.land (rec_flags a) WT_PAGE_REC_MASK ≠ WT_PAGE_REC_REPLACE)
      by (by rewrite Hfl).
    destruct (decide (_ = WT_PAGE_REC_REPLACE)); [done|]. rewrite Hnext in *.
    destruct (IH answers next s1 fuel Hchain Hnd) as (s' & Hrs & Hr' & Hd' & Hgone & Hkept & Hrest);
      [|done|done|done|simpl in Hfuel; lia|].
    { rewrite Forall_forall in Hall |- *. intros p Hin. destruct (Hall p Hin) as [Hpn Hps].
      split; [done|]. rewrite Hh, lookup_delete_ne; [done|]. intros ->. by apply Hnotin. }
    exists s'. split; [done|]. split; [by rewrite Hr', Hroot|].
    split; [by rewrite Hd', Hd, <- (assoc_L (++))|]. split; [|split; [|done]].
    + intros p [->|Hin]%elem_of_cons; [|by apply Hgone].
      rewrite Hkept by done. rewrite Hh. apply lookup_delete_eq.
    + intros p Hp'. rewrite Hkept, Hh.
      * apply lookup_delete_ne. intros ->. apply Hp'. by left.
      * intros Hin. apply Hp'. by right.
Qed.

(** C1, at a failing input.  The candidate at 100 has one child in memory,
    a leaf that split and was modified again.  The review locks the
    candidate, locks the child and rejects it; the last-locked page is still
    the candidate, so the unlocker stops there.  The call returns 1 (Busy),
    the candidate's reference is back in MEM and the child's reference is
    left in state LOCKED. *)
Theorem evict_leaves_rejected_child_locked :
  ∃ s', __wt_rec_evict 2 100 0 st_dirty_split_child = Ret 1 s' ∧
        lookup_ref (SlotRef 50 0) s' = Some (MkRef WT_REF_MEM 100 11 12) ∧
        lookup_ref (SlotRef 100 0) s' = Some (MkRef WT_REF_LOCKED 200 21 22).
Proof. eexists. split; [vm_compute; reflexivity|]. split; vm_compute; reflexivity. Qed.

(** C2, at a failing input.  The candidate at 100 has a child on disk, then
    a clean split leaf, then a leaf without reconciliation result.  The
    review skips the first, locks the second and fails on the third.  The
    unlock walk does not skip the child on disk: it stores MEM into its
    reference and then dereferences its null page pointer, before it reaches
    the leaf it had locked. *)
Theorem unlock_walk_overwrites_disk_child :
  lookup_ref (SlotRef 100 0) st_disk_then_locked =
    Some (MkRef WT_REF_DISK NULL 21 22) ∧
  ∃ s', __wt_rec_evict 2 100 0 st_disk_then_locked = Fault s' ∧
        lookup_ref (SlotRef 100 0) s' = Some (MkRef WT_REF_MEM NULL 21 22) ∧
        lookup_ref (SlotRef 100 1) s' = Some (MkRef WT_REF_LOCKED 200 0 0).
Proof.
  split; [vm_compute; reflexivity|].
  eexists. split; [vm_compute; reflexivity|]. split; vm_compute; reflexivity.
Qed.

(** C5, at a failing input.  The candidate at 100 is not the root, is clean
    and carries REC_EMPTY; it has a child on disk and an empty leaf in
    memory.  The call returns 0 and nothing is discarded, but the unlock walk
    with a null last page stops at the child on disk, whose page pointer is
    null: that reference has been flipped from DISK to MEM and the leaf's
    reference is left in state LOCKED. *)
Theorem empty_abort_leaves_child_locked :
  ∃ s', __wt_rec_evict 2 100 0 st_empty_with_disk_child = Ret 0 s' ∧
        lookup_ref (SlotRef 50 0) s' = Some (MkRef WT_REF_MEM 100 11 12) ∧
        lookup_ref (SlotRef 100 0) s' = Some (MkRef WT_REF_MEM NULL 21 22) ∧
        lookup_ref (SlotRef 100 1) s' = Some (MkRef WT_REF_LOCKED 200 0 0) ∧
        discarded s' = [].
Proof.
  eexists. split; [vm_compute; reflexivity|]. repeat split; vm_compute; reflexivity.
Qed.

(** C9 does not hold as stated.  A clean leaf whose tracked objects fail to
    drain with error 5: the review locks the candidate's reference, the
    clean update sets it to DISK with a null page pointer, and the error is
    returned at once; the reference is not back in state MEM. *)
Lemma discard_error_without_unlock :
  ∃ s1 s',
    __rec_review 1 100 0 st_discard_fails = Ret 0 s1 ∧
    lookup_ref (SlotRef 50 0) s1 = Some (MkRef WT_REF_LOCKED 100 11 12) ∧
    __wt_rec_evict 1 100 0 st_discard_fails = Ret 5 s' ∧
    lookup_ref (SlotRef 50 0) s' = Some (MkRef WT_REF_DISK NULL 11 12) ∧
    ¬ ref_in_mem (SlotRef 50 0) s'.
Proof.
  do 2 eexists. do 4 (split; [vm_compute; reflexivity|]).
  intros (y & Hy & Hmem). vm_compute in Hy. injection Hy as <-. discriminate Hmem.
Qed.

(** ** The theorems at work on the scenarios *)

(** A reader holds the page: without [force] the request is refused and the
    reference is back in MEM; with [force] it is granted after one yield. *)
Lemma hazard_exclusive_spec_witness :
  lookup_ref (SlotRef 50 0) st_reader = Some (MkRef WT_REF_MEM 100 11 12) ∧
  (∃ s', __hazard_exclusive 1 (SlotRef 50 0) 0 st_reader = Ret 1 s' ∧
         lookup_ref (SlotRef 50 0) s' = Some (MkRef WT_REF_MEM 100 11 12)) ∧
  (∃ s', __hazard_exclusive 2 (SlotRef 50 0) 1 st_reader = Ret 0 s' ∧
         lookup_ref (SlotRef 50 0) s' = Some (MkRef WT_REF_LOCKED 100 11 12)).
Proof.
  assert (Hx : lookup_ref (SlotRef 50 0) st_reader = Some (MkRef WT_REF_MEM 100 11 12))
    by (vm_compute; reflexivity).
  destruct (hazard_exclusive_spec (SlotRef 50 0) _ st_reader Hx (or_introl eq_refl))
    as [Hnf Hf].
  split; [exact Hx|]. split.
  - destruct (Hnf 0%nat) as (s' & Hrun & Hl & _). exists s'. split; [exact Hrun | exact Hl].
  - destruct (Hf 1 ltac:(lia)) as [_ Hprog].
    destruct (Hprog 1%nat 2%nat ltac:(lia)) as (s' & Hrun & Hl & _).
    + intros [|j] Hj; [vm_compute; reflexivity | lia].
    + vm_compute; reflexivity.
    + exists s'. split; [exact Hrun | exact Hl].
Defined.

(** A dirty split leaf is locked and then rejected. *)
Lemma rec_sub_excl_page_spec_witness :
  heap st_dirty_split_child !! 200 = Some (leaf WT_PAGE_REC_SPLIT (Some a_dirty) 0) ∧
  ∃ s1, __hazard_exclusive 1 (SlotRef 100 0) 0 st_dirty_split_child = Ret 0 s1 ∧
        __rec_sub_excl_page 1 (SlotRef 100 0) 200 0 st_dirty_split_child = Ret 1 s1.
Proof.
  assert (Hp : heap st_dirty_split_child !! 200 =
               Some (leaf WT_PAGE_REC_SPLIT (Some a_dirty) 0)) by (vm_compute; reflexivity).
  split; [exact Hp|].
  eexists. split; [vm_compute; reflexivity|].
  destruct (rec_sub_excl_page_spec 1 (SlotRef 100 0) 200 0 st_dirty_split_child _ Hp)
    as [_ Hlocked].
  refine (proj2 (Hlocked _ _) _ _).
  - vm_compute; reflexivity.
  - vm_compute; reflexivity.
  - left. vm_compute. discriminate.
Defined.

(** The new root splits once more and is then replaced. *)
Lemma root_split_collapse_witness :
  ∃ s', __rec_root_split 2 500 st_bulk_load = Ret 0 s' ∧
        root_page s' = MkRef WT_REF_LOCKED NULL 0x42 4096 ∧
        discarded s' = [500; 600] ∧
        heap s' !! 500 = None ∧ heap s' !! 600 = None.
Proof.
  destruct (root_split_collapse [600]
              [MkAnswer 0 WT_PAGE_REC_SPLIT (MkModify 0 0 600 false);
               MkAnswer 0 WT_PAGE_REC_REPLACE (MkModify 0x42 4096 NULL false)]
              0x42 4096 500 st_bulk_load 2 [] [] [])
    as (s' & Hrun & Hroot & Hd & Hgone & _).
  - vm_compute. repeat split; reflexivity.
  - apply NoDup_cons. split; [|apply NoDup_singleton].
    rewrite list_elem_of_singleton. lia.
  - repeat constructor; try (unfold NULL; lia); vm_compute; eexists; reflexivity.
  - reflexivity.
  - reflexivity.
  - reflexivity.
  - simpl; lia.
  - exists s'. split; [exact Hrun|]. split; [exact Hroot|]. split; [exact Hd|].
    split; apply Hgone; [left | right; left].
Defined.

(** A locked split-merge page is unlocked and its read generation bumped. *)
Lemma evict_split_merge_noop_witness :
  lookup_ref (SlotRef 50 0) st_split_merge = Some (MkRef WT_REF_LOCKED 100 11 12) ∧
  ∃ s', __wt_rec_evict 0 100 0 st_split_merge = Ret 0 s' ∧
        lookup_ref (SlotRef 50 0) s' = Some (MkRef WT_REF_MEM 100 11 12) ∧
        (∃ pg', heap s' !! 100 = Some pg' ∧ read_gen pg' = 9) ∧
        discarded s' = [].
Proof.
  assert (Hx : lookup_ref (SlotRef 50 0) st_split_merge =
               Some (MkRef WT_REF_LOCKED 100 11 12)) by (vm_compute; reflexivity).
  split; [exact Hx|].
  destruct (evict_split_merge_noop 0 100 0 st_split_merge
              (internal_100 WT_PAGE_REC_SPLIT_MERGE None [MkRef WT_REF_DISK NULL 21 22])
              (MkRef WT_REF_LOCKED 100 11 12))
    as (Hrun & Hl & _ & (pg' & Hp' & Hg & _) & _ & Hd & _).
  - vm_compute; reflexivity.
  - vm_compute. discriminate.
  - exact Hx.
  - eexists. split; [exact Hrun|]. split; [exact Hl|]. split; [|exact Hd].
    exists pg'. split; [exact Hp' | exact Hg].
Defined.

(** The eviction of a clean leaf. *)
Lemma evict_clean_spec_witness :
  ∃ s', __wt_rec_evict 1 100 0 st_clean_leaf = Ret 0 s' ∧
        lookup_ref (SlotRef 50 0) s' = Some (MkRef WT_REF_DISK NULL 11 12) ∧
        heap s' !! 100 = None ∧
        discarded s' = [100].
Proof.
  eexists. split; [vm_compute; reflexivity|].
  apply (evict_clean_spec 1 100 0 st_clean_leaf (candidate_leaf 0 None)
           (MkRef WT_REF_MEM 100 11 12)).
  - vm_compute; reflexivity.
  - vm_compute; reflexivity.
  - vm_compute; reflexivity.
  - vm_compute; reflexivity.
  - intros i. discriminate.
  - vm_compute; reflexivity.
Defined.

(** * More of the code *)

(** ** More on the hazard snapshot *)

Lemma hazard_compact_filter (hazard : list ptr) :
  hazard_compact hazard = filter (λ p, p ≠ NULL) hazard.
Proof.
  induction hazard as [|p l IH]; [done|]. simpl. rewrite filter_cons.
  destruct (decide (p = NULL)), (decide (p ≠ NULL)); try done; by rewrite IH.
Qed.

Lemma qsort_insert_perm (cmp : ptr → ptr → Z) (x : ptr) (l : list ptr) :
  qsort_insert cmp x l ≡ₚ x :: l.
Proof.
  induction l as [|y l IH]; [done|]. simpl. destruct (decide _); [done|].
  rewrite IH. apply Permutation_swap.
Qed.

Lemma qsort_perm (cmp : ptr → ptr → Z) (l : list ptr) : qsort l cmp ≡ₚ l.
Proof.
  induction l as [|x l IH]; [done|]. simpl. by rewrite qsort_insert_perm, IH.
Qed.

(** X1.  [__hazard_copy] always returns.  It leaves in the cache's array the
    non-null entries of the connection's hazard array, each as often as it
    occurs there, sorted by ascending page address; the copy is no longer than
    the hazard array, and nothing else in the state changes. *)
Theorem hazard_copy_spec (s : St) :
  ∃ s', __hazard_copy s = Ret tt s' ∧
        StronglySorted Z.le (cache_hazard s') ∧
        (cache_hazard s' ≡ₚ filter (λ p, p ≠ NULL) (conn_hazard s)) ∧
        (NULL ∉ cache_hazard s') ∧
        (length (cache_hazard s') ≤ length (conn_hazard s))%nat ∧
        s' = set_cache_hazard (cache_hazard s') s.
Proof.
  eexists. split; [reflexivity|]. cbn [cache_hazard set_cache_hazard].
  assert (Hperm : snapshot (conn_hazard s) ≡ₚ filter (λ p, p ≠ NULL) (conn_hazard s)).
  { unfold snapshot. by rewrite qsort_perm, hazard_compact_filter. }
  split; [apply qsort_sorted|]. split; [exact Hperm|]. split; [|split; [|by destruct s]].
  - rewrite Hperm. intros [? _]%list_elem_of_filter. done.
  - rewrite Hperm. apply length_filter.
Qed.

(** X2.  After [__hazard_copy], the search of [__hazard_exclusive] in the
    cache's array finds a page exactly when the page is not null and the
    connection's hazard array holds it, and what it finds is the page searched
    for. *)
Theorem hazard_search_spec (s : St) (page : ptr) :
  ∃ s', __hazard_copy s = Ret tt s' ∧
        (is_Some (bsearch page (cache_hazard s') (length (cache_hazard s'))
                          __hazard_bsearch_cmp)
         ↔ page ≠ NULL ∧ page ∈ conn_hazard s) ∧
        (∀ e, bsearch page (cache_hazard s') (length (cache_hazard s'))
                      __hazard_bsearch_cmp = Some e → e = page).
Proof.
  eexists. split; [reflexivity|]. cbn [cache_hazard set_cache_hazard]. split.
  - rewrite (bsearch_sorted page (snapshot (conn_hazard s)) (qsort_sorted _)).
    unfold snapshot. rewrite qsort_elem, hazard_compact_elem. tauto.
  - intros e He. by apply bsearch_loop_sound in He as [-> _].
Qed.

(** ** What the exclusive-access request leaves alone *)

Lemma hazard_retry_frame (fuel : nat) (r : ref_ptr) (force : Z) (s : St)
    (x : WT_REF) (e : Z) (s' : St) :
  lookup_ref r s = Some x →
  hazard_retry fuel r force s = Ret e s' →
  (e = 0 ∧ lookup_ref r s' = Some x ∨
   e = 1 ∧ force = 0 ∧ lookup_ref r s' = Some (with_state WT_REF_MEM x)) ∧
  (∀ r', r' ≠ r → lookup_ref r' s' = lookup_ref r' s) ∧
  (force = 0 → conn_hazard s' = conn_hazard s ∧ readers s' = readers s) ∧
  cache_hazard s' = snapshot (conn_hazard s').
Proof.
  revert s. induction fuel as [|fuel IH]; intros s Hx; [done|].
  rewrite (hazard_retry_S fuel r force s x Hx). cbv zeta.
  destruct (hazard_found _ _) eqn:Hf.
  - destruct (decide (force ≠ 0)) as [Hforce|Hforce].
    + intros Hrun. apply IH in Hrun as (H1 & H2 & H3 & H4);
        [|by rewrite lookup_ref_yield_st, lookup_ref_set_cache_hazard].
      split; [exact H1|]. split; [|split; [done|exact H4]].
      intros r' Hr'. rewrite (H2 r' Hr').
      by rewrite lookup_ref_yield_st, lookup_ref_set_cache_hazard.
    + intros [= <- <-]. apply dec_stable in Hforce.
      pose proof (store_ref_env r (with_state WT_REF_MEM x)
                    (set_cache_hazard (snapshot (conn_hazard s)) s)) as (Hc & Hh & Hr).
      split; [right; split; [done|split; [done|]]|].
      { eapply lookup_store_ref. by rewrite lookup_ref_set_cache_hazard. }
      split; [|split].
      * intros r' Hr'. rewrite lookup_store_ref_ne by done.
        by rewrite lookup_ref_set_cache_hazard.
      * intros _. by rewrite Hc, Hr.
      * by rewrite Hh, Hc.
  - intros [= <- <-]. split; [left; split; [done|]|].
    { by rewrite lookup_ref_set_cache_hazard. }
    split; [|done]. intros r' _. by rewrite lookup_ref_set_cache_hazard.
Qed.

(** X3.  Whenever [__hazard_exclusive] returns, it returns 0, or it returns 1
    and then [force] is 0.  The reference ends LOCKED in the first case and in
    MEM in the second, with its page, address and size as they were; every
    other reference is as before, and so is everything but reference states,
    hazard arrays and the readers' schedule.  Without [force] no yield
    happens: the connection's hazard array and the schedule are untouched.
    The cache's array is the sorted copy of the final hazard array. *)
Theorem hazard_exclusive_frame (fuel : nat) (r : ref_ptr) (force : Z) (s : St)
    (e : Z) (s' : St) :
  __hazard_exclusive fuel r force s = Ret e s' →
  (e = 0 ∨ e = 1 ∧ force = 0) ∧
  (∃ x, lookup_ref r s = Some x ∧
        lookup_ref r s' =
          Some (with_state (if decide (e = 0) then WT_REF_LOCKED else WT_REF_MEM) x)) ∧
  (∀ r', r' ≠ r → lookup_ref r' s' = lookup_ref r' s) ∧
  erase s' = erase s ∧
  (force = 0 → conn_hazard s' = conn_hazard s ∧ readers s' = readers s) ∧
  cache_hazard s' = snapshot (conn_hazard s').
Proof.
  intros Hrun. pose proof (frames_hazard_exclusive fuel r force s e s' Hrun) as Hfr.
  unfold __hazard_exclusive in Hrun.
  apply bind_Ret in Hrun as (a & s1 & Hset & Hrun).
  apply set_ref_state_Ret in Hset as (x & Hx & ->).
  pose proof (store_ref_env r (with_state WT_REF_LOCKED x) s) as (Hc & Hh & Hr).
  eapply hazard_retry_frame in Hrun as (H1 & H2 & H3 & H4);
    [|by eapply lookup_store_ref].
  split; [tauto|]. split; [|split; [|split; [exact Hfr|split; [|exact H4]]]].
  - exists x. split; [done|].
    destruct H1 as [[-> H1]|(-> & _ & H1)]; by rewrite H1.
  - intros r' Hr'. rewrite (H2 r' Hr'). by apply lookup_store_ref_ne.
  - intros Hf. destruct (H3 Hf) as [-> ->]. done.
Qed.

(** ** The review under WT_REC_SINGLE *)

Lemma reads_foreach {A B : Type} (body : nat → A → M (step A B))
    (idx : list nat) (a : A) :
  (∀ i a, reads (body i a)) → reads (foreach body idx a).
Proof.
  intros Hb. revert a. induction idx as [|i idx IH]; intros a; simpl.
  - apply reads_ret.
  - apply reads_bind; [apply Hb|]. intros [a'|b]; [apply IH|apply reads_ret].
Qed.

Ltac reads_step :=
  match goal with
  | |- reads (ret _) => apply reads_ret
  | |- reads (get_page _) => apply reads_get_page
  | |- reads (page_type_of _) => apply reads_page_type_of
  | |- reads (get_row_slot _ _) => apply reads_get_row_slot
  | |- reads (get_col_slot _ _) => apply reads_get_col_slot
  | |- reads (row_slots _) => apply reads_row_slots
  | |- reads (col_slots _) => apply reads_col_slots
  | |- reads (if ?c then _ else _) => destruct c
  | |- reads (match ?x with _ => _ end) => destruct x
  | |- reads (foreach _ _ _) => apply reads_foreach; intros ? ?
  | |- reads (bind _ _) => apply reads_bind; [|intros ?]
  | |- reads _ => assumption || done
  end.

Lemma reads_rec_sub_excl_page (fuel : nat) (r : ref_ptr) (page : ptr) (fl : Z) :
  LF_ISSET fl WT_REC_SINGLE ≠ 0 → reads (__rec_sub_excl_page fuel r page fl).
Proof. intros Hs. unfold __rec_sub_excl_page. repeat reads_step. Qed.

Lemma reads_rec_sub_excl_row (fuel : nat) (parent last : ptr) (fl : Z) :
  LF_ISSET fl WT_REC_SINGLE ≠ 0 → reads (__rec_sub_excl_row fuel parent last fl).
Proof.
  intros Hs. revert parent last. induction fuel as [|fuel IH]; intros parent last; [done|].
  cbn [__rec_sub_excl_row]. unfold excl_row_body.
  pose proof (reads_rec_sub_excl_page (S fuel)) as Hp.
  repeat first [apply Hp; exact Hs | apply IH | reads_step].
Qed.

Lemma reads_rec_sub_excl_col (fuel : nat) (parent last : ptr) (fl : Z) :
  LF_ISSET fl WT_REC_SINGLE ≠ 0 → reads (__rec_sub_excl_col fuel parent last fl).
Proof.
  intros Hs. revert parent last. induction fuel as [|fuel IH]; intros parent last; [done|].
  cbn [__rec_sub_excl_col]. unfold excl_col_body.
  pose proof (reads_rec_sub_excl_page (S fuel)) as Hp.
  repeat first [apply Hp; exact Hs | apply IH | reads_step].
Qed.

(** X4.  Under WT_REC_SINGLE the review takes no lock and releases none:
    whenever [__rec_review] returns, the state is the one it started from. *)
Theorem rec_review_single_reads (fuel : nat) (page : ptr) (fl : Z) (s : St)
    (e : Z) (s' : St) :
  LF_ISSET fl WT_REC_SINGLE ≠ 0 →
  __rec_review fuel page fl s = Ret e s' →
  s' = s.
Proof.
  intros Hs. revert s e s'. change (reads (__rec_review fuel page fl)).
  unfold __rec_review, __rec_sub_excl_clear.
  repeat first [apply reads_rec_sub_excl_row; exact Hs
               | apply reads_rec_sub_excl_col; exact Hs | reads_step].
Qed.

Lemma rec_review_single_reads_witness :
  ∃ s', __rec_review 5 100 WT_REC_SINGLE st_dirty_split_child = Ret 1 s' ∧
        s' = st_dirty_split_child.
Proof.
  eexists. split; [vm_compute; reflexivity|].
  apply (rec_review_single_reads 5 100 WT_REC_SINGLE st_dirty_split_child 1).
  - vm_compute. discriminate.
  - vm_compute; reflexivity.
Defined.

Lemma hazard_exclusive_frame_witness :
  ∃ s', __hazard_exclusive 1 (SlotRef 50 0) 0 st_reader = Ret 1 s' ∧
        lookup_ref (SlotRef 50 0) s' = Some (MkRef WT_REF_MEM 100 11 12) ∧
        lookup_ref RootRef s' = lookup_ref RootRef st_reader ∧
        erase s' = erase st_reader ∧
        conn_hazard s' = conn_hazard st_reader.
Proof.
  eexists. split; [vm_compute; reflexivity|].
  match goal with |- lookup_ref _ ?s' = _ ∧ _ =>
    destruct (hazard_exclusive_frame 1 (SlotRef 50 0) 0 st_reader 1 s')
      as (_ & (x & Hx & Hx') & Hother & Herase & Henv & _)
  end.
  - vm_compute; reflexivity.
  - split.
    + rewrite Hx'. vm_compute in Hx. by injection Hx as <-.
    + split; [by apply Hother|]. split; [exact Herase|]. by apply Henv.
Defined.

(** ** The review changes reference states only *)

(** X5.  Whatever [__rec_review] returns, it has changed reference states and
    hazard arrays only: the same pages are in memory, with their type, number
    of slots, parent, parent reference, flags, modify record and read
    generation; every reference has its page, address and size; nothing is
    discarded and no answer of a collaborator is consumed. *)
Theorem rec_review_frame (fuel : nat) (page : ptr) (fl : Z) (s : St)
    (e : Z) (s' : St) :
  __rec_review fuel page fl s = Ret e s' →
  (∀ p, match heap s !! p, heap s' !! p with
        | Some pg, Some pg' =>
            type pg' = type pg ∧ nslots pg' = nslots pg ∧
            parent pg' = parent pg ∧ parent_ref pg' = parent_ref pg ∧
            flags pg' = flags pg ∧ modify pg' = modify pg ∧
            read_gen pg' = read_gen pg
        | None, None => True
        | _, _ => False
        end) ∧
  (∀ r, match lookup_ref r s, lookup_ref r s' with
        | Some x, Some x' =>
            ref_page x' = ref_page x ∧ ref_addr x' = ref_addr x ∧
            ref_size x' = ref_size x
        | None, None => True
        | _, _ => False
        end) ∧
  discarded s' = discarded s ∧ cache_read_gen s' = cache_read_gen s ∧
  rec_answers s' = rec_answers s ∧ track_answers s' = track_answers s ∧
  setmod_answers s' = setmod_answers s.
Proof.
  intros Hrun. pose proof (frames_rec_review _ _ _ _ _ _ Hrun) as Hfr.
  split; [|split].
  - intros p. pose proof (erase_heap_lookup s s' p Hfr) as Hp.
    destruct (heap s !! p) as [pg|], (heap s' !! p) as [pg'|]; simpl in Hp; try done.
    injection Hp as Hp. pose proof (erase_page_u _ _ Hp) as Hu.
    apply erase_page_fields in Hp as (? & ? & ? & ? & ? & ?).
    repeat (split; [done|]). split; [|done].
    unfold nslots. destruct (u pg'), (u pg); try done;
      apply (f_equal length) in Hu; by rewrite !length_fmap in Hu.
  - intros r. pose proof (erase_lookup_ref s s' r Hfr) as Hr.
    destruct (lookup_ref r s) as [x|], (lookup_ref r s') as [x'|]; simpl in Hr; try done.
    injection Hr as ? ? ?. done.
  - repeat split.
    + exact (f_equal discarded Hfr).
    + exact (f_equal cache_read_gen Hfr).
    + exact (f_equal rec_answers Hfr).
    + exact (f_equal track_answers Hfr).
    + exact (f_equal setmod_answers Hfr).
Qed.

Lemma rec_review_frame_witness :
  ∃ s', __rec_review 2 100 0 st_dirty_split_child = Ret 1 s' ∧
        (∃ pg', heap s' !! 200 = Some pg' ∧ flags pg' = WT_PAGE_REC_SPLIT ∧
                modify pg' = Some a_dirty) ∧
        discarded s' = [].
Proof.
  eexists. split; [vm_compute; reflexivity|].
  match goal with |- (∃ pg', heap ?s' !! _ = _ ∧ _) ∧ _ =>
    destruct (rec_review_frame 2 100 0 st_dirty_split_child 1 s')
      as (Hpages & _ & Hd & _); [vm_compute; reflexivity|];
    specialize (Hpages 200);
    change (heap st_dirty_split_child !! 200)
      with (Some (leaf WT_PAGE_REC_SPLIT (Some a_dirty) 0)) in Hpages;
    destruct (heap s' !! 200) as [pg'|] eqn:Hp'; [|done]
  end.
  split; [|exact Hd].
  exists pg'. destruct Hpages as (_ & _ & _ & _ & Hf & Hm & _). done.
Defined.

(** ** What the discard walk leaves alone *)

Lemma discards_refl (s : St) : discards [] s s.
Proof.
  unfold discards. rewrite app_nil_r. split; [done|]. split; [constructor|].
  split; [by intros p ?%elem_of_nil|]. split.
  { intros p. destruct (decide (p ∈ [])) as [?%elem_of_nil|]; done. }
  repeat (split; [done|]). by exists [].
Qed.

Lemma discards_trans (l1 l2 : list ptr) (s s1 s2 : St) :
  discards l1 s s1 → discards l2 s1 s2 → discards (l1 ++ l2) s s2.
Proof.
  intros (Hd1 & Hn1 & Hi1 & Hh1 & Hr1 & Hc1 & Hk1 & Hrd1 & Hg1 & Ha1 & Hm1 & ct1 & Ht1)
         (Hd2 & Hn2 & Hi2 & Hh2 & Hr2 & Hc2 & Hk2 & Hrd2 & Hg2 & Ha2 & Hm2 & ct2 & Ht2).
  assert (Hdisj : ∀ p, p ∈ l2 → p ∉ l1).
  { intros p Hp2 Hp1. apply Hi2 in Hp2. rewrite Hh1 in Hp2.
    destruct (decide (p ∈ l1)); [by destruct Hp2 | done]. }
  split; [by rewrite Hd2, Hd1, app_assoc|].
  split; [apply NoDup_app; split; [done|split; [|done]]; intros p H1 H2; by apply (Hdisj p)|].
  split.
  { intros p [Hp|Hp]%elem_of_app; [by apply Hi1|].
    pose proof (Hi2 p Hp) as Hs. rewrite Hh1 in Hs.
    destruct (decide (p ∈ l1)); [by destruct Hs | done]. }
  split.
  { intros p. rewrite Hh2, Hh1.
    destruct (decide (p ∈ l2)), (decide (p ∈ l1)), (decide (p ∈ l1 ++ l2)) as [|Hn];
      try done; try (exfalso; apply Hn; apply elem_of_app; tauto).
    apply elem_of_app in e as [|]; done. }
  repeat (split; [congruence|]).
  exists (ct1 ++ ct2). by rewrite Ht1, Ht2, app_assoc.
Qed.

Lemma removing_reads {A : Type} (m : M A) : reads m → removing m.
Proof. intros Hr s a s' Hrun. apply Hr in Hrun as ->. exists []. apply discards_refl. Qed.

Lemma removing_bind {A B : Type} (m : M A) (k : A → M B) :
  removing m → (∀ a, removing (k a)) → removing (bind m k).
Proof.
  intros Hm Hk s b s' (a & s1 & H1 & H2)%bind_Ret.
  destruct (Hm _ _ _ H1) as [l1 Hl1], (Hk _ _ _ _ H2) as [l2 Hl2].
  exists (l1 ++ l2). by eapply discards_trans.
Qed.

Lemma removing_foreach {A B : Type} (body : nat → A → M (step A B))
    (idx : list nat) (a : A) :
  (∀ i a, removing (body i a)) → removing (foreach body idx a).
Proof.
  intros Hb. revert a. induction idx as [|i idx IH]; intros a; simpl.
  - apply removing_reads, reads_ret.
  - apply removing_bind; [apply Hb|].
    intros [a'|b]; [apply IH | apply removing_reads, reads_ret].
Qed.

Lemma rec_discard_page_discards (page : ptr) (s : St) (e : Z) (s' : St) :
  __rec_discard_page page s = Ret e s' →
  discards (if decide (e = 0) then [page] else []) s s'.
Proof.
  intros Hrun.
  assert (∃ pg, heap s !! page = Some pg) as [pg Hp].
  { unfold __rec_discard_page, bind at 1, get_page in Hrun.
    destruct (heap s !! page); [by eexists | done]. }
  destruct (rec_discard_page_run page s pg e s' Hp Hrun)
    as [(He & Hs' & Hz)|(Hne & Hm & rest & Hrest & Hs')]; clear Hrun; subst s'.
  - subst e. destruct (decide (0 = 0)); [|done]. unfold discards. simpl.
    assert (Hcommon : ∀ s0 : St, heap s0 = heap s →
              ∀ p, delete page (heap s0) !! p =
                   (if decide (p ∈ [page]) then None else heap s !! p)).
    { intros s0 -> p. destruct (decide (p ∈ [page])) as [->%list_elem_of_singleton|Hn].
      - apply lookup_delete_eq.
      - apply lookup_delete_ne. intros ->. apply Hn. by apply list_elem_of_singleton. }
    destruct (decide (modify pg ≠ None)) as [Hm|Hm]; simpl.
    + destruct (Hz Hm) as [rest Hrest]. rewrite Hrest. simpl.
      split; [done|]. split; [apply NoDup_singleton|].
      split; [by intros p ->%list_elem_of_singleton|].
      split; [by apply Hcommon|]. repeat (split; [done|]). by exists [0].
    + split; [done|]. split; [apply NoDup_singleton|].
      split; [by intros p ->%list_elem_of_singleton|].
      split; [by apply Hcommon|]. repeat (split; [done|]). by exists [].
  - destruct (decide (e = 0)); [done|]. unfold discards. simpl. rewrite app_nil_r.
    split; [done|]. split; [constructor|]. split; [by intros p ?%elem_of_nil|].
    split. { intros p. destruct (decide (p ∈ [])) as [?%elem_of_nil|]; done. }
    repeat (split; [done|]). by exists [e].
Qed.

(** X14.  Whenever [__rec_discard_page] returns, the page was in memory.  On 0
    the page has left memory and is the one page added to the discard trace;
    on an error it is still in memory and nothing is discarded.  A page
    without modify record is never drained: the result is 0 and no drain
    answer is consumed.  A page with one consumes one drain answer, which is
    the value returned. *)
Theorem rec_discard_page_spec (page : ptr) (s : St) (e : Z) (s' : St) :
  __rec_discard_page page s = Ret e s' →
  ∃ pg, heap s !! page = Some pg ∧
        discards (if decide (e = 0) then [page] else []) s s' ∧
        (modify pg = None → e = 0 ∧ track_answers s' = track_answers s) ∧
        (modify pg ≠ None → track_answers s = e :: track_answers s').
Proof.
  intros Hrun.
  assert (∃ pg, heap s !! page = Some pg) as [pg Hp].
  { unfold __rec_discard_page, bind at 1, get_page in Hrun.
    destruct (heap s !! page); [by eexists | done]. }
  exists pg. split; [done|]. split; [by apply rec_discard_page_discards|].
  destruct (rec_discard_page_run page s pg e s' Hp Hrun)
    as [(He & Hs' & Hz)|(Hne & Hm & rest & Hrest & Hs')]; subst s'.
  - subst e. split.
    + intros Hm. split; [done|]. destruct (decide (modify pg ≠ None)); done.
    + intros Hm. destruct (Hz Hm) as [rest Hrest].
      destruct (decide (modify pg ≠ None)); [|done]. simpl. by rewrite Hrest.
  - split; [done|]. intros _. simpl. done.
Qed.

Lemma rec_discard_page_spec_witness :
  ∃ s', __rec_discard_page 100 st_discard_fails = Ret 5 s' ∧
        heap s' !! 100 = Some (candidate_leaf 0 (Some a_clean)) ∧
        discarded s' = [] ∧
        track_answers st_discard_fails = 5 :: track_answers s'.
Proof.
  eexists. split; [vm_compute; reflexivity|].
  match goal with |- heap ?s' !! _ = _ ∧ _ =>
    destruct (rec_discard_page_spec 100 st_discard_fails 5 s')
      as (pg & Hp & (Hd & _ & _ & Hh & _) & _ & Ht); [vm_compute; reflexivity|]
  end.
  split; [|split].
  - rewrite Hh. destruct (decide (100 ∈ [])) as [Hin|_]; [by apply elem_of_nil in Hin|].
    vm_compute; reflexivity.
  - exact Hd.
  - assert (Hm : modify pg ≠ None).
    { change (heap st_discard_fails !! 100) with (Some (candidate_leaf 0 (Some a_clean))) in Hp.
      injection Hp as <-. done. }
    exact (Ht Hm).
Defined.

Lemma removing_rec_discard_page (page : ptr) : removing (__rec_discard_page page).
Proof. intros s e s' Hrun. eexists. by apply rec_discard_page_discards. Qed.

Lemma removing_discard_body {T : Type} `{HasRef T} (get_slot : ptr → nat → M T)
    (ty0 : page_type) (rec : ptr → M Z) (parent : ptr) (i : nat) :
  reads (get_slot parent i) → (∀ p, removing (rec p)) →
  removing
    (c <- get_slot parent i ;;
     if decide (ref_state (ref c) ≠ WT_REF_DISK) then
       let page := ref_page (ref c) in
       ty <- page_type_of page ;;
       e <- (if decide (ty = ty0) then rec page else ret 0) ;;
       if decide (e ≠ 0) then ret (Return e)
       else
         e <- __rec_discard_page page ;;
         if decide (e ≠ 0) then ret (Return e) else ret (Next tt)
     else ret (Next tt)).
Proof.
  intros Hq Hrec. apply removing_bind; [by apply removing_reads|]. intros c.
  destruct (decide _); [|apply removing_reads, reads_ret]. cbn zeta.
  apply removing_bind; [apply removing_reads, reads_page_type_of|]. intros ty.
  apply removing_bind.
  { destruct (decide _); [apply Hrec | apply removing_reads, reads_ret]. }
  intros e. destruct (decide _); [apply removing_reads, reads_ret|].
  apply removing_bind; [apply removing_rec_discard_page|].
  intros e'. destruct (decide _); apply removing_reads, reads_ret.
Qed.

Lemma removing_rec_sub_discard_row (fuel : nat) (parent : ptr) :
  removing (__rec_sub_discard_row fuel parent).
Proof.
  revert parent. induction fuel as [|fuel IH]; intros parent; [done|].
  cbn [__rec_sub_discard_row].
  apply removing_bind; [apply removing_reads, reads_row_slots|]. intros idx.
  apply removing_bind.
  - apply removing_foreach. intros i [].
    apply (removing_discard_body get_row_slot WT_PAGE_ROW_INT);
      [apply reads_get_row_slot | done].
  - intros [[]|e]; apply removing_reads, reads_ret.
Qed.

Lemma removing_rec_sub_discard_col (fuel : nat) (parent : ptr) :
  removing (__rec_sub_discard_col fuel parent).
Proof.
  revert parent. induction fuel as [|fuel IH]; intros parent; [done|].
  cbn [__rec_sub_discard_col].
  apply removing_bind; [apply removing_reads, reads_col_slots|]. intros idx.
  apply removing_bind.
  - apply removing_foreach. intros i [].
    apply (removing_discard_body get_col_slot WT_PAGE_COL_INT);
      [apply reads_get_col_slot | done].
  - intros [[]|e]; apply removing_reads, reads_ret.
Qed.

Lemma removing_rec_sub_discard (fuel : nat) (page : ptr) :
  removing (__rec_sub_discard fuel page).
Proof.
  unfold __rec_sub_discard.
  apply removing_bind; [apply removing_reads, reads_page_type_of|].
  intros []; try apply removing_reads, reads_ret;
    [apply removing_rec_sub_discard_col | apply removing_rec_sub_discard_row].
Qed.

(** X6.  Whenever [__rec_sub_discard] returns, with whatever code, all it has
    done is discard pages: the pages added to the discard trace were in
    memory, are pairwise distinct and have left memory; every other page, the
    root reference, the hazard arrays and the answers of the reconciler are
    as before, and of the drain answers a prefix is consumed. *)
Theorem rec_sub_discard_frame (fuel : nat) (page : ptr) (s : St) (e : Z) (s' : St) :
  __rec_sub_discard fuel page s = Ret e s' → ∃ l, discards l s s'.
Proof. apply removing_rec_sub_discard. Qed.

Lemma rec_sub_discard_frame_witness :
  ∃ s', __rec_sub_discard 1 100 st_replace_internal = Ret 0 s' ∧
        discards [200] st_replace_internal s'.
Proof.
  eexists. split; [vm_compute; reflexivity|].
  match goal with |- discards _ _ ?s' =>
    destruct (rec_sub_discard_frame 1 100 st_replace_internal 0 s') as [l Hl];
      [vm_compute; reflexivity|]
  end.
  assert (l = [200]) as ->; [|exact Hl].
  destruct Hl as (Hd & _). change ([200] = [] ++ l) in Hd. by simpl in Hd.
Defined.

(** ** What a successful review leaves locked *)

(** The loop bodies of the two review walks are instances of [excl_body]. *)
Lemma excl_row_body_generic :
  excl_row_body = excl_body get_row_slot WT_PAGE_ROW_INT.
Proof. reflexivity. Qed.

Lemma excl_col_body_generic :
  excl_col_body = excl_body get_col_slot WT_PAGE_COL_INT.
Proof. reflexivity. Qed.

Lemma keeps_ok_reads {A : Type} (code : A → Z) (P : St → Prop) (m : M A) :
  reads m → keeps_ok code P m.
Proof. intros Hr s a s' HP Hrun _. by apply Hr in Hrun as ->. Qed.

Lemma keeps_ok_bind {A B : Type} (codeA : A → Z) (code : B → Z) (P : St → Prop)
    (m : M A) (k : A → M B) :
  keeps_ok codeA P m →
  (∀ a, codeA a = 0 → keeps_ok code P (k a)) →
  (∀ a s b s', codeA a ≠ 0 → k a s = Ret b s' → code b ≠ 0) →
  keeps_ok code P (bind m k).
Proof.
  intros Hm Hk Herr s b s' HP (a & s1 & H1 & H2)%bind_Ret Hb.
  destruct (decide (codeA a = 0)) as [Ha|Ha].
  - eapply Hk; [done| |done..]. by eapply Hm.
  - by destruct (Herr _ _ _ _ Ha H2).
Qed.

(** A bind after a run whose result carries no code. *)
Lemma keeps_ok_bind_reads {A B : Type} (code : B → Z) (P : St → Prop)
    (m : M A) (k : A → M B) :
  reads m → (∀ a, keeps_ok code P (k a)) → keeps_ok code P (bind m k).
Proof.
  intros Hm Hk. apply (keeps_ok_bind (λ _, 0)); [by apply keeps_ok_reads|by intros|done].
Qed.

Lemma keeps_ok_foreach {A : Type} (P : St → Prop)
    (body : nat → A → M (step A (Z * ptr))) (idx : list nat) (a : A) :
  (∀ i a, keeps_ok walk_code P (body i a)) →
  keeps_ok walk_code P (foreach body idx a).
Proof.
  intros Hb. revert a. induction idx as [|i idx IH]; intros a; simpl.
  - apply keeps_ok_reads, reads_ret.
  - apply (keeps_ok_bind walk_code); [apply Hb| |].
    + intros [a'|x] _; [apply IH | apply keeps_ok_reads, reads_ret].
    + intros [a'|x] s b s' Hne; [done|]. by intros [= <- _].
Qed.

Lemma keeps_ok_hazard_exclusive (Q : wt_state → Prop) (r r' : ref_ptr)
    (fuel : nat) (force : Z) :
  Q WT_REF_LOCKED →
  keeps_ok id (state_in Q r) (__hazard_exclusive fuel r' force).
Proof.
  intros HQ s e s' (y & Hy & HQy) Hrun He. unfold id in He. subst e.
  unfold __hazard_exclusive in Hrun.
  apply bind_Ret in Hrun as (a & s1 & Hset & Hrun).
  apply set_ref_state_Ret in Hset as (x & Hx & ->).
  eapply hazard_retry_frame in Hrun as (H1 & H2 & _); [|by eapply lookup_store_ref].
  destruct H1 as [[_ H1]|[? _]]; [|done].
  destruct (decide (r = r')) as [->|Hne].
  - exists (with_state WT_REF_LOCKED x). done.
  - exists y. split; [|done]. rewrite H2 by done. by rewrite lookup_store_ref_ne.
Qed.

(** A granted request leaves the reference LOCKED. *)
Lemma hazard_exclusive_granted (fuel : nat) (r : ref_ptr) (force : Z) (s s' : St) :
  __hazard_exclusive fuel r force s = Ret 0 s' →
  state_in (λ st, st = WT_REF_LOCKED) r s'.
Proof.
  unfold __hazard_exclusive. intros (a & s1 & Hset & Hrun)%bind_Ret.
  apply set_ref_state_Ret in Hset as (x & Hx & ->).
  eapply hazard_retry_frame in Hrun as (H1 & _); [|by eapply lookup_store_ref].
  destruct H1 as [[_ H1]|[? _]]; [|done]. by eexists.
Qed.

Lemma keeps_ok_rec_sub_excl_page (Q : wt_state → Prop) (r r' : ref_ptr)
    (fuel : nat) (page : ptr) (fl : Z) :
  Q WT_REF_LOCKED →
  keeps_ok id (state_in Q r) (__rec_sub_excl_page fuel r' page fl).
Proof.
  intros HQ. unfold __rec_sub_excl_page.
  apply keeps_ok_bind_reads; [apply reads_get_page|]. intros pg.
  destruct (decide _); [apply keeps_ok_reads, reads_ret|].
  apply (keeps_ok_bind id).
  - destruct (decide _); [by apply keeps_ok_hazard_exclusive | apply keeps_ok_reads, reads_ret].
  - intros e He. unfold id in He. subst e. destruct (decide (0 ≠ 0)); [done|].
    apply keeps_ok_reads. apply reads_bind; [apply reads_get_page|]. intros pg'.
    repeat (destruct (decide _)); try destruct (__wt_page_is_modified _); apply reads_ret.
  - intros e s b s' He. unfold id in *. destruct (decide (e ≠ 0)); [|done].
    by intros [= <- _].
Qed.

Section walk.

Context {T : Type} `{HasRef T}.
Variable get_slot : ptr → nat → M T.
Variable ty0 : page_type.
Hypothesis reads_get_slot : ∀ p i, reads (get_slot p i).

Lemma keeps_ok_excl_body (Q : wt_state → Prop) (r : ref_ptr) (fuel : nat)
    (rec : ptr → ptr → M (Z * ptr)) (parent : ptr) (fl : Z) (i : nat) (last : ptr) :
  Q WT_REF_LOCKED →
  (∀ p l, keeps_ok fst (state_in Q r) (rec p l)) →
  keeps_ok walk_code (state_in Q r) (excl_body get_slot ty0 fuel rec parent fl i last).
Proof.
  intros HQ Hrec. unfold excl_body.
  apply keeps_ok_bind_reads; [apply reads_get_slot|]. intros c.
  destruct (ref_state (ref c)); try (apply keeps_ok_reads, reads_ret).
  cbv zeta. apply (keeps_ok_bind id); [by apply keeps_ok_rec_sub_excl_page| |].
  - intros e He. unfold id in He. subst e. destruct (decide (0 ≠ 0)); [done|].
    apply keeps_ok_bind_reads; [apply reads_page_type_of|]. intros ty.
    destruct (decide _); [|apply keeps_ok_reads, reads_ret].
    apply (keeps_ok_bind fst); [apply Hrec| |].
    + intros x Hx. destruct (decide _); [done|]. apply keeps_ok_reads, reads_ret.
    + intros x s b s' Hx. destruct (decide _); [|done]. by intros [= <- _].
  - intros e s b s' He. unfold id in *. destruct (decide (e ≠ 0)); [|done].
    by intros [= <- _].
Qed.

(** A pass that goes on leaves its slot on disk or locked. *)
Lemma excl_body_next (fuel : nat) (rec : ptr → ptr → M (Z * ptr))
    (parent : ptr) (fl : Z) (i : nat) (last : ptr) (s : St) (a : ptr) (s' : St) :
  LF_ISSET fl WT_REC_SINGLE = 0 →
  (∀ c s0, get_slot parent i s0 = Ret c s0 → lookup_ref (SlotRef parent i) s0 = Some (ref c)) →
  (∀ p l, keeps_ok fst (state_in disk_or_locked (SlotRef parent i)) (rec p l)) →
  excl_body get_slot ty0 fuel rec parent fl i last s = Ret (Next a) s' →
  state_in disk_or_locked (SlotRef parent i) s'.
Proof.
  intros Hs Hslot Hrec. unfold excl_body.
  intros (c & s0 & Hc & Hrun)%bind_Ret.
  pose proof (reads_get_slot _ _ _ _ _ Hc) as ->.
  destruct (ref_state (ref c)) eqn:Hst; try done.
  - injection Hrun as _ <-. exists (ref c). split; [by apply Hslot | by left].
  - cbv zeta in Hrun. apply bind_Ret in Hrun as (e & s1 & Hp & Hrun).
    destruct (decide (e ≠ 0)); [done|]. assert (e = 0) as -> by lia.
    assert (Hl : state_in disk_or_locked (SlotRef parent i) s1).
    { unfold __rec_sub_excl_page in Hp.
      apply bind_Ret in Hp as (pg & s2 & Hg & Hp).
      apply get_page_Ret in Hg as [_ ->].
      destruct (decide _); [done|].
      apply bind_Ret in Hp as (e & s2 & Hh & Hp).
      destruct (decide (LF_ISSET fl WT_REC_SINGLE = 0)); [|done].
      destruct (decide (e ≠ 0)); [by injection Hp as ? _|].
      assert (e = 0) as -> by lia.
      apply hazard_exclusive_granted in Hh as (y & Hy & Hst').
      assert (s1 = s2) as ->.
      { apply bind_Ret in Hp as (pg' & s3 & Hg & Hp).
        apply get_page_Ret in Hg as [_ ->].
        repeat (destruct (decide _)); try destruct (__wt_page_is_modified _);
          unfold ret in Hp; by simplify_eq. }
      exists y. split; [done | by right]. }
    apply bind_Ret in Hrun as (ty & s2 & Hty & Hrun).
    pose proof (reads_page_type_of _ _ _ _ Hty) as ->.
    destruct (decide (ty = ty0)); [|by injection Hrun as _ <-].
    apply bind_Ret in Hrun as (x & s2 & Hx & Hrun).
    destruct (decide (x.1 ≠ 0)); [done|]. injection Hrun as _ <-.
    eapply Hrec; [exact Hl | exact Hx | lia].
Qed.

(** A pass that returns from the walk returns a non-zero code. *)
Lemma excl_body_return (fuel : nat) (rec : ptr → ptr → M (Z * ptr))
    (parent : ptr) (fl : Z) (i : nat) (last : ptr) (s : St) (x : Z * ptr) (s' : St) :
  excl_body get_slot ty0 fuel rec parent fl i last s = Ret (Return x) s' → x.1 ≠ 0.
Proof.
  unfold excl_body. intros (c & s0 & Hc & Hrun)%bind_Ret.
  destruct (ref_state (ref c)); try done; try (by injection Hrun as <- _).
  cbv zeta in Hrun. apply bind_Ret in Hrun as (e & s1 & Hp & Hrun).
  destruct (decide (e ≠ 0)); [by injection Hrun as <- _|].
  apply bind_Ret in Hrun as (ty & s2 & Hty & Hrun).
  destruct (decide (ty = ty0)); [|done].
  apply bind_Ret in Hrun as (y & s3 & Hx & Hrun).
  destruct (decide (y.1 ≠ 0)); [by injection Hrun as <- _ | done].
Qed.

Lemma foreach_excl_body (fuel : nat) (rec : ptr → ptr → M (Z * ptr))
    (parent : ptr) (fl : Z) (idx : list nat) (last : ptr) (s : St)
    (x : step ptr (Z * ptr)) (s' : St) :
  LF_ISSET fl WT_REC_SINGLE = 0 →
  (∀ i c s0, get_slot parent i s0 = Ret c s0 →
     lookup_ref (SlotRef parent i) s0 = Some (ref c)) →
  (∀ r p l, keeps_ok fst (state_in disk_or_locked r) (rec p l)) →
  foreach (excl_body get_slot ty0 fuel rec parent fl) idx last s = Ret x s' →
  walk_code x = 0 →
  ∀ i, i ∈ idx → state_in disk_or_locked (SlotRef parent i) s'.
Proof.
  intros Hs Hslot Hrec. revert last s.
  induction idx as [|j idx IH]; intros last s Hrun Hx i Hi; [by apply elem_of_nil in Hi|].
  simpl in Hrun. apply bind_Ret in Hrun as (y & s1 & Hb & Hrun).
  destruct y as [a|y].
  - apply elem_of_cons in Hi as [->|Hi]; [|by eapply IH].
    eapply (keeps_ok_foreach (state_in disk_or_locked (SlotRef parent j)));
      [| |exact Hrun|exact Hx].
    + intros k a'. apply keeps_ok_excl_body; [by right | apply Hrec].
    + eapply excl_body_next; [done|apply Hslot|apply Hrec|exact Hb].
  - injection Hrun as <- <-. apply excl_body_return in Hb. done.
Qed.

End walk.

Lemma keeps_ok_walk_end (P : St → Prop) (x : step ptr (Z * ptr)) :
  keeps_ok fst P (match x with
                  | Next last => ret (0, last)
                  | Return x => ret x
                  end).
Proof. destruct x; apply keeps_ok_reads, reads_ret. Qed.

Lemma walk_end_code (x : step ptr (Z * ptr)) (s : St) (b : Z * ptr) (s' : St) :
  match x with
  | Next last => ret (0, last)
  | Return x => ret x
  end s = Ret b s' → b.1 = walk_code x ∧ s' = s.
Proof. destruct x; by intros [= <- <-]. Qed.

Lemma keeps_ok_rec_sub_excl_row (Q : wt_state → Prop) (r : ref_ptr) (fuel : nat)
    (parent last : ptr) (fl : Z) :
  Q WT_REF_LOCKED →
  keeps_ok fst (state_in Q r) (__rec_sub_excl_row fuel parent last fl).
Proof.
  intros HQ. revert parent last. induction fuel as [|fuel IH]; intros parent last; [done|].
  cbn [__rec_sub_excl_row].
  apply keeps_ok_bind_reads; [apply reads_row_slots|]. intros idx.
  apply (keeps_ok_bind walk_code).
  - apply keeps_ok_foreach. intros i a.
    apply (keeps_ok_excl_body get_row_slot WT_PAGE_ROW_INT reads_get_row_slot);
      [done|]. intros p l. apply IH.
  - intros x _. apply keeps_ok_walk_end.
  - intros x s b s' Hx [Hb _]%walk_end_code. by rewrite Hb.
Qed.

Lemma keeps_ok_rec_sub_excl_col (Q : wt_state → Prop) (r : ref_ptr) (fuel : nat)
    (parent last : ptr) (fl : Z) :
  Q WT_REF_LOCKED →
  keeps_ok fst (state_in Q r) (__rec_sub_excl_col fuel parent last fl).
Proof.
  intros HQ. revert parent last. induction fuel as [|fuel IH]; intros parent last; [done|].
  cbn [__rec_sub_excl_col].
  apply keeps_ok_bind_reads; [apply reads_col_slots|]. intros idx.
  apply (keeps_ok_bind walk_code).
  - apply keeps_ok_foreach. intros i a.
    apply (keeps_ok_excl_body get_col_slot WT_PAGE_COL_INT reads_get_col_slot);
      [done|]. intros p l. apply IH.
  - intros x _. apply keeps_ok_walk_end.
  - intros x s b s' Hx [Hb _]%walk_end_code. by rewrite Hb.
Qed.

Lemma get_row_slot_lookup (parent : ptr) (i : nat) (c : WT_ROW_REF) (s : St) :
  get_row_slot parent i s = Ret c s → lookup_ref (SlotRef parent i) s = Some (ref c).
Proof.
  unfold get_row_slot, bind, get_page, lookup_ref, slot_ref.
  destruct (heap s !! parent) as [pg|]; [|done]. simpl.
  destruct (u pg); try done. destruct (_ !! i); [|done]. by intros [= ->].
Qed.

Lemma get_col_slot_lookup (parent : ptr) (i : nat) (c : WT_COL_REF) (s : St) :
  get_col_slot parent i s = Ret c s → lookup_ref (SlotRef parent i) s = Some (ref c).
Proof.
  unfold get_col_slot, bind, get_page, lookup_ref, slot_ref.
  destruct (heap s !! parent) as [pg|]; [|done]. simpl.
  destruct (u pg); try done. destruct (_ !! i); [|done]. by intros [= ->].
Qed.

Lemma rec_sub_excl_row_locks (fuel : nat) (parent last : ptr) (fl : Z) (s : St)
    (x : Z * ptr) (s' : St) :
  LF_ISSET fl WT_REC_SINGLE = 0 →
  __rec_sub_excl_row fuel parent last fl s = Ret x s' → x.1 = 0 →
  ∀ i y, lookup_ref (SlotRef parent i) s = Some y →
         state_in disk_or_locked (SlotRef parent i) s'.
Proof.
  intros Hs Hrun Hx i y Hy. destruct fuel as [|fuel]; [done|].
  cbn [__rec_sub_excl_row] in Hrun.
  apply bind_Ret in Hrun as (idx & s0 & Hidx & Hrun).
  pose proof (reads_row_slots _ _ _ _ Hidx) as ->.
  apply bind_Ret in Hrun as (z & s1 & Hwalk & Hend).
  apply walk_end_code in Hend as [Hc ->].
  eapply (foreach_excl_body get_row_slot WT_PAGE_ROW_INT reads_get_row_slot);
    [exact Hs| | |exact Hwalk|congruence|].
  - intros j c s0. apply get_row_slot_lookup.
  - intros r p l. apply keeps_ok_rec_sub_excl_row. by right.
  - unfold row_slots, bind, get_page in Hidx. simpl in Hy.
    destruct (heap s !! parent) as [pg|]; [|done]. simpl in Hy. unfold slot_ref in Hy.
    destruct (u pg) as [|t| |t|]; try done. injection Hidx as <-.
    apply elem_of_seq. destruct (t !! i) eqn:Hi; [|done].
    apply lookup_lt_Some in Hi. lia.
Qed.

Lemma rec_sub_excl_col_locks (fuel : nat) (parent last : ptr) (fl : Z) (s : St)
    (x : Z * ptr) (s' : St) :
  LF_ISSET fl WT_REC_SINGLE = 0 →
  __rec_sub_excl_col fuel parent last fl s = Ret x s' → x.1 = 0 →
  ∀ i y, lookup_ref (SlotRef parent i) s = Some y →
         state_in disk_or_locked (SlotRef parent i) s'.
Proof.
  intros Hs Hrun Hx i y Hy. destruct fuel as [|fuel]; [done|].
  cbn [__rec_sub_excl_col] in Hrun.
  apply bind_Ret in Hrun as (idx & s0 & Hidx & Hrun).
  pose proof (reads_col_slots _ _ _ _ Hidx) as ->.
  apply bind_Ret in Hrun as (z & s1 & Hwalk & Hend).
  apply walk_end_code in Hend as [Hc ->].
  eapply (foreach_excl_body get_col_slot WT_PAGE_COL_INT reads_get_col_slot);
    [exact Hs| | |exact Hwalk|congruence|].
  - intros j c s0. apply get_col_slot_lookup.
  - intros r p l. apply keeps_ok_rec_sub_excl_col. by right.
  - unfold col_slots, bind, get_page in Hidx. simpl in Hy.
    destruct (heap s !! parent) as [pg|]; [|done]. simpl in Hy. unfold slot_ref in Hy.
    destruct (u pg) as [|t| |t|]; try done. injection Hidx as <-.
    apply elem_of_seq. destruct (t !! i) eqn:Hi; [|done].
    apply lookup_lt_Some in Hi. lia.
Qed.

(** X10.  When [__rec_review] returns 0 outside WT_REC_SINGLE, the
    candidate's parent reference is LOCKED and every slot of the candidate is
    on disk or LOCKED. *)
Theorem rec_review_locks (fuel : nat) (page : ptr) (fl : Z) (s : St)
    (pg : WT_PAGE) (s' : St) :
  heap s !! page = Some pg →
  LF_ISSET fl WT_REC_SINGLE = 0 →
  __rec_review fuel page fl s = Ret 0 s' →
  state_in (λ st, st = WT_REF_LOCKED) (parent_ref pg) s' ∧
  ∀ i y, lookup_ref (SlotRef page i) s = Some y →
         state_in disk_or_locked (SlotRef page i) s'.
Proof.
  intros Hp Hs. unfold __rec_review.
  rewrite (bind_run _ _ _ _ pg) by (by apply get_page_run).
  destruct (decide (LF_ISSET fl WT_REC_SINGLE = 0)) as [_|]; [|done].
  intros (e & s1 & Hh & Hrun)%bind_Ret.
  destruct (decide (e ≠ 0)) as [|He0]; [by injection Hrun as ? _|].
  assert (e = 0) as -> by lia.
  pose proof (hazard_exclusive_granted _ _ _ _ _ Hh) as Hlocked.
  pose proof (frames_hazard_exclusive _ _ _ _ _ _ Hh) as Hfr.
  apply bind_Ret in Hrun as (ty & s0 & Hty & Hrun).
  pose proof (reads_page_type_of _ _ _ _ Hty) as ->.
  apply bind_Ret in Hrun as (x & s2 & Hwalk & Hrun).
  assert (x.1 = 0 ∧ s' = s2) as [Hx ->].
  { apply bind_Ret in Hrun as ([] & s3 & Hc & [= Hx <-]).
    split; [done|]. destruct (decide (x.1 ≠ 0)); [done|]. by injection Hc as <-. }
  assert (Hslot : ∀ i y, lookup_ref (SlotRef page i) s = Some y →
                         ∃ y1, lookup_ref (SlotRef page i) s1 = Some y1).
  { intros i y Hy. pose proof (erase_lookup_ref s s1 (SlotRef page i) Hfr) as He.
    rewrite Hy in He. destruct (lookup_ref (SlotRef page i) s1); [by eexists | done]. }
  destruct ty.
  - injection Hwalk as <- <-. split; [done|]. intros i y Hy.
    destruct (Hslot i y Hy) as [y1 Hy1]. exfalso.
    unfold page_type_of, bind, get_page in Hty. simpl in Hy1.
    destruct (heap s1 !! page) as [pg1|]; [|done]. injection Hty as Hty.
    simpl in Hy1. unfold slot_ref in Hy1. unfold type in Hty. by destruct (u pg1).
  - split.
    + by eapply (keeps_ok_rec_sub_excl_col (λ st, st = WT_REF_LOCKED)).
    + intros i y Hy. destruct (Hslot i y Hy) as [y1 Hy1].
      by eapply rec_sub_excl_col_locks.
  - injection Hwalk as <- <-. split; [done|]. intros i y Hy.
    destruct (Hslot i y Hy) as [y1 Hy1]. exfalso.
    unfold page_type_of, bind, get_page in Hty. simpl in Hy1.
    destruct (heap s1 !! page) as [pg1|]; [|done]. injection Hty as Hty.
    simpl in Hy1. unfold slot_ref in Hy1. unfold type in Hty. by destruct (u pg1).
  - split.
    + by eapply (keeps_ok_rec_sub_excl_row (λ st, st = WT_REF_LOCKED)).
    + intros i y Hy. destruct (Hslot i y Hy) as [y1 Hy1].
      by eapply rec_sub_excl_row_locks.
  - injection Hwalk as <- <-. split; [done|]. intros i y Hy.
    destruct (Hslot i y Hy) as [y1 Hy1]. exfalso.
    unfold page_type_of, bind, get_page in Hty. simpl in Hy1.
    destruct (heap s1 !! page) as [pg1|]; [|done]. injection Hty as Hty.
    simpl in Hy1. unfold slot_ref in Hy1. unfold type in Hty. by destruct (u pg1).
Qed.

Lemma rec_review_locks_witness :
  ∃ s', __rec_review 2 100 0 st_replace_internal = Ret 0 s' ∧
        state_in (λ st, st = WT_REF_LOCKED) (SlotRef 50 0) s' ∧
        state_in disk_or_locked (SlotRef 100 0) s'.
Proof.
  eexists. split; [vm_compute; reflexivity|].
  match goal with |- state_in _ _ ?s' ∧ _ =>
    destruct (rec_review_locks 2 100 0 st_replace_internal
                (internal_100 0 (Some a_dirty) [MkRef WT_REF_MEM 200 21 22]) s')
      as [Hparent Hslots]
  end.
  - vm_compute; reflexivity.
  - vm_compute; reflexivity.
  - vm_compute; reflexivity.
  - split; [exact Hparent|].
    apply (Hslots 0%nat (MkRef WT_REF_MEM 200 21 22)). vm_compute; reflexivity.
Defined.

(** ** The unlock walk below a candidate whose children are leaves *)

(** The loop bodies of the two unlock walks are instances of
    [excl_clear_body]. *)
Lemma excl_row_clear_body_generic :
  excl_row_clear_body = excl_clear_body get_row_slot WT_PAGE_ROW_INT.
Proof. reflexivity. Qed.

Lemma excl_col_clear_body_generic :
  excl_col_clear_body = excl_clear_body get_col_slot WT_PAGE_COL_INT.
Proof. reflexivity. Qed.

Lemma lookup_ref_slot (page : ptr) (i : nat) (s : St) (y : WT_REF) :
  lookup_ref (SlotRef page i) s = Some y ↔
  ∃ pg, heap s !! page = Some pg ∧ slot_ref pg i = Some y.
Proof.
  simpl. destruct (heap s !! page) as [pg|]; simpl.
  - split; [by exists pg | by intros (? & [= <-] & ?)].
  - split; [done | by intros (? & ? & _)].
Qed.

Lemma slot_ref_nslots (pg : WT_PAGE) (i : nat) :
  is_Some (slot_ref pg i) ↔ (i < nslots pg)%nat.
Proof.
  unfold slot_ref, nslots. destruct (u pg) as [|t| |t|];
    rewrite ?fmap_is_Some, ?lookup_lt_is_Some; try done;
    (split; [by intros [? ?] | lia]).
Qed.

Section clear.

Context {T : Type} `{HasRef T}.
Variable get_slot : ptr → nat → M T.
Variable ty0 : page_type.
Hypothesis ty0_internal : ty0 = WT_PAGE_COL_INT ∨ ty0 = WT_PAGE_ROW_INT.
Hypothesis get_slot_run :
  ∀ p i s pg y, heap s !! p = Some pg → type pg = ty0 → slot_ref pg i = Some y →
                ∃ c, get_slot p i s = Ret c s ∧ ref c = y.

Lemma foreach_clear_run (rec : ptr → M Z) (page last : ptr) (pg : WT_PAGE)
    (s0 : St) (n len i : nat) (s : St) :
  heap s0 !! page = Some pg → type pg = ty0 →
  (i + len = nslots pg)%nat → (i ≤ n ≤ nslots pg)%nat →
  (∀ j, (j < n)%nat →
     ∃ y cpg, lookup_ref (SlotRef page j) s0 = Some y ∧ ref_page y ≠ last ∧
              heap s0 !! ref_page y = Some cpg ∧ is_leaf cpg) →
  ((n < nslots pg)%nat →
     ∃ y, lookup_ref (SlotRef page n) s0 = Some y ∧ ref_page y = last) →
  slots_set WT_REF_MEM page s0 i s →
  ∃ s', foreach (excl_clear_body get_slot ty0 rec page last) (seq i len) tt s =
          Ret (if decide (n < nslots pg)%nat then Return 1 else Next tt) s' ∧
        slots_set WT_REF_MEM page s0 (if decide (n < nslots pg)%nat then S n else n) s'.
Proof.
  intros Hp Hty Hlen Hn Hleaves Hmark. revert i s Hlen Hn.
  induction len as [|len IH]; intros i s Hlen Hn HI.
  - assert (n = nslots pg) as Heq by lia. assert (i = n) as -> by lia.
    destruct (decide (n < nslots pg)%nat); [lia|]. by exists s.
  - destruct HI as (Ha & Hb & Herase).
    assert (is_Some (slot_ref pg i)) as [y Hy] by (apply slot_ref_nslots; lia).
    assert (Hy0 : lookup_ref (SlotRef page i) s0 = Some y)
      by (apply lookup_ref_slot; by exists pg).
    assert (Hys : lookup_ref (SlotRef page i) s = Some y).
    { rewrite Hb; [done|]. intros j Hj [= ->]. lia. }
    apply lookup_ref_slot in Hys as Hpg'. destruct Hpg' as (pg' & Hp' & Hy').
    assert (Hty' : type pg' = ty0).
    { destruct (erase_get_page s0 s page pg Herase Hp) as (pg2 & Hp2 & He2).
      rewrite Hp' in Hp2. injection Hp2 as <-.
      apply erase_page_fields in He2 as (_ & _ & _ & _ & _ & ->). done. }
    destruct (get_slot_run page i s pg' y Hp' Hty' Hy') as (c & Hc & Hrc).
    set (s1 := store_ref (SlotRef page i) (with_state WT_REF_MEM y) s).
    assert (HI1 : slots_set WT_REF_MEM page s0 (S i) s1).
    { split; [|split].
      - intros j yj Hj Hyj. destruct (decide (j = i)) as [->|Hne].
        + rewrite Hy0 in Hyj. injection Hyj as <-. by eapply lookup_store_ref.
        + unfold s1. rewrite lookup_store_ref_ne by congruence. apply Ha; [lia|done].
      - intros r Hr. unfold s1. rewrite lookup_store_ref_ne.
        + apply Hb. intros j Hj. apply Hr. lia.
        + intros <-. by apply (Hr i); [lia|].
      - unfold s1. rewrite <- Herase. by apply (erase_store_ref _ _ y). }
    assert (Hbody : excl_clear_body get_slot ty0 rec page last i tt s =
                    Ret (if decide (i = n) then Return 1 else Next tt) s1).
    { unfold excl_clear_body.
      rewrite (bind_run _ _ _ _ _ Hc).
      rewrite (bind_run _ _ _ _ _ (set_ref_state_run _ WT_REF_MEM _ _ Hys)).
      fold s1. cbv zeta. rewrite Hrc.
      destruct (decide (i = n)) as [->|Hin].
      - destruct Hmark as (y' & Hy'0 & Hlast); [lia|].
        rewrite Hy0 in Hy'0. injection Hy'0 as <-.
        by destruct (decide (ref_page y = last)).
      - destruct (Hleaves i) as (y' & cpg & Hy'0 & Hnl & Hc0 & Hleaf); [lia|].
        rewrite Hy0 in Hy'0. injection Hy'0 as <-.
        destruct (decide (ref_page y = last)); [done|].
        destruct (erase_get_page s0 s1 (ref_page y) cpg (proj2 (proj2 HI1)) Hc0)
          as (cpg1 & Hc1 & He1).
        apply erase_page_fields in He1 as (_ & _ & _ & _ & _ & Hty1).
        unfold page_type_of. unfold bind at 1 2.
        rewrite (get_page_run _ _ _ Hc1). unfold ret at 1.
        destruct (decide (type cpg1 = ty0)) as [Heq|_]; [|done].
        exfalso. rewrite Hty1 in Heq. destruct Hleaf as [? ?].
        destruct ty0_internal; congruence. }
    cbn [seq foreach]. rewrite (bind_run _ _ _ _ _ Hbody).
    destruct (decide (i = n)) as [->|Hin].
    + destruct (decide (n < nslots pg)%nat); [|lia]. by exists s1.
    + apply (IH (S i) s1); [lia|lia|done].
Qed.

End clear.

Lemma get_row_slot_run (p : ptr) (i : nat) (s : St) (pg : WT_PAGE) (y : WT_REF) :
  heap s !! p = Some pg → type pg = WT_PAGE_ROW_INT → slot_ref pg i = Some y →
  ∃ c, get_row_slot p i s = Ret c s ∧ ref c = y.
Proof.
  intros Hp Hty Hy. unfold get_row_slot. rewrite (bind_run _ _ _ _ _ (get_page_run _ _ _ Hp)).
  unfold slot_ref, type in *. destruct (u pg) as [|t| |t|]; try done.
  destruct (t !! i) as [c|]; [|done]. exists c. split; [done|]. by injection Hy.
Qed.

Lemma get_col_slot_run (p : ptr) (i : nat) (s : St) (pg : WT_PAGE) (y : WT_REF) :
  heap s !! p = Some pg → type pg = WT_PAGE_COL_INT → slot_ref pg i = Some y →
  ∃ c, get_col_slot p i s = Ret c s ∧ ref c = y.
Proof.
  intros Hp Hty Hy. unfold get_col_slot. rewrite (bind_run _ _ _ _ _ (get_page_run _ _ _ Hp)).
  unfold slot_ref, type in *. destruct (u pg) as [|t| |t|]; try done.
  destruct (t !! i) as [c|]; [|done]. exists c. split; [done|]. by injection Hy.
Qed.

Lemma row_slots_run (p : ptr) (s : St) (pg : WT_PAGE) :
  heap s !! p = Some pg → type pg = WT_PAGE_ROW_INT →
  row_slots p s = Ret (seq 0 (nslots pg)) s.
Proof.
  intros Hp Hty. unfold row_slots. rewrite (bind_run _ _ _ _ _ (get_page_run _ _ _ Hp)).
  unfold nslots, type in *. by destruct (u pg).
Qed.

Lemma col_slots_run (p : ptr) (s : St) (pg : WT_PAGE) :
  heap s !! p = Some pg → type pg = WT_PAGE_COL_INT →
  col_slots p s = Ret (seq 0 (nslots pg)) s.
Proof.
  intros Hp Hty. unfold col_slots. rewrite (bind_run _ _ _ _ _ (get_page_run _ _ _ Hp)).
  unfold nslots, type in *. by destruct (u pg).
Qed.

Lemma page_type_of_run (p : ptr) (s : St) (pg : WT_PAGE) :
  heap s !! p = Some pg → page_type_of p s = Ret (type pg) s.
Proof.
  intros Hp. unfold page_type_of. by rewrite (bind_run _ _ _ _ _ (get_page_run _ _ _ Hp)).
Qed.

(** X11.  The unlock walk at work where it is sound.  The candidate's first
    [n] children are leaves in memory, none of them the watermark
    [last_page]; slot [n] holds the watermark, or there are [n] slots only.
    Then [__rec_sub_excl_clear] returns with the parent reference and the
    slots up to [n] in state MEM and every other reference, and everything
    but reference states, as before. *)
Theorem rec_sub_excl_clear_leaves (fuel : nat) (page last : ptr) (fl : Z) (s : St)
    (pg : WT_PAGE) (x : WT_REF) (n : nat) :
  heap s !! page = Some pg →
  LF_ISSET fl WT_REC_SINGLE = 0 →
  lookup_ref (parent_ref pg) s = Some x →
  outside (parent_ref pg) page →
  page ≠ last →
  (n ≤ nslots pg)%nat →
  (∀ j, (j < n)%nat →
     ∃ y cpg, slot_ref pg j = Some y ∧ ref_page y ≠ last ∧
              heap s !! ref_page y = Some cpg ∧ is_leaf cpg) →
  ((n < nslots pg)%nat → ∃ y, slot_ref pg n = Some y ∧ ref_page y = last) →
  ∃ s', __rec_sub_excl_clear (S fuel) page last fl s = Ret tt s' ∧
        lookup_ref (parent_ref pg) s' = Some (with_state WT_REF_MEM x) ∧
        (∀ j y, slot_ref pg j = Some y →
           lookup_ref (SlotRef page j) s' =
             Some (if decide (j ≤ n)%nat then with_state WT_REF_MEM y else y)) ∧
        (∀ r, r ≠ parent_ref pg → outside r page →
           lookup_ref r s' = lookup_ref r s) ∧
        erase s' = erase s.
Proof.
  intros Hp Hs Hx Ho Hlast Hn Hleaves Hmark. unfold __rec_sub_excl_clear.
  destruct (decide (LF_ISSET fl WT_REC_SINGLE ≠ 0)) as [|_]; [done|].
  rewrite (bind_run _ _ _ _ _ (get_page_run _ _ _ Hp)).
  rewrite (bind_run _ _ _ _ _ (set_ref_state_run _ WT_REF_MEM _ _ Hx)).
  set (s1 := store_ref (parent_ref pg) (with_state WT_REF_MEM x) s).
  destruct (decide (page = last)) as [|_]; [done|].
  assert (Hp1 : heap s1 !! page = Some pg) by (unfold s1; by rewrite store_ref_heap_outside).
  assert (Hx1 : lookup_ref (parent_ref pg) s1 = Some (with_state WT_REF_MEM x))
    by (by eapply lookup_store_ref).
  assert (He1 : erase s1 = erase s) by (by apply (erase_store_ref _ _ x)).
  assert (Hne1 : ∀ r, r ≠ parent_ref pg → lookup_ref r s1 = lookup_ref r s).
  { intros r Hr. unfold s1. by rewrite lookup_store_ref_ne. }
  rewrite (bind_run _ _ _ _ _ (page_type_of_run _ _ _ Hp1)).
  assert (Hslot1 : ∀ j y, slot_ref pg j = Some y →
                          lookup_ref (SlotRef page j) s1 = Some y).
  { intros j y Hy. apply lookup_ref_slot. by exists pg. }
  assert (Hwalk : ∀ s', slots_set WT_REF_MEM page s1
                    (if decide (n < nslots pg)%nat then S n else n) s' →
            lookup_ref (parent_ref pg) s' = Some (with_state WT_REF_MEM x) ∧
            (∀ j y, slot_ref pg j = Some y →
               lookup_ref (SlotRef page j) s' =
                 Some (if decide (j ≤ n)%nat then with_state WT_REF_MEM y else y)) ∧
            (∀ r, r ≠ parent_ref pg → outside r page →
               lookup_ref r s' = lookup_ref r s) ∧
            erase s' = erase s).
  { intros s' (Ha & Hb & He). split; [|split; [|split]].
    - rewrite Hb; [done|]. intros j _ Heq. by apply (Ho j).
    - intros j y Hy.
      assert (j < nslots pg)%nat by (apply slot_ref_nslots; by eexists).
      destruct (decide (j ≤ n)%nat).
      + apply Ha; [|by apply Hslot1]. destruct (decide (n < nslots pg)%nat); lia.
      + rewrite Hb; [by apply Hslot1|]. intros k Hk [= ->].
        destruct (decide (n < nslots pg)%nat); lia.
    - intros r Hr Hor. rewrite Hb; [by apply Hne1|]. intros j _ ->. by apply (Hor j).
    - by rewrite He. }
  assert (Hleaves1 : ∀ j, (j < n)%nat →
            ∃ y cpg, lookup_ref (SlotRef page j) s1 = Some y ∧ ref_page y ≠ last ∧
                     heap s1 !! ref_page y = Some cpg ∧ is_leaf cpg).
  { intros j Hj. destruct (Hleaves j Hj) as (y & cpg & Hy & Hnl & Hc & Hleaf).
    destruct (erase_get_page s s1 (ref_page y) cpg He1 Hc) as (cpg2 & Hc2 & Hec2).
    exists y, cpg2. split; [by apply Hslot1|]. split; [done|]. split; [done|].
    apply erase_page_fields in Hec2 as (_ & _ & _ & _ & _ & Hty).
    unfold is_leaf in *. by rewrite Hty. }
  assert (Hmark1 : (n < nslots pg)%nat →
            ∃ y, lookup_ref (SlotRef page n) s1 = Some y ∧ ref_page y = last).
  { intros Hlt. destruct (Hmark Hlt) as (y & Hy & Hl). exists y. split; [by apply Hslot1|done]. }
  assert (HI0 : slots_set WT_REF_MEM page s1 0 s1).
  { split; [|split]; [intros; lia | done | done]. }
  destruct (type pg) eqn:Hty.
  - exists s1. split; [done|]. apply Hwalk.
    assert (nslots pg = 0%nat) as Hz by (unfold nslots, type in *; by destruct (u pg)).
    destruct (decide _); [lia|]. by assert (n = 0%nat) as -> by lia.
  - cbn [__rec_sub_excl_col_clear].
    unfold bind at 1. unfold bind at 1. rewrite (col_slots_run _ _ _ Hp1 Hty).
    destruct (foreach_clear_run get_col_slot WT_PAGE_COL_INT (or_introl eq_refl)
                get_col_slot_run
                (λ p, __rec_sub_excl_col_clear fuel p last) page last pg s1 n
                (nslots pg) 0 s1 Hp1 Hty eq_refl ltac:(lia) Hleaves1 Hmark1 HI0)
      as (s' & Hrun & HI).
    unfold bind at 1.
    change (foreach (excl_col_clear_body (λ p, __rec_sub_excl_col_clear fuel p last)
                       page last) (seq 0 (nslots pg)) tt s1)
      with (foreach (excl_clear_body get_col_slot WT_PAGE_COL_INT
                       (λ p, __rec_sub_excl_col_clear fuel p last) page last)
                    (seq 0 (nslots pg)) tt s1).
    rewrite Hrun. exists s'. split; [by destruct (decide _)|]. by apply Hwalk.
  - exists s1. split; [done|]. apply Hwalk.
    assert (nslots pg = 0%nat) as Hz by (unfold nslots, type in *; by destruct (u pg)).
    destruct (decide _); [lia|]. by assert (n = 0%nat) as -> by lia.
  - cbn [__rec_sub_excl_row_clear].
    unfold bind at 1. unfold bind at 1. rewrite (row_slots_run _ _ _ Hp1 Hty).
    destruct (foreach_clear_run get_row_slot WT_PAGE_ROW_INT (or_intror eq_refl)
                get_row_slot_run
                (λ p, __rec_sub_excl_row_clear fuel p last) page last pg s1 n
                (nslots pg) 0 s1 Hp1 Hty eq_refl ltac:(lia) Hleaves1 Hmark1 HI0)
      as (s' & Hrun & HI).
    unfold bind at 1.
    change (foreach (excl_row_clear_body (λ p, __rec_sub_excl_row_clear fuel p last)
                       page last) (seq 0 (nslots pg)) tt s1)
      with (foreach (excl_clear_body get_row_slot WT_PAGE_ROW_INT
                       (λ p, __rec_sub_excl_row_clear fuel p last) page last)
                    (seq 0 (nslots pg)) tt s1).
    rewrite Hrun. exists s'. split; [by destruct (decide _)|]. by apply Hwalk.
  - exists s1. split; [done|]. apply Hwalk.
    assert (nslots pg = 0%nat) as Hz by (unfold nslots, type in *; by destruct (u pg)).
    destruct (decide _); [lia|]. by assert (n = 0%nat) as -> by lia.
Qed.

Lemma rec_sub_excl_clear_leaves_witness :
  ∃ s', __rec_sub_excl_clear 1 100 300 0 st_locked_children = Ret tt s' ∧
        lookup_ref (SlotRef 50 0) s' = Some (MkRef WT_REF_MEM 100 11 12) ∧
        lookup_ref (SlotRef 100 0) s' = Some (MkRef WT_REF_MEM 200 21 22) ∧
        lookup_ref (SlotRef 100 1) s' = Some (MkRef WT_REF_MEM 300 31 32) ∧
        lookup_ref (SlotRef 100 2) s' = Some (MkRef WT_REF_MEM 400 41 42) ∧
        lookup_ref RootRef s' = lookup_ref RootRef st_locked_children.
Proof.
  destruct (rec_sub_excl_clear_leaves 0 100 300 0 st_locked_children
              (internal_100 0 None
                 [MkRef WT_REF_LOCKED 200 21 22; MkRef WT_REF_LOCKED 300 31 32;
                  MkRef WT_REF_MEM 400 41 42])
              (MkRef WT_REF_LOCKED 100 11 12) 1)
    as (s' & Hrun & Hparent & Hslots & Hother & _).
  - vm_compute; reflexivity.
  - vm_compute; reflexivity.
  - vm_compute; reflexivity.
  - intros i. discriminate.
  - discriminate.
  - vm_compute. lia.
  - intros j Hj. assert (j = 0%nat) as -> by lia.
    exists (MkRef WT_REF_LOCKED 200 21 22), (leaf WT_PAGE_REC_EMPTY None 0).
    split; [vm_compute; reflexivity|]. split; [vm_compute; discriminate|].
    split; [vm_compute; reflexivity|]. split; vm_compute; discriminate.
  - intros _. exists (MkRef WT_REF_LOCKED 300 31 32). split; vm_compute; reflexivity.
  - exists s'. split; [exact Hrun|]. split; [exact Hparent|].
    split; [exact (Hslots 0%nat _ eq_refl)|].
    split; [exact (Hslots 1%nat _ eq_refl)|].
    split; [exact (Hslots 2%nat _ eq_refl)|].
    apply Hother; [discriminate | intros i; discriminate].
Defined.

(** ** A forced eviction waits for the readers *)

Lemma wait_of_force (fl : Z) : wait_of (LF_SET fl WT_REC_WAIT) = 1.
Proof.
  unfold wait_of, LF_ISSET, LF_SET. destruct (decide _) as [|Hn]; [done|].
  exfalso. apply Hn. rewrite Z.land_lor_distr_l. intros [_ H0]%Z.lor_eq_0_iff. done.
Qed.

Lemma single_of_force (fl : Z) :
  LF_ISSET (LF_SET fl WT_REC_WAIT) WT_REC_SINGLE = LF_ISSET fl WT_REC_SINGLE.
Proof.
  unfold LF_ISSET, LF_SET. rewrite Z.land_lor_distr_l.
  change (Z.land WT_REC_WAIT WT_REC_SINGLE) with 0. apply Z.lor_0_r.
Qed.

(** The clean update of a page that was never dirtied cannot fail. *)
Lemma rec_parent_clean_update_ok (page : ptr) (s : St) (pg : WT_PAGE) (x : WT_REF) :
  heap s !! page = Some pg → modify pg = None →
  lookup_ref (parent_ref pg) s = Some x →
  outside (parent_ref pg) page →
  ∃ s', __rec_parent_clean_update page s = Ret 0 s' ∧
        conn_hazard s' = conn_hazard s.
Proof.
  intros Hp Hm Hx Ho. unfold __rec_parent_clean_update.
  rewrite (bind_run _ _ _ _ pg) by (by apply get_page_run).
  rewrite (bind_run _ _ _ _ _ (set_ref_page_run _ NULL _ _ Hx)).
  set (sa := store_ref (parent_ref pg) (with_page NULL x) s).
  assert (Hpa : heap sa !! page = Some pg) by (unfold sa; by rewrite store_ref_heap_outside).
  assert (Hxa : lookup_ref (parent_ref pg) sa = Some (with_page NULL x))
    by (by eapply lookup_store_ref).
  rewrite (bind_run _ _ _ _ pg) by (by apply get_page_run).
  rewrite (bind_run _ _ _ _ _ (set_ref_state_run _ WT_REF_DISK _ _ Hxa)).
  set (sb := store_ref (parent_ref pg) _ sa).
  assert (Hpb : heap sb !! page = Some pg) by (unfold sb; by rewrite store_ref_heap_outside).
  unfold __rec_discard_page.
  rewrite (bind_run _ _ _ _ pg) by (by apply get_page_run).
  destruct (decide (modify pg ≠ None)); [done|].
  unfold bind at 1, ret at 1. destruct (decide (0 ≠ 0)); [done|].
  eexists. split; [reflexivity|]. simpl.
  unfold sb. destruct (store_ref_env (parent_ref pg)
    (with_state WT_REF_DISK (with_page NULL x)) sa) as (-> & _).
  unfold sa. by destruct (store_ref_env (parent_ref pg) (with_page NULL x) s) as (-> & _).
Qed.

(** The review of a leaf whose reference is requested with [force]. *)
Lemma rec_review_leaf_forced (k fuel : nat) (page : ptr) (fl : Z) (s : St)
    (pg : WT_PAGE) (x : WT_REF) :
  heap s !! page = Some pg → is_leaf pg →
  LF_ISSET fl WT_REC_SINGLE = 0 → wait_of fl ≠ 0 →
  lookup_ref (parent_ref pg) s = Some x →
  (k < fuel)%nat →
  (∀ j, (j < k)%nat →
     hazard_found (ref_page x) (table_after (conn_hazard s) (readers s) j) = true) →
  hazard_found (ref_page x) (table_after (conn_hazard s) (readers s) k) = false →
  ∃ s', __rec_review fuel page fl s = Ret 0 s' ∧
        erase s' = erase s ∧
        lookup_ref (parent_ref pg) s' = Some (with_state WT_REF_LOCKED x) ∧
        conn_hazard s' = table_after (conn_hazard s) (readers s) k.
Proof.
  intros Hp Hleaf Hs Hw Hx Hk Hheld Hfree. unfold __rec_review.
  rewrite (bind_run _ _ _ _ pg) by (by apply get_page_run).
  destruct (decide (LF_ISSET fl WT_REC_SINGLE = 0)) as [_|]; [|done].
  set (sl := store_ref (parent_ref pg) (with_state WT_REF_LOCKED x) s).
  destruct (store_ref_env (parent_ref pg) (with_state WT_REF_LOCKED x) s)
    as (Hc & _ & Hr).
  destruct (hazard_retry_progress k fuel (parent_ref pg) (wait_of fl) sl
              (with_state WT_REF_LOCKED x) Hw) as (s1 & Hrun & Hx1 & Hc1).
  { by eapply lookup_store_ref. }
  { done. }
  { intros j Hj. unfold sl. rewrite Hc, Hr. by apply Hheld. }
  { unfold sl. rewrite Hc, Hr. exact Hfree. }
  assert (Hexcl : __hazard_exclusive fuel (parent_ref pg) (wait_of fl) s = Ret 0 s1).
  { unfold __hazard_exclusive.
    by rewrite (bind_run _ _ _ _ _ (set_ref_state_run _ WT_REF_LOCKED _ _ Hx)). }
  rewrite (bind_run _ _ _ _ _ Hexcl). destruct (decide (0 ≠ 0)); [done|].
  pose proof (frames_hazard_exclusive _ _ _ _ _ _ Hexcl) as Hfr.
  destruct (erase_get_page s s1 page pg Hfr Hp) as (pg1 & Hp1 & He1).
  apply erase_page_fields in He1 as (_ & _ & _ & _ & _ & Hty).
  rewrite (bind_run _ _ _ _ _ (page_type_of_run _ _ _ Hp1)).
  exists s1. split.
  - destruct Hleaf as [Hcol Hrow]. rewrite Hty.
    destruct (type pg); try done.
  - split; [done|]. split; [done|]. rewrite Hc1. unfold sl. by rewrite Hc, Hr.
Qed.

(** X12.  A forced eviction waits for the readers.  For a leaf marked
    WT_PAGE_FORCE_EVICT that was never dirtied and carries no result, whose
    page a reader holds for [k] yields and no longer, [__wt_rec_evict]
    (outside WT_REC_SINGLE, with a loop bound above [k]) returns 0: the
    parent reference is in state DISK with a null page pointer, the page is
    discarded, and the hazard array is the one the readers left at the
    [k]-th yield. *)
Theorem evict_forced_waits (k fuel : nat) (page : ptr) (fl : Z) (s : St)
    (pg : WT_PAGE) (x : WT_REF) :
  heap s !! page = Some pg → is_leaf pg →
  F_ISSET pg WT_PAGE_FORCE_EVICT ≠ 0 →
  F_ISSET pg WT_PAGE_REC_MASK = 0 → modify pg = None →
  LF_ISSET fl WT_REC_SINGLE = 0 →
  lookup_ref (parent_ref pg) s = Some x →
  outside (parent_ref pg) page →
  (k < fuel)%nat →
  (∀ j, (j < k)%nat →
     hazard_found (ref_page x) (table_after (conn_hazard s) (readers s) j) = true) →
  hazard_found (ref_page x) (table_after (conn_hazard s) (readers s) k) = false →
  ∃ s', __wt_rec_evict fuel page fl s = Ret 0 s' ∧
        lookup_ref (parent_ref pg) s' =
          Some (MkRef WT_REF_DISK NULL (ref_addr x) (ref_size x)) ∧
        heap s' !! page = None ∧
        discarded s' = discarded s ++ [page] ∧
        conn_hazard s' = table_after (conn_hazard s) (readers s) k.
Proof.
  intros Hp Hleaf Hforce Hmask Hm Hs Hx Ho Hk Hheld Hfree.
  assert (Hsm : F_ISSET pg WT_PAGE_REC_SPLIT_MERGE = 0).
  { unfold WT_PAGE_REC_MASK in Hmask.
    apply F_ISSET_lor in Hmask as [_ Hmask]. by apply F_ISSET_lor in Hmask as [_ ?]. }
  unfold __wt_rec_evict.
  rewrite (bind_run _ _ _ _ pg) by (by apply get_page_run).
  destruct (decide (F_ISSET pg WT_PAGE_REC_SPLIT_MERGE ≠ 0)); [done|].
  destruct (decide (F_ISSET pg WT_PAGE_FORCE_EVICT ≠ 0)); [|done].
  set (pg0 := set_flags (Z.ldiff (flags pg) WT_PAGE_FORCE_EVICT) pg).
  set (s0 := set_heap (<[page := pg0]> (heap s)) s).
  assert (Hclr : (__wt_evict_force_clear page ;;; ret (LF_SET fl WT_REC_WAIT)) s =
                 Ret (LF_SET fl WT_REC_WAIT) s0).
  { unfold __wt_evict_force_clear.
    by rewrite (bind_run _ _ _ _ _ (F_CLR_run _ WT_PAGE_FORCE_EVICT _ _ Hp)). }
  rewrite (bind_run _ _ _ _ _ Hclr).
  assert (Hp0 : heap s0 !! page = Some pg0) by (simpl; by rewrite lookup_insert_eq).
  assert (Hx0 : lookup_ref (parent_ref pg0) s0 = Some x).
  { unfold s0. by rewrite (lookup_ref_put_page _ s page pg pg0). }
  destruct (rec_review_leaf_forced k fuel page (LF_SET fl WT_REC_WAIT) s0 pg0 x)
    as (s1 & Hrev & He1 & Hx1 & Hc1); try done.
  { by rewrite single_of_force. }
  { by rewrite wait_of_force. }
  rewrite (bind_run _ _ _ _ _ Hrev). destruct (decide (0 ≠ 0)); [done|].
  destruct (erase_get_page s0 s1 page pg0 He1 Hp0) as (pg1 & Hp1 & Hpg1).
  apply erase_page_fields in Hpg1 as (Hfl & Hmod & Hpr & _ & _ & _).
  rewrite (bind_run _ _ _ _ pg1) by (by apply get_page_run).
  assert (Hclean : __wt_page_is_modified pg1 = false).
  { unfold __wt_page_is_modified. rewrite Hmod. simpl. by rewrite Hm. }
  rewrite Hclean. unfold bind at 1, ret at 1. destruct (decide (0 ≠ 0)); [done|].
  unfold evict_update.
  rewrite (bind_run _ _ _ _ pg1) by (by apply get_page_run).
  assert (Hmask1 : F_ISSET pg1 WT_PAGE_REC_MASK = 0).
  { unfold F_ISSET in *. rewrite Hfl. simpl. by rewrite mask_after_force_clear. }
  destruct (decide (F_ISSET pg1 WT_PAGE_REC_MASK = 0)); [|done].
  assert (Hm1 : modify pg1 = None) by (rewrite Hmod; exact Hm).
  assert (Hx1' : lookup_ref (parent_ref pg1) s1 = Some (with_state WT_REF_LOCKED x))
    by (by rewrite Hpr).
  assert (Ho1 : outside (parent_ref pg1) page) by (by rewrite Hpr).
  destruct (rec_parent_clean_update_ok page s1 pg1 _ Hp1 Hm1 Hx1' Ho1)
    as (s' & Hup & Hc').
  rewrite (bind_run _ _ _ _ _ Hup). destruct (decide (0 ≠ 0)); [done|].
  exists s'. split; [done|].
  destruct (rec_parent_clean_update_run page s1 pg1 _ 0 s' Hp1 Hx1' Ho1 Hup)
    as (Hl & [(_ & Hgone & Hd)|(? & _)]); [|done].
  rewrite Hpr in Hl. split; [exact Hl|]. split; [exact Hgone|]. split.
  - rewrite Hd. by rewrite (f_equal discarded He1 : discarded s1 = discarded s0).
  - by rewrite Hc', Hc1.
Qed.

Lemma evict_forced_waits_witness :
  ∃ s', __wt_rec_evict 3 100 0 st_forced = Ret 0 s' ∧
        lookup_ref (SlotRef 50 0) s' = Some (MkRef WT_REF_DISK NULL 11 12) ∧
        heap s' !! 100 = None ∧
        discarded s' = [100] ∧
        conn_hazard s' = [NULL; NULL; NULL].
Proof.
  destruct (evict_forced_waits 2 3 100 0 st_forced
              (candidate_leaf WT_PAGE_FORCE_EVICT None) (MkRef WT_REF_MEM 100 11 12))
    as (s' & Hrun & Hl & Hh & Hd & Hc).
  - vm_compute; reflexivity.
  - split; vm_compute; discriminate.
  - vm_compute. discriminate.
  - vm_compute; reflexivity.
  - reflexivity.
  - vm_compute; reflexivity.
  - vm_compute; reflexivity.
  - intros i. discriminate.
  - lia.
  - intros [|[|j]] Hj; [vm_compute; reflexivity | vm_compute; reflexivity | lia].
  - vm_compute; reflexivity.
  - exists s'. split; [exact Hrun|]. split; [exact Hl|]. split; [exact Hh|].
    split; [exact Hd | exact Hc].
Defined.

(** ** A review that fails releases what it locked *)

(** A loop whose passes go on up to the slot [stop] and return there. *)
Lemma foreach_until {A B : Type} (body : nat → A → M (step A B))
    (I : nat → A → St → Prop) (Q : B → St → Prop) (stop : nat) :
  (∀ i a s, (i < stop)%nat → I i a s →
     ∃ a' s', body i a s = Ret (Next a') s' ∧ I (S i) a' s') →
  (∀ a s, I stop a s → ∃ b s', body stop a s = Ret (Return b) s' ∧ Q b s') →
  ∀ len i a s, (i ≤ stop < i + len)%nat → I i a s →
  ∃ b s', foreach body (seq i len) a s = Ret (Return b) s' ∧ Q b s'.
Proof.
  intros Hnext Hstop. induction len as [|len IH]; intros i a s Hi HI; [lia|].
  cbn [seq foreach]. destruct (decide (i = stop)) as [->|Hne].
  - destruct (Hstop a s HI) as (b & s' & Hb & HQ).
    rewrite (bind_run _ _ _ _ _ Hb). by exists b, s'.
  - destruct (Hnext i a s ltac:(lia) HI) as (a' & s' & Hb & HI').
    rewrite (bind_run _ _ _ _ _ Hb). apply IH; [lia|done].
Qed.

Lemma hazard_exclusive_grant (fuel : nat) (r : ref_ptr) (force : Z) (s : St)
    (y : WT_REF) :
  lookup_ref r s = Some y →
  hazard_found (ref_page y) (conn_hazard s) = false →
  ∃ s1, __hazard_exclusive (S fuel) r force s = Ret 0 s1 ∧
        lookup_ref r s1 = Some (with_state WT_REF_LOCKED y) ∧
        (∀ r', r' ≠ r → lookup_ref r' s1 = lookup_ref r' s) ∧
        erase s1 = erase s ∧ conn_hazard s1 = conn_hazard s.
Proof.
  intros Hy Hnf. unfold __hazard_exclusive.
  rewrite (bind_run _ _ _ _ _ (set_ref_state_run _ WT_REF_LOCKED _ _ Hy)).
  set (sl := store_ref r (with_state WT_REF_LOCKED y) s).
  assert (Hyl : lookup_ref r sl = Some (with_state WT_REF_LOCKED y))
    by (by eapply lookup_store_ref).
  destruct (store_ref_env r (with_state WT_REF_LOCKED y) s) as (Hc & _ & _).
  rewrite (hazard_retry_S fuel r force sl _ Hyl). cbv zeta.
  fold sl in Hc. rewrite Hc. cbn [ref_page with_state]. rewrite Hnf.
  eexists. split; [done|]. split; [by rewrite lookup_ref_set_cache_hazard|].
  split; [|split].
  - intros r' Hr'. rewrite lookup_ref_set_cache_hazard. by apply lookup_store_ref_ne.
  - rewrite erase_set_cache_hazard. by apply (erase_store_ref _ _ y).
  - done.
Qed.

Lemma rec_sub_excl_page_accept (fuel : nat) (r : ref_ptr) (p : ptr) (fl : Z)
    (s : St) (y : WT_REF) (cpg : WT_PAGE) :
  heap s !! p = Some cpg → mergeable cpg →
  LF_ISSET fl WT_REC_SINGLE = 0 →
  lookup_ref r s = Some y →
  hazard_found (ref_page y) (conn_hazard s) = false →
  ∃ s1, __rec_sub_excl_page (S fuel) r p fl s = Ret 0 s1 ∧
        lookup_ref r s1 = Some (with_state WT_REF_LOCKED y) ∧
        (∀ r', r' ≠ r → lookup_ref r' s1 = lookup_ref r' s) ∧
        erase s1 = erase s ∧ conn_hazard s1 = conn_hazard s.
Proof.
  intros Hp Hm Hs Hy Hnf. unfold __rec_sub_excl_page.
  rewrite (bind_run _ _ _ _ _ (get_page_run _ _ _ Hp)).
  destruct (decide (F_ISSET cpg _ = 0)) as [H0|_].
  { rewrite !F_ISSET_lor in H0. destruct H0 as [[? ?] ?], Hm as [|[[|] _]]; done. }
  destruct (decide (LF_ISSET fl WT_REC_SINGLE = 0)) as [_|]; [|done].
  destruct (hazard_exclusive_grant fuel r (wait_of fl) s y Hy Hnf)
    as (s1 & Hrun & Hy1 & Hother & He & Hc).
  rewrite (bind_run _ _ _ _ _ Hrun). destruct (decide (0 ≠ 0)); [done|].
  destruct (erase_get_page s s1 p cpg He Hp) as (cpg1 & Hp1 & Hpg1).
  apply erase_page_fields in Hpg1 as (Hflags & Hmod & _).
  rewrite (bind_run _ _ _ _ _ (get_page_run _ _ _ Hp1)).
  exists s1. split; [|done].
  assert (HF : ∀ k, F_ISSET cpg1 k = F_ISSET cpg k) by (intros; unfold F_ISSET; by rewrite Hflags).
  assert (HM : __wt_page_is_modified cpg1 = __wt_page_is_modified cpg)
    by (unfold __wt_page_is_modified; by rewrite Hmod).
  rewrite !HF, HM.
  destruct (decide (F_ISSET cpg WT_PAGE_REC_SPLIT_MERGE ≠ 0)) as [|Hnm]; [done|].
  destruct Hm as [|[Hse Hclean]]; [done|]. rewrite Hclean.
  destruct (decide (F_ISSET cpg _ ≠ 0)) as [_|H0]; [done|].
  exfalso. apply H0. intros H1. rewrite F_ISSET_lor in H1. destruct H1, Hse; done.
Qed.

Lemma rec_sub_excl_page_refuse (fuel : nat) (r : ref_ptr) (p : ptr) (fl : Z)
    (s : St) (cpg : WT_PAGE) :
  heap s !! p = Some cpg →
  F_ISSET cpg (Z.lor (Z.lor WT_PAGE_REC_EMPTY WT_PAGE_REC_SPLIT)
                     WT_PAGE_REC_SPLIT_MERGE) = 0 →
  __rec_sub_excl_page fuel r p fl s = Ret 1 s.
Proof.
  intros Hp H0. unfold __rec_sub_excl_page.
  rewrite (bind_run _ _ _ _ _ (get_page_run _ _ _ Hp)). by destruct (decide _).
Qed.

(** A page as it is after reference states changed. *)
Lemma erase_same_page (s0 s : St) (p : ptr) (cpg : WT_PAGE) :
  erase s = erase s0 → heap s0 !! p = Some cpg →
  ∃ cpg', heap s !! p = Some cpg' ∧ flags cpg' = flags cpg ∧
          modify cpg' = modify cpg ∧ type cpg' = type cpg ∧
          parent_ref cpg' = parent_ref cpg ∧ nslots cpg' = nslots cpg.
Proof.
  intros He Hp. destruct (erase_get_page s0 s p cpg He Hp) as (cpg' & Hp' & Hpg).
  pose proof (erase_page_u _ _ Hpg) as Hu.
  apply erase_page_fields in Hpg as (? & ? & ? & _ & _ & ?). exists cpg'.
  repeat (split; [done|]).
  unfold nslots. destruct (u cpg'), (u cpg); try done;
    apply (f_equal length) in Hu; by rewrite !length_fmap in Hu.
Qed.

Section busy.

Context {T : Type} `{HasRef T}.
Variable get_slot : ptr → nat → M T.
Variable ty0 : page_type.
Hypothesis ty0_internal : ty0 = WT_PAGE_COL_INT ∨ ty0 = WT_PAGE_ROW_INT.
Hypothesis get_slot_run :
  ∀ p i s pg y, heap s !! p = Some pg → type pg = ty0 → slot_ref pg i = Some y →
                ∃ c, get_slot p i s = Ret c s ∧ ref c = y.

Lemma slot_read (st : wt_state) (page : ptr) (pg : WT_PAGE) (s0 s : St)
    (k i : nat) (y : WT_REF) :
  slots_set st page s0 k s → heap s0 !! page = Some pg → type pg = ty0 →
  (k ≤ i)%nat → lookup_ref (SlotRef page i) s0 = Some y →
  ∃ c, get_slot page i s = Ret c s ∧ ref c = y ∧
       lookup_ref (SlotRef page i) s = Some y.
Proof.
  intros (_ & Hb & He) Hp Hty Hk Hy.
  assert (Hys : lookup_ref (SlotRef page i) s = Some y).
  { rewrite Hb; [done|]. intros j Hj [= ->]. lia. }
  apply lookup_ref_slot in Hys as Hpg'. destruct Hpg' as (pg' & Hp' & Hy').
  assert (Hty' : type pg' = ty0).
  { destruct (erase_get_page s0 s page pg He Hp) as (pg2 & Hp2 & He2).
    rewrite Hp' in Hp2. injection Hp2 as <-.
    apply erase_page_fields in He2 as (_ & _ & _ & _ & _ & ->). done. }
  destruct (get_slot_run page i s pg' y Hp' Hty' Hy') as (c & Hc & Hrc).
  by exists c.
Qed.

Lemma excl_walk_blocked (fuel : nat) (rec : ptr → ptr → M (Z * ptr))
    (page : ptr) (fl : Z) (pg : WT_PAGE) (s0 : St) (m d : nat) (last0 : ptr)
    (code : Z) :
  heap s0 !! page = Some pg → type pg = ty0 →
  LF_ISSET fl WT_REC_SINGLE = 0 →
  (m + d < nslots pg)%nat →
  (∀ j, (j < m)%nat →
     ∃ y cpg, lookup_ref (SlotRef page j) s0 = Some y ∧ ref_state y = WT_REF_MEM ∧
              heap s0 !! ref_page y = Some cpg ∧ is_leaf cpg ∧ mergeable cpg ∧
              hazard_found (ref_page y) (conn_hazard s0) = false) →
  (∀ j, (m ≤ j < m + d)%nat →
     ∃ y, lookup_ref (SlotRef page j) s0 = Some y ∧ ref_state y = WT_REF_DISK) →
  (∃ y, lookup_ref (SlotRef page (m + d)) s0 = Some y ∧ blocks s0 y code) →
  ∃ last s',
    foreach (excl_body get_slot ty0 (S fuel) rec page fl) (seq 0 (nslots pg)) last0 s0 =
      Ret (Return (code, last)) s' ∧
    slots_set WT_REF_LOCKED page s0 m s' ∧ conn_hazard s' = conn_hazard s0 ∧
    last_at page s0 last0 m last.
Proof.
  intros Hp Hty Hs Hk Hmem Hdisk (yb & Hyb & Hblock).
  set (I := λ (i : nat) (a : ptr) (s : St),
         slots_set WT_REF_LOCKED page s0 (i `min` m) s ∧
         conn_hazard s = conn_hazard s0 ∧ last_at page s0 last0 (i `min` m) a).
  set (Q := λ (b : Z * ptr) (s : St),
         b.1 = code ∧ slots_set WT_REF_LOCKED page s0 m s ∧
         conn_hazard s = conn_hazard s0 ∧ last_at page s0 last0 m b.2).
  destruct (foreach_until (excl_body get_slot ty0 (S fuel) rec page fl) I Q (m + d))
    with (len := nslots pg) (i := 0%nat) (a := last0) (s := s0)
    as ([c last] & s' & Hrun & Hc & HQ).
  - intros i a s Hi (HI & Hconn & Hlast).
    destruct (decide (i < m)%nat) as [Him|Him].
    + rewrite Nat.min_l in HI, Hlast by lia.
      destruct (Hmem i Him) as (y & cpg & Hy0 & Hst & Hc0 & Hleaf & Hmerge & Hnf).
      destruct (slot_read WT_REF_LOCKED page pg s0 s i i y HI Hp Hty ltac:(lia) Hy0)
        as (c & Hc & Hrc & Hys).
      pose proof HI as (Ha & Hb & He).
      destruct (erase_same_page s0 s _ cpg He Hc0) as (cpg' & Hc' & Hfl' & Hmod' & Hty' & _).
      destruct (rec_sub_excl_page_accept fuel (SlotRef page i) (ref_page y) fl s y cpg')
        as (s1 & Hacc & Hy1 & Hother & He1 & Hconn1); [done| |done|done| |].
      { unfold mergeable, F_ISSET, __wt_page_is_modified in *. by rewrite Hfl', Hmod'. }
      { by rewrite Hconn. }
      assert (He10 : erase s1 = erase s0) by congruence.
      destruct (erase_same_page s0 s1 _ cpg He10 Hc0) as (cpg1 & Hc1 & _ & _ & Hty1 & _).
      exists (ref_page y), s1. split.
      * unfold excl_body. rewrite (bind_run _ _ _ _ _ Hc). rewrite Hrc, Hst. cbv zeta.
        rewrite (bind_run _ _ _ _ _ Hacc). destruct (decide (0 ≠ 0)); [done|].
        rewrite (bind_run _ _ _ _ _ (page_type_of_run _ _ _ Hc1)).
        destruct (decide (type cpg1 = ty0)) as [Heq|_]; [|done].
        exfalso. rewrite Hty1 in Heq. destruct Hleaf as [? ?].
        destruct ty0_internal; congruence.
      * unfold I. rewrite Nat.min_l by lia. split; [|split; [congruence|]].
        -- split; [|split; [|done]].
           ++ intros j yj Hj Hyj. destruct (decide (j = i)) as [->|Hne].
              ** rewrite Hy0 in Hyj. by injection Hyj as <-.
              ** rewrite Hother by congruence. apply Ha; [lia|done].
           ++ intros r Hr. rewrite Hother.
              ** apply Hb. intros j Hj. apply Hr. lia.
              ** intros ->. by apply (Hr i); [lia|].
        -- split; [lia|]. intros j [= <-]. by exists y.
    + rewrite Nat.min_r in HI, Hlast by lia.
      destruct (Hdisk i ltac:(lia)) as (y & Hy0 & Hst).
      destruct (slot_read WT_REF_LOCKED page pg s0 s m i y HI Hp Hty ltac:(lia) Hy0)
        as (c & Hc & Hrc & Hys).
      exists a, s. split.
      * unfold excl_body. rewrite (bind_run _ _ _ _ _ Hc). by rewrite Hrc, Hst.
      * unfold I. rewrite Nat.min_r by lia. done.
  - intros a s (HI & Hconn & Hlast). rewrite Nat.min_r in HI, Hlast by lia.
    destruct (slot_read WT_REF_LOCKED page pg s0 s m (m + d) yb HI Hp Hty ltac:(lia) Hyb)
      as (c & Hc & Hrc & Hys).
    exists (code, a), s. split; [|done].
    unfold excl_body. rewrite (bind_run _ _ _ _ _ Hc). rewrite Hrc.
    destruct Hblock as [[[Hst|Hst] ->]|(Hst & -> & cpg & Hc0 & Hfl)]; rewrite Hst; try done.
    cbv zeta. destruct HI as (_ & _ & He).
    destruct (erase_same_page s0 s _ cpg He Hc0) as (cpg' & Hc' & Hfl' & _).
    rewrite (bind_run _ _ _ _ _
               (rec_sub_excl_page_refuse (S fuel) (SlotRef page (m + d)) _ fl s cpg' Hc'
                  ltac:(unfold F_ISSET in *; by rewrite Hfl'))).
    destruct (decide (1 ≠ 0)) as [_|Hn]; [done | by destruct Hn].
  - lia.
  - split; [|split; [done|]].
    + split; [|split; [done|done]]. intros j y Hj. simpl in Hj. lia.
    + split; [done|]. intros j Hj. simpl in Hj. lia.
  - exists last, s'. simpl in Hc. subst c. destruct HQ as (? & ? & ?). done.
Qed.

End busy.

Lemma with_state_back (y : WT_REF) (st : wt_state) :
  ref_state y = WT_REF_MEM → with_state WT_REF_MEM (with_state st y) = y.
Proof. destruct y as [? ? ? ?]; simpl. by intros ->. Qed.

(** X13.  A review that fails releases what it locked.  The candidate is an
    internal page nobody holds; its first [m] children are mergeable leaves in
    memory, pairwise distinct and held by nobody; the next [d] are on disk;
    the child after them is locked or being read by another thread (code
    WT_ERROR), or is in memory without any chance of a merge (code 1).  Then
    [__rec_review] returns that code, the parent reference is in state MEM,
    and every other reference, and everything but reference states and
    hazard arrays, is as it was before the call. *)
Theorem rec_review_busy_restores (fuel : nat) (page : ptr) (fl : Z) (s : St)
    (pg : WT_PAGE) (x : WT_REF) (m d : nat) (code : Z) :
  heap s !! page = Some pg →
  type pg = WT_PAGE_COL_INT ∨ type pg = WT_PAGE_ROW_INT →
  LF_ISSET fl WT_REC_SINGLE = 0 →
  lookup_ref (parent_ref pg) s = Some x →
  outside (parent_ref pg) page →
  hazard_found (ref_page x) (conn_hazard s) = false →
  (m + d < nslots pg)%nat →
  (∀ j, (j < m)%nat →
     ∃ y cpg, slot_ref pg j = Some y ∧ ref_state y = WT_REF_MEM ∧
              heap s !! ref_page y = Some cpg ∧ is_leaf cpg ∧ mergeable cpg ∧
              hazard_found (ref_page y) (conn_hazard s) = false) →
  (∀ i j y y', (i < j < m)%nat → slot_ref pg i = Some y → slot_ref pg j = Some y' →
     ref_page y ≠ ref_page y') →
  (∀ j, (m ≤ j < m + d)%nat →
     ∃ y, slot_ref pg j = Some y ∧ ref_state y = WT_REF_DISK) →
  (∃ y, slot_ref pg (m + d) = Some y ∧ blocks s y code) →
  ∃ s', __rec_review (S fuel) page fl s = Ret code s' ∧
        code ≠ 0 ∧
        lookup_ref (parent_ref pg) s' = Some (with_state WT_REF_MEM x) ∧
        (∀ r, r ≠ parent_ref pg → lookup_ref r s' = lookup_ref r s) ∧
        erase s' = erase s.
Proof.
  intros Hp Hint Hs Hx Ho Hnf Hk Hmem Hdistinct Hdisk (yb & Hyb & Hblock).
  assert (Hcode : code ≠ 0).
  { destruct Hblock as [[_ ->]|(_ & -> & _)]; done. }
  unfold __rec_review.
  rewrite (bind_run _ _ _ _ _ (get_page_run _ _ _ Hp)).
  destruct (decide (LF_ISSET fl WT_REC_SINGLE = 0)) as [_|]; [|done].
  destruct (hazard_exclusive_grant fuel (parent_ref pg) (wait_of fl) s x Hx Hnf)
    as (sA & HrunA & HxA & HotherA & HeA & HcA).
  rewrite (bind_run _ _ _ _ _ HrunA). destruct (decide (0 ≠ 0)); [done|].
  destruct (erase_same_page s sA page pg HeA Hp)
    as (pgA & HpA & _ & _ & HtyA & HprA & HnA).
  rewrite (bind_run _ _ _ _ _ (page_type_of_run _ _ _ HpA)).
  (* the slots as the walk finds them *)
  assert (HslotA : ∀ j y, slot_ref pg j = Some y →
                          lookup_ref (SlotRef page j) sA = Some y).
  { intros j y Hy. rewrite HotherA; [|intros Heq; by apply (Ho j)].
    apply lookup_ref_slot. by exists pg. }
  assert (HmemA : ∀ j, (j < m)%nat →
     ∃ y cpg, lookup_ref (SlotRef page j) sA = Some y ∧ ref_state y = WT_REF_MEM ∧
              heap sA !! ref_page y = Some cpg ∧ is_leaf cpg ∧ mergeable cpg ∧
              hazard_found (ref_page y) (conn_hazard sA) = false).
  { intros j Hj. destruct (Hmem j Hj) as (y & cpg & Hy & Hst & Hc & Hleaf & Hmerge & Hnfy).
    destruct (erase_same_page s sA _ cpg HeA Hc) as (cpg' & Hc' & Hfl' & Hmod' & Hty' & _).
    exists y, cpg'. split; [by apply HslotA|]. split; [done|]. split; [done|].
    split; [unfold is_leaf; by rewrite Hty'|]. split; [|by rewrite HcA].
    unfold mergeable, F_ISSET, __wt_page_is_modified in *. by rewrite Hfl', Hmod'. }
  assert (HdiskA : ∀ j, (m ≤ j < m + d)%nat →
     ∃ y, lookup_ref (SlotRef page j) sA = Some y ∧ ref_state y = WT_REF_DISK).
  { intros j Hj. destruct (Hdisk j Hj) as (y & Hy & Hst). exists y.
    split; [by apply HslotA | done]. }
  assert (HblockA : ∃ y, lookup_ref (SlotRef page (m + d)) sA = Some y ∧
                         blocks sA y code).
  { exists yb. split; [by apply HslotA|].
    destruct Hblock as [?|(Hst & -> & cpg & Hc & Hfl)]; [by left|]. right.
    destruct (erase_same_page s sA _ cpg HeA Hc) as (cpg' & Hc' & Hfl' & _).
    split; [done|]. split; [done|]. exists cpg'. split; [done|].
    unfold F_ISSET in *. by rewrite Hfl'. }
  rewrite <- HnA in Hk.
  (* the walk *)
  assert (Hwalk : ∃ last sB,
            match type pgA with
            | WT_PAGE_COL_INT => __rec_sub_excl_col (S fuel) page page fl
            | WT_PAGE_ROW_INT => __rec_sub_excl_row (S fuel) page page fl
            | _ => ret (0, page)
            end sA = Ret (code, last) sB ∧
            slots_set WT_REF_LOCKED page sA m sB ∧
            last_at page sA page m last).
  { rewrite HtyA. destruct Hint as [Hty|Hty]; rewrite Hty in *.
    - destruct (excl_walk_blocked get_col_slot WT_PAGE_COL_INT (or_introl eq_refl)
                  get_col_slot_run fuel
                  (λ p l, __rec_sub_excl_col fuel p l fl) page fl pgA sA m d page code
                  HpA HtyA Hs Hk HmemA HdiskA HblockA)
        as (last & sB & Hrun & Hset & _ & Hlast).
      exists last, sB. split; [|done].
      cbn [__rec_sub_excl_col].
      rewrite (bind_run _ _ _ _ _ (col_slots_run _ _ _ HpA HtyA)).
      change (foreach (excl_col_body (S fuel) (λ p l, __rec_sub_excl_col fuel p l fl)
                         page fl) (seq 0 (nslots pgA)) page)
        with (foreach (excl_body get_col_slot WT_PAGE_COL_INT (S fuel)
                         (λ p l, __rec_sub_excl_col fuel p l fl) page fl)
                      (seq 0 (nslots pgA)) page).
      by rewrite (bind_run _ _ _ _ _ Hrun).
    - destruct (excl_walk_blocked get_row_slot WT_PAGE_ROW_INT (or_intror eq_refl)
                  get_row_slot_run fuel
                  (λ p l, __rec_sub_excl_row fuel p l fl) page fl pgA sA m d page code
                  HpA HtyA Hs Hk HmemA HdiskA HblockA)
        as (last & sB & Hrun & Hset & _ & Hlast).
      exists last, sB. split; [|done].
      cbn [__rec_sub_excl_row].
      rewrite (bind_run _ _ _ _ _ (row_slots_run _ _ _ HpA HtyA)).
      change (foreach (excl_row_body (S fuel) (λ p l, __rec_sub_excl_row fuel p l fl)
                         page fl) (seq 0 (nslots pgA)) page)
        with (foreach (excl_body get_row_slot WT_PAGE_ROW_INT (S fuel)
                         (λ p l, __rec_sub_excl_row fuel p l fl) page fl)
                      (seq 0 (nslots pgA)) page).
      by rewrite (bind_run _ _ _ _ _ Hrun). }
  destruct Hwalk as (last & sB & HrunB & HsetB & Hlast).
  rewrite (bind_run _ _ _ _ _ HrunB). cbn [fst snd].
  destruct (decide (code ≠ 0)); [|done].
  (* the unlock *)
  pose proof HsetB as (HaB & HbB & HeB).
  destruct (erase_same_page sA sB page pgA HeB HpA)
    as (pgB & HpB & _ & _ & HtyB & HprB & HnB).
  unfold __rec_sub_excl_clear.
  destruct (decide (LF_ISSET fl WT_REC_SINGLE ≠ 0)) as [|_]; [done|].
  unfold bind at 1. unfold bind at 1.
  rewrite (get_page_run _ _ _ HpB).
  assert (HxB : lookup_ref (parent_ref pgB) sB = Some (with_state WT_REF_LOCKED x)).
  { rewrite HprB, HprA. rewrite HbB; [done|]. intros j _ Heq. by apply (Ho j). }
  unfold bind at 1.
  rewrite (set_ref_state_run _ WT_REF_MEM _ _ HxB).
  rewrite HprB, HprA.
  set (sC := store_ref (parent_ref pg) _ sB).
  assert (HxC : lookup_ref (parent_ref pg) sC = Some (with_state WT_REF_MEM x)).
  { unfold sC. rewrite HprB, HprA in HxB. by rewrite (lookup_store_ref _ _ _ _ HxB). }
  assert (HotherC : ∀ r, r ≠ parent_ref pg → lookup_ref r sC = lookup_ref r sB).
  { intros r Hr. unfold sC. by rewrite lookup_store_ref_ne. }
  assert (HeC : erase sC = erase sB).
  { unfold sC. rewrite HprB, HprA in HxB. by apply (erase_store_ref _ _ _ _ HxB). }
  destruct m as [|m'].
  - (* nothing was locked below the candidate *)
    destruct Hlast as [Hl0 _]. rewrite (Hl0 eq_refl).
    destruct (decide (page = page)); [|done].
    exists sC. split; [done|]. split; [done|]. split; [done|]. split.
    + intros r Hr. rewrite HotherC by done. rewrite HbB; [by apply HotherA|].
      intros j Hj. lia.
    + congruence.
  - destruct Hlast as [_ Hl]. destruct (Hl m' eq_refl) as (ym & Hym & Hlastm).
    destruct (Hmem m' ltac:(lia)) as (ym' & cpgm & Hym' & _ & Hcm & Hleafm & _).
    rewrite (HslotA _ _ Hym') in Hym. injection Hym as ->.
    assert (Hpl : page ≠ last).
    { intros Heq. rewrite Hlastm, <- Heq, Hp in Hcm. injection Hcm as <-.
      destruct Hleafm, Hint; congruence. }
    destruct (decide (page = last)) as [|_]; [done|].
    destruct (erase_same_page sB sC page pgB HeC HpB)
      as (pgC & HpC & _ & _ & HtyC & _ & HnC).
    unfold bind at 1. rewrite (page_type_of_run _ _ _ HpC).
    assert (HleavesC : ∀ j, (j < m')%nat →
              ∃ y cpg, lookup_ref (SlotRef page j) sC = Some y ∧ ref_page y ≠ last ∧
                       heap sC !! ref_page y = Some cpg ∧ is_leaf cpg).
    { intros j Hj. destruct (Hmem j ltac:(lia)) as (y & cpg & Hy & _ & Hc & Hleaf & _).
      assert (HesC : erase sC = erase s) by congruence.
      destruct (erase_same_page s sC _ cpg HesC Hc) as (cpg' & Hc' & _ & _ & Hty' & _).
      exists (with_state WT_REF_LOCKED y), cpg'. split; [|split; [|split; [done|]]].
      - rewrite HotherC; [|intros Heq; by apply (Ho j)].
        apply HaB; [lia | by apply HslotA].
      - simpl. rewrite <- Hlastm. by apply (Hdistinct j m'); [lia|..].
      - unfold is_leaf. by rewrite Hty'. }
    assert (HmarkC : (m' < nslots pgC)%nat →
              ∃ y, lookup_ref (SlotRef page m') sC = Some y ∧ ref_page y = last).
    { intros _. exists (with_state WT_REF_LOCKED ym). split; [|done].
      rewrite HotherC; [|intros Heq; by apply (Ho m')].
      apply HaB; [lia | by apply HslotA]. }
    assert (HI0 : slots_set WT_REF_MEM page sC 0 sC).
    { split; [|split]; [intros; lia | done | done]. }
    assert (Hm' : (m' < nslots pgC)%nat) by lia.
    assert (Hclear : ∃ s',
              match type pgC with
              | WT_PAGE_COL_INT => __rec_sub_excl_col_clear (S fuel) page last ;;; ret tt
              | WT_PAGE_ROW_INT => __rec_sub_excl_row_clear (S fuel) page last ;;; ret tt
              | _ => ret tt
              end sC = Ret tt s' ∧ slots_set WT_REF_MEM page sC (S m') s').
    { assert (HtyC' : type pgC = type pg) by congruence.
      destruct Hint as [Hty|Hty]; rewrite Hty in HtyC'; rewrite HtyC'.
      - destruct (foreach_clear_run get_col_slot WT_PAGE_COL_INT (or_introl eq_refl)
                    get_col_slot_run
                    (λ p, __rec_sub_excl_col_clear fuel p last) page last pgC sC m'
                    (nslots pgC) 0 sC HpC HtyC' eq_refl ltac:(lia) HleavesC HmarkC HI0)
          as (s' & Hrun & HI).
        destruct (decide (m' < nslots pgC)%nat); [|lia].
        exists s'. split; [|done]. cbn [__rec_sub_excl_col_clear].
        unfold bind at 1. unfold bind at 1. rewrite (col_slots_run _ _ _ HpC HtyC').
        unfold bind at 1.
        change (foreach (excl_col_clear_body (λ p, __rec_sub_excl_col_clear fuel p last)
                           page last) (seq 0 (nslots pgC)) tt sC)
          with (foreach (excl_clear_body get_col_slot WT_PAGE_COL_INT
                           (λ p, __rec_sub_excl_col_clear fuel p last) page last)
                        (seq 0 (nslots pgC)) tt sC).
        by rewrite Hrun.
      - destruct (foreach_clear_run get_row_slot WT_PAGE_ROW_INT (or_intror eq_refl)
                    get_row_slot_run
                    (λ p, __rec_sub_excl_row_clear fuel p last) page last pgC sC m'
                    (nslots pgC) 0 sC HpC HtyC' eq_refl ltac:(lia) HleavesC HmarkC HI0)
          as (s' & Hrun & HI).
        destruct (decide (m' < nslots pgC)%nat); [|lia].
        exists s'. split; [|done]. cbn [__rec_sub_excl_row_clear].
        unfold bind at 1. unfold bind at 1. rewrite (row_slots_run _ _ _ HpC HtyC').
        unfold bind at 1.
        change (foreach (excl_row_clear_body (λ p, __rec_sub_excl_row_clear fuel p last)
                           page last) (seq 0 (nslots pgC)) tt sC)
          with (foreach (excl_clear_body get_row_slot WT_PAGE_ROW_INT
                           (λ p, __rec_sub_excl_row_clear fuel p last) page last)
                        (seq 0 (nslots pgC)) tt sC).
        by rewrite Hrun. }
    destruct Hclear as (s' & HrunC & HaC & HbC & HeC').
    rewrite HrunC. exists s'. split; [done|]. split; [done|]. split; [|split].
    + rewrite HbC; [done|]. intros j _ Heq. by apply (Ho j).
    + intros r Hr.
      destruct r as [|p i]; [|destruct (decide (p = page ∧ (i < S m')%nat)) as [[-> Hi]|Hn]].
      * rewrite HbC by done. rewrite HotherC by done.
        rewrite HbB by done. by apply HotherA.
      * destruct (Hmem i Hi) as (y & cpg & Hy & Hst & _).
        pose proof (HslotA _ _ Hy) as HyA.
        assert (HyC : lookup_ref (SlotRef page i) sC = Some (with_state WT_REF_LOCKED y)).
        { rewrite HotherC by done. by apply HaB. }
        rewrite (HaC i _ Hi HyC). rewrite with_state_back by done.
        symmetry. apply lookup_ref_slot. by exists pg.
      * assert (Hout : ∀ j, (j < S m')%nat → SlotRef p i ≠ SlotRef page j).
        { intros j Hj [= -> ->]. by apply Hn. }
        rewrite HbC by done. rewrite HotherC by done.
        rewrite HbB by done. by apply HotherA.
    + congruence.
Qed.

Lemma rec_review_busy_restores_witness :
  ∃ s', __rec_review 1 100 0 st_busy = Ret 1 s' ∧
        lookup_ref (SlotRef 50 0) s' = Some (MkRef WT_REF_MEM 100 11 12) ∧
        lookup_ref (SlotRef 100 0) s' = Some (MkRef WT_REF_MEM 200 21 22) ∧
        lookup_ref (SlotRef 100 1) s' = Some (MkRef WT_REF_DISK NULL 31 32) ∧
        lookup_ref (SlotRef 100 2) s' = Some (MkRef WT_REF_MEM 400 41 42).
Proof.
  destruct (rec_review_busy_restores 0 100 0 st_busy
              (internal_100 0 None
                 [MkRef WT_REF_MEM 200 21 22; MkRef WT_REF_DISK NULL 31 32;
                  MkRef WT_REF_MEM 400 41 42])
              (MkRef WT_REF_MEM 100 11 12) 1 1 1)
    as (s' & Hrun & _ & Hparent & Hother & _).
  - vm_compute; reflexivity.
  - by right.
  - vm_compute; reflexivity.
  - vm_compute; reflexivity.
  - intros i. discriminate.
  - vm_compute; reflexivity.
  - vm_compute. lia.
  - intros j Hj. assert (j = 0%nat) as -> by lia.
    exists (MkRef WT_REF_MEM 200 21 22), (leaf WT_PAGE_REC_EMPTY None 0).
    split; [vm_compute; reflexivity|]. split; [reflexivity|].
    split; [vm_compute; reflexivity|]. split; [split; vm_compute; discriminate|].
    split; [|vm_compute; reflexivity].
    right. split; [right; vm_compute; discriminate | reflexivity].
  - intros i j y y' Hij. lia.
  - intros j Hj. assert (j = 1%nat) as -> by lia.
    exists (MkRef WT_REF_DISK NULL 31 32). split; [vm_compute; reflexivity | reflexivity].
  - exists (MkRef WT_REF_MEM 400 41 42). split; [vm_compute; reflexivity|].
    right. split; [reflexivity|]. split; [reflexivity|].
    exists (leaf 0 None 2). split; vm_compute; reflexivity.
  - exists s'. split; [exact Hrun|]. split; [exact Hparent|].
    split; [|split]; rewrite Hother by discriminate; vm_compute; reflexivity.
Defined.

(** ** The discard walk removes the merged pages *)

Lemma slot_refs_lookup (pg : WT_PAGE) (i : nat) : slot_refs pg !! i = slot_ref pg i.
Proof. unfold slot_refs, slot_ref. destruct (u pg); by rewrite ?list_lookup_fmap. Qed.

Lemma slot_refs_length (pg : WT_PAGE) : length (slot_refs pg) = nslots pg.
Proof. unfold slot_refs, nslots. destruct (u pg); by rewrite ?length_fmap. Qed.

Lemma discards_heap_sub (l : list ptr) (s s' : St) (h0 : gmap Z WT_PAGE) :
  discards l s s' →
  (∀ p pg, heap s !! p = Some pg → h0 !! p = Some pg) →
  ∀ p pg, heap s' !! p = Some pg → h0 !! p = Some pg.
Proof.
  intros (_ & _ & _ & Hh & _) Hsub p pg. rewrite Hh.
  destruct (decide (p ∈ l)); [done|]. apply Hsub.
Qed.

Lemma merged_row_S (fuel : nat) (h : gmap Z WT_PAGE) (parent : ptr) (pg : WT_PAGE) :
  h !! parent = Some pg →
  merged_row (S fuel) h parent = slot_refs pg ≫= merged_slot fuel h.
Proof. intros Hp. cbn [merged_row]. by rewrite Hp. Qed.

(** One pass of the discard loop. *)
Lemma discard_row_body_run (fuel : nat) (h0 : gmap Z WT_PAGE) (parent : ptr)
    (i : nat) (s : St) (x : step unit Z) (s' : St) (pg : WT_PAGE) :
  (∀ t t', (∀ p pg, heap t !! p = Some pg → h0 !! p = Some pg) →
     ∀ q, __rec_sub_discard_row fuel q t = Ret 0 t' →
          discards (merged_row fuel h0 q) t t') →
  (∀ p pg, heap s !! p = Some pg → h0 !! p = Some pg) →
  h0 !! parent = Some pg →
  discard_row_body (__rec_sub_discard_row fuel) parent i tt s = Ret x s' →
  match x with
  | Next _ => ∃ y, slot_ref pg i = Some y ∧ discards (merged_slot fuel h0 y) s s'
  | Return e => e ≠ 0
  end.
Proof.
  intros IH Hsub Hp0. unfold discard_row_body.
  intros (c & s1 & Hc & Hrest)%bind_Ret.
  pose proof (reads_get_row_slot _ _ _ _ _ Hc) as ->.
  apply get_row_slot_lookup in Hc as Hy.
  apply lookup_ref_slot in Hy as (pg' & Hp' & Hsl).
  apply Hsub in Hp'. rewrite Hp0 in Hp'. injection Hp' as <-.
  change (WT_ROW_REF_STATE c) with (ref_state (ref c)) in Hrest.
  change (WT_ROW_REF_PAGE c) with (ref_page (ref c)) in Hrest. cbv zeta in Hrest.
  unfold merged_slot.
  destruct (decide (ref_state (ref c) ≠ WT_REF_DISK)) as [Hnd|Hd].
  2:{ injection Hrest as <- <-. exists (ref c). split; [done|].
      rewrite decide_False by done. apply discards_refl. }
  apply bind_Ret in Hrest as (ty & s2 & Hty & Hrest).
  unfold page_type_of in Hty.
  apply bind_Ret in Hty as (cpg & s3 & [Hcpg ->]%get_page_Ret & [= <- <-]).
  apply bind_Ret in Hrest as (e1 & s4 & Hsubw & Hrest).
  destruct (decide (e1 ≠ 0)) as [He1|He1]; [by injection Hrest as <- <-|].
  apply dec_stable in He1 as ->.
  apply bind_Ret in Hrest as (e2 & s5 & Hdp & Hrest).
  destruct (decide (e2 ≠ 0)) as [He2|He2]; [by injection Hrest as <- <-|].
  apply dec_stable in He2 as ->. injection Hrest as <- <-.
  exists (ref c). split; [done|]. rewrite decide_True by done.
  rewrite (Hsub _ _ Hcpg).
  apply rec_discard_page_discards in Hdp. destruct (decide (0 = 0)); [|done].
  apply (discards_trans _ _ s s4); [|done].
  destruct (decide (type cpg = WT_PAGE_ROW_INT)).
  - by apply IH.
  - injection Hsubw as <-. apply discards_refl.
Qed.

(** The discard walk below a row-store page removes the pages merged into
    it, in the order of [merged_row]. *)
Lemma rec_sub_discard_row_exact (fuel : nat) (h0 : gmap Z WT_PAGE) :
  ∀ s s', (∀ p pg, heap s !! p = Some pg → h0 !! p = Some pg) →
  ∀ parent, __rec_sub_discard_row fuel parent s = Ret 0 s' →
            discards (merged_row fuel h0 parent) s s'.
Proof.
  induction fuel as [|fuel IHf]; intros s s' Hsub parent; [done|].
  cbn [__rec_sub_discard_row].
  intros (idx & s1 & Hidx & (x & s2 & Hloop & Hret)%bind_Ret)%bind_Ret.
  unfold row_slots in Hidx.
  apply bind_Ret in Hidx as (pg & s3 & [Hp ->]%get_page_Ret & Hidx).
  assert (idx = seq 0 (nslots pg) ∧ s1 = s) as [-> ->].
  { unfold nslots. destruct (u pg); try done. by injection Hidx as <- <-. }
  pose proof (Hsub _ _ Hp) as Hp0. rewrite (merged_row_S _ _ _ _ Hp0).
  enough (Hgen : ∀ len i t,
            (i + len = nslots pg)%nat →
            (∀ p pg, heap t !! p = Some pg → h0 !! p = Some pg) →
            foreach (discard_row_body (__rec_sub_discard_row fuel) parent)
              (seq i len) tt t = Ret x s2 →
            match x with
            | Next _ => discards (drop i (slot_refs pg) ≫= merged_slot fuel h0) t s2
            | Return e => e ≠ 0
            end).
  { specialize (Hgen (nslots pg) 0%nat s eq_refl Hsub Hloop).
    destruct x as [[]|e].
    - injection Hret as <-. by rewrite drop_0 in Hgen.
    - by injection Hret as -> _. }
  induction len as [|len IH]; intros i t Hlen Ht.
  - intros [= <- <-]. rewrite drop_ge by (rewrite slot_refs_length; lia).
    apply discards_refl.
  - cbn [seq foreach]. intros (r & t1 & Hbody & Hrest)%bind_Ret.
    pose proof (discard_row_body_run fuel h0 parent i t r t1 pg IHf Ht Hp0 Hbody)
      as Hpass.
    destruct r as [[]|e].
    + destruct Hpass as (y & Hy & Hd).
      rewrite <- slot_refs_lookup in Hy.
      rewrite (drop_S _ _ _ Hy).
      assert (Ht1 := discards_heap_sub _ _ _ h0 Hd Ht).
      specialize (IH (S i) t1 ltac:(lia) Ht1 Hrest).
      destruct x as [[]|e]; [|done].
      change ((y :: drop (S i) (slot_refs pg)) ≫= merged_slot fuel h0)
        with (merged_slot fuel h0 y ++ (drop (S i) (slot_refs pg) ≫= merged_slot fuel h0)).
      by eapply discards_trans.
    + by injection Hrest as <- <-.
Qed.

(** ** The merged pages of a tree and of the tree the review leaves *)

Lemma held_in_app (r : ref_ptr) (l1 l2 : list ptr) :
  held_in r (l1 ++ l2) ↔ held_in r l1 ∨ held_in r l2.
Proof.
  split.
  - intros (p & i & -> & [?|?]%elem_of_app); [left|right]; by exists p, i.
  - intros [(p & i & -> & ?)|(p & i & -> & ?)]; exists p, i;
      (split; [done|]); apply elem_of_app; auto.
Qed.

Lemma same_tree_refl (pr : ref_ptr) (s : St) : same_tree pr s s.
Proof. by split. Qed.

Lemma same_tree_trans (pr : ref_ptr) (s1 s2 s3 : St) :
  same_tree pr s1 s2 → same_tree pr s2 s3 → same_tree pr s1 s3.
Proof.
  intros [Ht1 Hs1] [Ht2 Hs2]. split.
  - intros p. by rewrite Ht2.
  - intros r Hr. by rewrite Hs2, Hs1.
Qed.

Lemma merged_slot_same (pr : ref_ptr) (s s' : St) (fuel : nat) (y y' : WT_REF) :
  (∀ p, type <$> heap s' !! p = type <$> heap s !! p) →
  (∀ parent, outside pr parent →
     ¬ held_in pr (merged_row fuel (heap s) parent) →
     merged_row fuel (heap s') parent = merged_row fuel (heap s) parent) →
  shape y' = shape y →
  ¬ held_in pr (merged_slot fuel (heap s) y) →
  merged_slot fuel (heap s') y' = merged_slot fuel (heap s) y.
Proof.
  intros Hty IH [= Hpage Hdisk] Hn. unfold merged_slot in *.
  rewrite Hpage.
  assert (Hiff : ref_state y' = WT_REF_DISK ↔ ref_state y = WT_REF_DISK).
  { by rewrite <- (bool_decide_eq_true (ref_state y' = WT_REF_DISK)), Hdisk,
      bool_decide_eq_true. }
  destruct (decide (ref_state y ≠ WT_REF_DISK)) as [Hnd|Hd].
  - rewrite decide_True by tauto.
    f_equal. specialize (Hty (ref_page y)).
    destruct (heap s !! ref_page y) as [cpg|], (heap s' !! ref_page y) as [cpg'|];
      try done.
    injection Hty as Hty. rewrite Hty.
    destruct (decide (type cpg = WT_PAGE_ROW_INT)); [|done].
    apply IH.
    + intros j ->. apply Hn. exists (ref_page y), j. split; [done|].
      apply elem_of_app. right. by apply list_elem_of_singleton.
    + intros Hh. apply Hn. apply held_in_app. by left.
  - apply dec_stable in Hd. rewrite decide_False; [done|]. tauto.
Qed.

(** The merged pages depend on the types of the pages and on the shapes of
    the references in them only. *)
Lemma merged_row_same (pr : ref_ptr) (s s' : St) :
  same_tree pr s s' →
  ∀ fuel parent, outside pr parent →
    ¬ held_in pr (merged_row fuel (heap s) parent) →
    merged_row fuel (heap s') parent = merged_row fuel (heap s) parent.
Proof.
  intros [Hty Hsh]. induction fuel as [|fuel IH]; intros parent Ho Hn; [done|].
  pose proof (Hty parent) as Htp. cbn [merged_row] in *.
  destruct (heap s !! parent) as [pg|] eqn:Hp, (heap s' !! parent) as [pg'|] eqn:Hp';
    try done.
  assert (Hall : Forall2 (λ y' y, shape y' = shape y) (slot_refs pg') (slot_refs pg)).
  { apply Forall2_lookup. intros i. specialize (Hsh (SlotRef parent i) (λ H, Ho i (eq_sym H))).
    simpl in Hsh. rewrite Hp, Hp' in Hsh. simpl in Hsh.
    rewrite !slot_refs_lookup.
    destruct (slot_ref pg' i), (slot_ref pg i); try done; constructor.
    simpl in Hsh. congruence. }
  change (¬ held_in pr (slot_refs pg ≫= merged_slot fuel (heap s))) in Hn.
  change (slot_refs pg' ≫= merged_slot fuel (heap s') =
          slot_refs pg ≫= merged_slot fuel (heap s)).
  revert Hn. induction Hall as [|y' y l' l Hy _ IHl]; intros Hn; [done|].
  change ((?a :: ?b) ≫= ?f) with (f a ++ (b ≫= f)) in *.
  rewrite held_in_app in Hn.
  f_equal.
  - apply (merged_slot_same pr); [done|exact IH|done|tauto].
  - apply IHl. tauto.
Qed.

Lemma merged_same (pr : ref_ptr) (s s' : St) (fuel : nat) (page : ptr) :
  same_tree pr s s' → outside pr page →
  ¬ held_in pr (merged fuel (heap s) page) →
  merged fuel (heap s') page = merged fuel (heap s) page.
Proof.
  intros Hsame Ho Hn. unfold merged in *. pose proof (proj1 Hsame page) as Hty.
  destruct (heap s !! page) as [pg|], (heap s' !! page) as [pg'|]; try done.
  injection Hty as ->. destruct (decide (type pg = WT_PAGE_ROW_INT)); [|done].
  by apply (merged_row_same pr).
Qed.

(** ** A successful review keeps the shape of the tree *)

Lemma erase_types (s s' : St) (p : ptr) :
  erase s' = erase s → type <$> heap s' !! p = type <$> heap s !! p.
Proof.
  intros He. pose proof (erase_heap_lookup s s' p He) as H.
  destruct (heap s' !! p) as [pg'|], (heap s !! p) as [pg|]; try done.
  simpl in *. injection H as H. by apply erase_page_fields in H as (_ & _ & _ & _ & _ & ->).
Qed.

Lemma shape_with_state (st : wt_state) (y : WT_REF) :
  ref_state y ≠ WT_REF_DISK → st ≠ WT_REF_DISK → shape (with_state st y) = shape y.
Proof.
  intros Hy Hst. unfold shape. simpl. f_equal.
  by rewrite !bool_decide_eq_false_2.
Qed.

Lemma hazard_exclusive_other (fuel : nat) (r0 : ref_ptr) (force : Z) (s : St)
    (e : Z) (s' : St) (r : ref_ptr) :
  __hazard_exclusive fuel r0 force s = Ret e s' → r ≠ r0 →
  lookup_ref r s' = lookup_ref r s.
Proof.
  unfold __hazard_exclusive.
  intros ([] & s1 & (y & Hy & ->)%set_ref_state_Ret & Hretry)%bind_Ret Hne.
  destruct (hazard_retry_frame _ _ _ _ (with_state WT_REF_LOCKED y) _ _
              (lookup_store_ref _ _ _ _ Hy) Hretry) as (_ & Hother & _).
  rewrite (Hother r Hne). by apply lookup_store_ref_ne.
Qed.

Lemma hazard_exclusive_shape (fuel : nat) (r0 : ref_ptr) (force : Z) (s : St)
    (y : WT_REF) (e : Z) (s' : St) (r : ref_ptr) :
  lookup_ref r0 s = Some y → ref_state y ≠ WT_REF_DISK →
  __hazard_exclusive fuel r0 force s = Ret e s' →
  shape <$> lookup_ref r s' = shape <$> lookup_ref r s.
Proof.
  intros Hy Hnd Hrun. destruct (decide (r = r0)) as [->|Hne].
  2:{ by rewrite (hazard_exclusive_other _ _ _ _ _ _ _ Hrun Hne). }
  unfold __hazard_exclusive in Hrun.
  apply bind_Ret in Hrun as ([] & s1 & (y' & Hy' & ->)%set_ref_state_Ret & Hretry).
  rewrite Hy in Hy'. injection Hy' as <-.
  destruct (hazard_retry_frame _ _ _ _ (with_state WT_REF_LOCKED y) _ _
              (lookup_store_ref _ _ _ _ Hy) Hretry) as ([(_ & ->)|(_ & _ & ->)] & _);
    rewrite Hy; simpl; f_equal.
  - by apply shape_with_state.
  - unfold shape; simpl. f_equal. by rewrite !bool_decide_eq_false_2.
Qed.

Lemma rec_sub_excl_page_shape (fuel : nat) (r0 : ref_ptr) (page : ptr) (fl : Z)
    (s : St) (y : WT_REF) (e : Z) (s' : St) (r : ref_ptr) :
  lookup_ref r0 s = Some y → ref_state y ≠ WT_REF_DISK →
  __rec_sub_excl_page fuel r0 page fl s = Ret e s' →
  shape <$> lookup_ref r s' = shape <$> lookup_ref r s.
Proof.
  intros Hy Hnd. unfold __rec_sub_excl_page.
  intros (pg & s1 & [_ ->]%get_page_Ret & Hrest)%bind_Ret.
  destruct (decide _); [by injection Hrest as _ <-|].
  apply bind_Ret in Hrest as (e1 & s2 & Hex & Hrest).
  assert (Hs2 : shape <$> lookup_ref r s2 = shape <$> lookup_ref r s).
  { destruct (decide (LF_ISSET fl WT_REC_SINGLE = 0)).
    - by eapply hazard_exclusive_shape.
    - by injection Hex as _ <-. }
  rewrite <- Hs2. f_equal. f_equal.
  destruct (decide (e1 ≠ 0)); [by injection Hrest as _ <-|].
  apply bind_Ret in Hrest as (pg2 & s3 & [_ ->]%get_page_Ret & Hrest).
  repeat (destruct (decide _) in Hrest; try (by injection Hrest as _ <-)).
  all: by destruct (__wt_page_is_modified pg2); injection Hrest as _ <-.
Qed.

(** One pass of the loop of the row walk. *)
Lemma excl_row_body_shape (fuel : nat) (rec : ptr → ptr → M (Z * ptr))
    (parent : ptr) (fl : Z) (i : nat) (last : ptr) (s : St)
    (x : step ptr (Z * ptr)) (s' : St) (r : ref_ptr) :
  (∀ p l t b t', rec p l t = Ret b t' →
                 shape <$> lookup_ref r t' = shape <$> lookup_ref r t) →
  excl_row_body fuel rec parent fl i last s = Ret x s' →
  shape <$> lookup_ref r s' = shape <$> lookup_ref r s.
Proof.
  intros Hrec. unfold excl_row_body.
  intros (c & s1 & Hc & Hrest)%bind_Ret.
  pose proof (reads_get_row_slot _ _ _ _ _ Hc) as ->.
  apply get_row_slot_lookup in Hc as Hy.
  change (WT_ROW_REF_STATE c) with (ref_state (ref c)) in Hrest.
  change (WT_ROW_REF_PAGE c) with (ref_page (ref c)) in Hrest.
  destruct (ref_state (ref c)) eqn:Hst; try (by injection Hrest as _ <-).
  cbv zeta in Hrest. apply bind_Ret in Hrest as (e & s2 & Hex & Hrest).
  assert (Hs2 : shape <$> lookup_ref r s2 = shape <$> lookup_ref r s).
  { eapply rec_sub_excl_page_shape; [exact Hy|by rewrite Hst|exact Hex]. }
  rewrite <- Hs2.
  destruct (decide (e ≠ 0)); [by injection Hrest as _ <-|].
  apply bind_Ret in Hrest as (ty & s3 & Hty & Hrest).
  pose proof (reads_page_type_of _ _ _ _ Hty) as ->.
  destruct (decide (ty = WT_PAGE_ROW_INT)); [|by injection Hrest as _ <-].
  apply bind_Ret in Hrest as (b & s4 & Hw & Hrest).
  rewrite <- (Hrec _ _ _ _ _ Hw).
  by destruct (decide (b.1 ≠ 0)); injection Hrest as _ <-.
Qed.

Lemma foreach_shape {A B : Type} (body : nat → A → M (step A B)) (r : ref_ptr)
    (idx : list nat) :
  (∀ i a s x s', body i a s = Ret x s' →
                 shape <$> lookup_ref r s' = shape <$> lookup_ref r s) →
  ∀ a s x s', foreach body idx a s = Ret x s' →
              shape <$> lookup_ref r s' = shape <$> lookup_ref r s.
Proof.
  intros Hb. induction idx as [|i idx IH]; intros a s x s'; cbn [foreach].
  - by intros [= _ <-].
  - intros (y & s1 & Hbody & Hrest)%bind_Ret.
    rewrite <- (Hb _ _ _ _ _ Hbody).
    destruct y as [a'|b]; [by eapply IH|by injection Hrest as _ <-].
Qed.

Lemma rec_sub_excl_row_shape (fuel : nat) (r : ref_ptr) :
  ∀ parent last fl s x s',
    __rec_sub_excl_row fuel parent last fl s = Ret x s' →
    shape <$> lookup_ref r s' = shape <$> lookup_ref r s.
Proof.
  induction fuel as [|fuel IH]; intros parent last fl s x s'; [done|].
  cbn [__rec_sub_excl_row].
  intros (idx & s1 & Hidx & (y & s2 & Hloop & Hret)%bind_Ret)%bind_Ret.
  pose proof (reads_row_slots _ _ _ _ Hidx) as ->.
  assert (s' = s2) as -> by (by destruct y; injection Hret as _ <-).
  revert Hloop. apply foreach_shape. intros i a t z t'.
  apply excl_row_body_shape. intros p l t0 b t0'. apply IH.
Qed.

(** A review that grants the page leaves every reference but the page's
    own on disk if it was, and off disk if it was. *)
Lemma rec_review_same_tree (fuel : nat) (page : ptr) (fl : Z) (s : St)
    (pg : WT_PAGE) (s' : St) :
  heap s !! page = Some pg → type pg ≠ WT_PAGE_COL_INT →
  __rec_review fuel page fl s = Ret 0 s' →
  same_tree (parent_ref pg) s s'.
Proof.
  intros Hp Hty Hrun. split.
  { intros p. apply erase_types. by eapply frames_rec_review. }
  intros r Hr. revert Hrun. unfold __rec_review.
  rewrite (bind_run _ _ _ _ _ (get_page_run _ _ _ Hp)).
  intros (e & s1 & Hex & Hrest)%bind_Ret.
  assert (lookup_ref r s1 = lookup_ref r s ∧ erase s1 = erase s) as [Hs1 He1].
  { destruct (decide (LF_ISSET fl WT_REC_SINGLE = 0)).
    - split; [by eapply hazard_exclusive_other|by eapply frames_hazard_exclusive].
    - by injection Hex as _ <-. }
  rewrite <- Hs1.
  destruct (decide (e ≠ 0)); [by injection Hrest as _ <-|].
  cbv zeta in Hrest.
  destruct (erase_get_page s s1 page pg He1 Hp) as (pg1 & Hp1 & Hpg1).
  apply erase_page_fields in Hpg1 as (_ & _ & _ & _ & _ & Hty1).
  rewrite (bind_run _ _ _ _ _ (page_type_of_run _ _ _ Hp1)), Hty1 in Hrest.
  apply bind_Ret in Hrest as (x & s2 & Hwalk & Hrest).
  apply bind_Ret in Hrest as ([] & s3 & Hclear & [= Hx <-]).
  rewrite Hx in Hclear. destruct (decide (0 ≠ 0)); [done|]. injection Hclear as <-.
  destruct (type pg); try done; try (by injection Hwalk as _ <-).
  by eapply rec_sub_excl_row_shape.
Qed.

(** ** Evicting a page that reconciles to a result *)

Lemma discards_lookup_ref (l : list ptr) (s s' : St) (r : ref_ptr) :
  discards l s s' → ¬ held_in r l → lookup_ref r s' = lookup_ref r s.
Proof.
  intros (_ & _ & _ & Hh & Hr & _) Hn. destruct r as [|p i]; simpl; [by rewrite Hr|].
  rewrite Hh. destruct (decide (p ∈ l)); [|done].
  exfalso. apply Hn. by exists p, i.
Qed.

Lemma same_tree_put (pr : ref_ptr) (s t : St) (page : ptr) (pg pg' : WT_PAGE) :
  heap s !! page = Some pg → u pg' = u pg →
  heap t = <[page := pg']> (heap s) → root_page t = root_page s →
  same_tree pr s t.
Proof.
  intros Hp Hu Hh Hr. split.
  - intros p. rewrite Hh. destruct (decide (page = p)) as [<-|Hne].
    + rewrite lookup_insert_eq, Hp. simpl. unfold type. by rewrite Hu.
    + by rewrite lookup_insert_ne.
  - intros r _. f_equal. destruct r as [|q i]; simpl; [by rewrite Hr|].
    rewrite Hh. destruct (decide (page = q)) as [<-|Hne].
    + rewrite lookup_insert_eq, Hp. simpl. unfold slot_ref. by rewrite Hu.
    + by rewrite lookup_insert_ne.
Qed.

Lemma same_tree_store (pr : ref_ptr) (y : WT_REF) (s : St) :
  same_tree pr s (store_ref pr y s).
Proof.
  split.
  - intros p. destruct pr as [|q i]; simpl; [done|].
    destruct (heap s !! q) as [pg|] eqn:Hq; [|done]. simpl.
    destruct (decide (q = p)) as [<-|Hne].
    + rewrite lookup_insert_eq, Hq. simpl. f_equal. unfold type, slot_with_ref.
      destruct (u pg) eqn:Hu; simpl; by rewrite ?Hu.
    + by rewrite lookup_insert_ne.
  - intros r Hr. by rewrite lookup_store_ref_ne.
Qed.

(** The run of [__wt_rec_evict] up to the update of the parent. *)
Lemma evict_to_update (fuel : nat) (page : ptr) (fl : Z) (s : St) (pg : WT_PAGE)
    (k : Z) (om : option WT_PAGE_MODIFY) (s' : St) :
  heap s !! page = Some pg →
  F_ISSET pg WT_PAGE_REC_SPLIT_MERGE = 0 →
  type pg ≠ WT_PAGE_COL_INT →
  outcome pg s k om →
  __wt_rec_evict fuel page fl s = Ret 0 s' →
  ∃ s2 pg2,
    skel s2 = skel s ∧ same_tree (parent_ref pg) s s2 ∧
    heap s2 !! page = Some pg2 ∧
    parent_ref pg2 = parent_ref pg ∧ parent pg2 = parent pg ∧ type pg2 = type pg ∧
    F_ISSET pg2 WT_PAGE_REC_MASK = k ∧ modify pg2 = om ∧
    evict_update fuel page (evict_flags pg fl) s2 = Ret 0 s'.
Proof.
  intros Hp Hsm Hty Hout. unfold __wt_rec_evict.
  rewrite (bind_run _ _ _ _ pg) by (by apply get_page_run).
  destruct (decide _); [done|].
  intros (fl' & s0 & Hs0 & (e1 & s1 & Hrev & Hrest)%bind_Ret)%bind_Ret.
  assert (∃ pg0, fl' = evict_flags pg fl ∧ skel s0 = skel s ∧
            same_tree (parent_ref pg) s s0 ∧
            rec_answers s0 = rec_answers s ∧ heap s0 !! page = Some pg0 ∧
            modify pg0 = modify pg ∧ parent_ref pg0 = parent_ref pg ∧
            parent pg0 = parent pg ∧ type pg0 = type pg ∧
            F_ISSET pg0 WT_PAGE_REC_MASK = F_ISSET pg WT_PAGE_REC_MASK)
    as (pg0 & -> & Hsk0 & Hst0 & Hans0 & Hp0 & Hm0 & Hr0 & Hpar0 & Hty0 & Hf0).
  { revert Hs0. unfold evict_flags.
    destruct (decide (F_ISSET pg WT_PAGE_FORCE_EVICT ≠ 0)); intros Hs0.
    - unfold __wt_evict_force_clear, F_CLR, bind in Hs0.
      rewrite (get_page_run _ _ _ Hp) in Hs0. injection Hs0 as <- <-.
      eexists. split; [done|]. split; [|split; [|split; [done|split]]].
      + by apply (skel_put_page s page pg); [|apply skel_page_same].
      + by apply (same_tree_put _ s _ page pg
                     (set_flags (Z.ldiff (flags pg) WT_PAGE_FORCE_EVICT) pg)).
      + simpl. by rewrite lookup_insert_eq.
      + repeat split. unfold F_ISSET; simpl. apply mask_after_force_clear.
    - injection Hs0 as <- <-. exists pg. repeat split; try done. }
  destruct (decide (e1 ≠ 0)) as [He1|He1]; [by injection Hrest as -> _|].
  apply dec_stable in He1 as ->.
  pose proof (frames_rec_review _ _ _ _ _ _ Hrev) as Hfr.
  assert (Hst1 : same_tree (parent_ref pg) s s1).
  { apply (same_tree_trans _ _ s0); [done|]. rewrite <- Hr0.
    apply (rec_review_same_tree fuel page (evict_flags pg fl)); [done|congruence|done]. }
  destruct (erase_get_page s0 s1 page pg0 Hfr Hp0) as (pg1 & Hp1 & Hpg1).
  apply erase_page_fields in Hpg1 as (Hflags & Hmod & Hpref & Hpar & _ & Hty1).
  assert (Hsk1 : skel s1 = skel s) by (by rewrite (skel_of_erase _ _ Hfr)).
  assert (Hans1 : rec_answers s1 = rec_answers s).
  { by rewrite (f_equal rec_answers Hfr : rec_answers s1 = rec_answers s0). }
  rewrite (bind_run _ _ _ _ pg1) in Hrest by (by apply get_page_run).
  assert (Hdirty : __wt_page_is_modified pg1 = __wt_page_is_modified pg).
  { unfold __wt_page_is_modified. by rewrite Hmod, Hm0. }
  rewrite Hdirty in Hrest. unfold outcome in Hout.
  destruct (__wt_page_is_modified pg).
  - destruct Hout as (a & rest & Ha & Hok & Hfl & Hom).
    apply bind_Ret in Hrest as (e2 & s2 & Hw & Hrest).
    rewrite <- Hans1 in Ha.
    rewrite (rec_write_run page s1 pg1 a rest Hp1 Ha) in Hw.
    destruct (decide (rec_ret a = 0)); [|done]. injection Hw as <- <-.
    destruct (decide (0 ≠ 0)); [done|].
    eexists _, (written a pg1).
    split; [|split; [|split; [|split; [|split; [|split; [|split; [|split;
      [|exact Hrest]]]]]]]].
    + rewrite <- Hsk1.
      apply (skel_put_page (set_rec_answers rest s1) page pg1); [done|].
      by apply skel_page_same.
    + apply (same_tree_trans _ _ s1); [done|].
      by apply (same_tree_put _ s1 _ page pg1 (written a pg1)).
    + simpl. by rewrite lookup_insert_eq.
    + simpl. congruence.
    + simpl. congruence.
    + unfold type in *. simpl. congruence.
    + unfold F_ISSET, written; simpl. by rewrite mask_after_write.
    + by rewrite Hom.
  - destruct Hout as [Hk Hom]. unfold bind at 1, ret in Hrest.
    destruct (decide (0 ≠ 0)); [done|].
    exists s1, pg1. repeat split; try done; try congruence; try apply Hst1.
    unfold F_ISSET in *. congruence.
Qed.

Lemma evict_update_dirty (fuel : nat) (page : ptr) (fl : Z) (s : St) (pg : WT_PAGE)
    (s' : St) :
  heap s !! page = Some pg → F_ISSET pg WT_PAGE_REC_MASK ≠ 0 →
  evict_update fuel page fl s = Ret 0 s' →
  __rec_parent_dirty_update fuel page fl s = Ret 0 s'.
Proof.
  intros Hp Hf. unfold evict_update.
  rewrite (bind_run _ _ _ _ pg) by (by apply get_page_run).
  destruct (decide _); [done|].
  intros (e & s1 & Hup & Hret)%bind_Ret.
  destruct (decide (e ≠ 0)) as [Hne|Hne].
  - injection Hret as He Hs. done.
  - injection Hret as Hs. assert (e = 0) as -> by lia. by subst s1.
Qed.

(** The end of the dirty update: the merged pages go, then the page. *)
Lemma dirty_update_discard_exact (fuel : nat) (page : ptr) (s : St) (pg : WT_PAGE)
    (s' : St) :
  heap s !! page = Some pg → type pg ≠ WT_PAGE_COL_INT →
  dirty_update_discard fuel page s = Ret 0 s' →
  discards (merged fuel (heap s) page ++ [page]) s s'.
Proof.
  intros Hp Hty. unfold dirty_update_discard.
  intros (e1 & s1 & Hsub & Hrest)%bind_Ret.
  destruct (decide (e1 ≠ 0)) as [|He1]; [by injection Hrest as -> _|].
  apply dec_stable in He1 as ->.
  apply bind_Ret in Hrest as (e2 & s2 & Hdp & Hrest).
  destruct (decide (e2 ≠ 0)) as [|He2]; [by injection Hrest as -> _|].
  apply dec_stable in He2 as ->. injection Hrest as <-.
  apply rec_discard_page_discards in Hdp. destruct (decide (0 = 0)); [|done].
  apply (discards_trans _ _ s s1); [|done].
  unfold __rec_sub_discard in Hsub.
  rewrite (bind_run _ _ _ _ _ (page_type_of_run _ _ _ Hp)) in Hsub.
  unfold merged. rewrite Hp.
  destruct (type pg); try done; try (injection Hsub as <-; apply discards_refl).
  rewrite decide_True by done. by apply (rec_sub_discard_row_exact fuel (heap s)).
Qed.

(** After the stores through the parent reference, the discards. *)
Lemma update_tail (fuel : nat) (page : ptr) (s sb : St) (pgb : WT_PAGE)
    (pr : ref_ptr) (y : WT_REF) (s' : St) :
  same_tree pr s sb → discarded sb = discarded s →
  heap sb !! page = Some pgb → type pgb ≠ WT_PAGE_COL_INT →
  lookup_ref pr sb = Some y → outside pr page →
  ¬ held_in pr (merged fuel (heap s) page) →
  dirty_update_discard fuel page sb = Ret 0 s' →
  discarded s' = discarded s ++ merged fuel (heap s) page ++ [page] ∧
  (∀ p, heap s' !! p = None ↔
        p ∈ merged fuel (heap s) page ++ [page] ∨ heap s !! p = None) ∧
  lookup_ref pr s' = Some y.
Proof.
  intros Hsame Hd Hp Hty Hy Ho Hn Hrun.
  pose proof (dirty_update_discard_exact _ _ _ _ _ Hp Hty Hrun) as Hdis.
  rewrite (merged_same pr s sb fuel page Hsame Ho Hn) in Hdis.
  pose proof Hdis as (Hd' & _ & _ & Hh & _).
  split; [by rewrite Hd', Hd|]. split.
  - intros p. rewrite Hh. pose proof (proj1 Hsame p) as Htp.
    destruct (decide _) as [Hin|Hnin].
    + split; [by left|done].
    + split; [right|intros [?|?]; [done|]];
        destruct (heap sb !! p), (heap s !! p); done.
  - rewrite <- Hy. apply (discards_lookup_ref _ _ _ _ Hdis).
    intros (p & i & -> & [Hin|Hin]%elem_of_app).
    + apply Hn. by exists p, i.
    + apply list_elem_of_singleton in Hin as ->. by apply (Ho i).
Qed.

Lemma set_ref_addr_run (r : ref_ptr) (a : Z) (s : St) (x : WT_REF) :
  lookup_ref r s = Some x →
  set_ref_addr r a s = Ret tt (store_ref r (with_addr a x) s).
Proof.
  intros Hx. unfold set_ref_addr, put_ref, bind, modify_st.
  by rewrite !(get_ref_run r s x).
Qed.

Lemma set_ref_size_run (r : ref_ptr) (n : Z) (s : St) (x : WT_REF) :
  lookup_ref r s = Some x →
  set_ref_size r n s = Ret tt (store_ref r (with_size n x) s).
Proof.
  intros Hx. unfold set_ref_size, put_ref, bind, modify_st.
  by rewrite !(get_ref_run r s x).
Qed.

(** A store through a reference outside [page]. *)
Lemma store_ref_step (r : ref_ptr) (x y : WT_REF) (s0 s : St) (page : ptr) :
  outside r page → lookup_ref r s = Some x →
  same_tree r s0 s → discarded s = discarded s0 →
  lookup_ref r (store_ref r y s) = Some y ∧
  heap (store_ref r y s) !! page = heap s !! page ∧
  same_tree r s0 (store_ref r y s) ∧
  discarded (store_ref r y s) = discarded s0.
Proof.
  intros Ho Hx Hsame Hd. split; [by eapply lookup_store_ref|].
  split; [by apply store_ref_heap_outside|]. split.
  - apply (same_tree_trans _ _ s); [done|apply same_tree_store].
  - by destruct (store_ref_answers r y s) as (_ & _ & _ & ->).
Qed.

Lemma dirty_update_replace (fuel : nat) (page : ptr) (fl : Z) (s0 s : St)
    (pg : WT_PAGE) (m : WT_PAGE_MODIFY) (x : WT_REF) (s' : St) :
  same_tree (parent_ref pg) s0 s → discarded s = discarded s0 →
  heap s !! page = Some pg → type pg ≠ WT_PAGE_COL_INT →
  F_ISSET pg WT_PAGE_REC_MASK = WT_PAGE_REC_REPLACE →
  modify pg = Some m →
  lookup_ref (parent_ref pg) s = Some x →
  outside (parent_ref pg) page →
  ¬ held_in (parent_ref pg) (merged fuel (heap s0) page) →
  __rec_parent_dirty_update fuel page fl s = Ret 0 s' →
  discarded s' = discarded s0 ++ merged fuel (heap s0) page ++ [page] ∧
  (∀ p, heap s' !! p = None ↔
        p ∈ merged fuel (heap s0) page ++ [page] ∨ heap s0 !! p = None) ∧
  lookup_ref (parent_ref pg) s' =
    Some (MkRef WT_REF_DISK NULL (write_off_addr m) (write_off_size m)).
Proof.
  intros Hsame Hd Hp Hty Hf Hm Hx Ho Hn. unfold __rec_parent_dirty_update.
  rewrite (bind_run _ _ _ _ pg) by (by apply get_page_run). cbv zeta. rewrite Hf.
  destruct (decide (WT_PAGE_REC_REPLACE = WT_PAGE_REC_EMPTY)) as [He|_]; [done|].
  destruct (decide (WT_PAGE_REC_REPLACE = WT_PAGE_REC_REPLACE)) as [_|]; [|done].
  rewrite (bind_run _ _ _ _ _ (get_modify_run _ _ _ _ Hp Hm)).
  rewrite (bind_run _ _ _ _ _ (set_ref_addr_run _ _ _ _ Hx)).
  destruct (store_ref_step _ x (with_addr (write_off_addr m) x) s0 s page Ho Hx Hsame Hd)
    as (Hxa & Hpa & Hsa & Hda).
  rewrite Hp in Hpa.
  rewrite (bind_run _ _ _ _ _ (get_modify_run _ _ _ _ Hpa Hm)).
  rewrite (bind_run _ _ _ _ _ (set_ref_size_run _ _ _ _ Hxa)).
  match type of Hxa with lookup_ref _ ?sa = Some ?xa =>
    destruct (store_ref_step _ xa (with_size (write_off_size m) xa) s0 sa page Ho Hxa
                Hsa Hda) as (Hxb & Hpb & Hsb & Hdb) end.
  rewrite Hpa in Hpb.
  rewrite (bind_run _ _ _ _ _ (set_ref_page_run _ _ _ _ Hxb)).
  match type of Hxb with lookup_ref _ ?sa = Some ?xa =>
    destruct (store_ref_step _ xa (with_page NULL xa) s0 sa page Ho Hxb Hsb Hdb)
      as (Hxc & Hpc & Hsc & Hdc) end.
  rewrite Hpb in Hpc.
  rewrite (bind_run _ _ _ _ _ (set_ref_state_run _ _ _ _ Hxc)).
  match type of Hxc with lookup_ref _ ?sa = Some ?xa =>
    destruct (store_ref_step _ xa (with_state WT_REF_DISK xa) s0 sa page Ho Hxc Hsc Hdc)
      as (Hxd & Hpd & Hsd & Hdd) end.
  rewrite Hpc in Hpd.
  intros Hrun. exact (update_tail _ _ _ _ _ _ _ _ Hsd Hdd Hpd Hty Hxd Ho Hn Hrun).
Qed.

Lemma dirty_update_split (fuel : nat) (page : ptr) (fl : Z) (s0 s : St)
    (pg : WT_PAGE) (m : WT_PAGE_MODIFY) (x : WT_REF) (s' : St) :
  same_tree (parent_ref pg) s0 s → discarded s = discarded s0 →
  heap s !! page = Some pg → type pg ≠ WT_PAGE_COL_INT →
  F_ISSET pg WT_PAGE_REC_MASK = WT_PAGE_REC_SPLIT →
  parent pg ≠ NULL →
  modify pg = Some m →
  lookup_ref (parent_ref pg) s = Some x →
  outside (parent_ref pg) page →
  ¬ held_in (parent_ref pg) (merged fuel (heap s0) page) →
  __rec_parent_dirty_update fuel page fl s = Ret 0 s' →
  discarded s' = discarded s0 ++ merged fuel (heap s0) page ++ [page] ∧
  (∀ p, heap s' !! p = None ↔
        p ∈ merged fuel (heap s0) page ++ [page] ∨ heap s0 !! p = None) ∧
  lookup_ref (parent_ref pg) s' =
    Some (MkRef WT_REF_MEM (write_split m) (ref_addr x) (ref_size x)).
Proof.
  intros Hsame Hd Hp Hty Hf Hroot Hm Hx Ho Hn. unfold __rec_parent_dirty_update.
  rewrite (bind_run _ _ _ _ pg) by (by apply get_page_run). cbv zeta. rewrite Hf.
  destruct (decide (WT_PAGE_REC_SPLIT = WT_PAGE_REC_EMPTY)) as [He|_]; [done|].
  destruct (decide (WT_PAGE_REC_SPLIT = WT_PAGE_REC_REPLACE)) as [He|_]; [done|].
  destruct (decide (WT_PAGE_REC_SPLIT = WT_PAGE_REC_SPLIT)) as [_|]; [|done].
  unfold WT_PAGE_IS_ROOT. rewrite bool_decide_eq_false_2 by done.
  rewrite (bind_run _ _ _ _ _ (get_modify_run _ _ _ _ Hp Hm)).
  rewrite (bind_run _ _ _ _ _ (set_ref_page_run _ _ _ _ Hx)).
  destruct (store_ref_step _ x (with_page (write_split m) x) s0 s page Ho Hx Hsame Hd)
    as (Hxa & Hpa & Hsa & Hda).
  rewrite Hp in Hpa.
  rewrite (bind_run _ _ _ _ _ (set_ref_state_run _ _ _ _ Hxa)).
  match type of Hxa with lookup_ref _ ?sa = Some ?xa =>
    destruct (store_ref_step _ xa (with_state WT_REF_MEM xa) s0 sa page Ho Hxa Hsa Hda)
      as (Hxb & Hpb & Hsb & Hdb) end.
  rewrite Hpa in Hpb.
  intros Hrun. exact (update_tail _ _ _ _ _ _ _ _ Hsb Hdb Hpb Hty Hxb Ho Hn Hrun).
Qed.

Lemma dirty_update_empty_root (fuel : nat) (page : ptr) (fl : Z) (s0 s : St)
    (pg : WT_PAGE) (x : WT_REF) (s' : St) :
  same_tree (parent_ref pg) s0 s → discarded s = discarded s0 →
  heap s !! page = Some pg → type pg ≠ WT_PAGE_COL_INT →
  F_ISSET pg WT_PAGE_REC_MASK = WT_PAGE_REC_EMPTY →
  parent pg = NULL →
  lookup_ref (parent_ref pg) s = Some x →
  outside (parent_ref pg) page →
  ¬ held_in (parent_ref pg) (merged fuel (heap s0) page) →
  __rec_parent_dirty_update fuel page fl s = Ret 0 s' →
  discarded s' = discarded s0 ++ merged fuel (heap s0) page ++ [page] ∧
  (∀ p, heap s' !! p = None ↔
        p ∈ merged fuel (heap s0) page ++ [page] ∨ heap s0 !! p = None) ∧
  lookup_ref (parent_ref pg) s' =
    Some (MkRef WT_REF_DISK NULL WT_ADDR_INVALID (ref_size x)).
Proof.
  intros Hsame Hd Hp Hty Hf Hroot Hx Ho Hn. unfold __rec_parent_dirty_update.
  rewrite (bind_run _ _ _ _ pg) by (by apply get_page_run). cbv zeta. rewrite Hf.
  destruct (decide (WT_PAGE_REC_EMPTY = WT_PAGE_REC_EMPTY)) as [_|]; [|done].
  unfold WT_PAGE_IS_ROOT. rewrite bool_decide_eq_true_2 by done.
  rewrite (bind_run _ _ _ _ _ (set_ref_addr_run _ _ _ _ Hx)).
  destruct (store_ref_step _ x (with_addr WT_ADDR_INVALID x) s0 s page Ho Hx Hsame Hd)
    as (Hxa & Hpa & Hsa & Hda).
  rewrite Hp in Hpa.
  rewrite (bind_run _ _ _ _ _ (set_ref_page_run _ _ _ _ Hxa)).
  match type of Hxa with lookup_ref _ ?sa = Some ?xa =>
    destruct (store_ref_step _ xa (with_page NULL xa) s0 sa page Ho Hxa Hsa Hda)
      as (Hxb & Hpb & Hsb & Hdb) end.
  rewrite Hpa in Hpb.
  rewrite (bind_run _ _ _ _ _ (set_ref_state_run _ _ _ _ Hxb)).
  match type of Hxb with lookup_ref _ ?sa = Some ?xa =>
    destruct (store_ref_step _ xa (with_state WT_REF_DISK xa) s0 sa page Ho Hxb Hsb Hdb)
      as (Hxc & Hpc & Hsc & Hdc) end.
  rewrite Hpb in Hpc.
  intros Hrun. exact (update_tail _ _ _ _ _ _ _ _ Hsc Hdc Hpc Hty Hxc Ho Hn Hrun).
Qed.

(** X7.  For a row-store page or a leaf that reconciles to Replace (it is not
    dirty and carries that result with its modify record, or its write
    succeeds with it), a successful eviction discards exactly the pages
    merged into it, in the order of the discard walk (every child that is
    not on disk, after the pages below it, in slot order), and then the page
    itself: these are the pages added to the discard trace, they have left
    memory and no other page has.  The parent reference is left in state
    DISK with a null page pointer and the address and size of the
    replacement block.  The parent reference is taken to lie outside the
    page and outside the merged pages. *)
Theorem evict_replace_spec (fuel : nat) (page : ptr) (fl : Z) (s : St)
    (pg : WT_PAGE) (m : WT_PAGE_MODIFY) (x : WT_REF) (s' : St) :
  heap s !! page = Some pg →
  F_ISSET pg WT_PAGE_REC_SPLIT_MERGE = 0 →
  type pg ≠ WT_PAGE_COL_INT →
  outcome pg s WT_PAGE_REC_REPLACE (Some m) →
  lookup_ref (parent_ref pg) s = Some x →
  outside (parent_ref pg) page →
  ¬ held_in (parent_ref pg) (merged fuel (heap s) page) →
  __wt_rec_evict fuel page fl s = Ret 0 s' →
  discarded s' = discarded s ++ merged fuel (heap s) page ++ [page] ∧
  (∀ p, heap s' !! p = None ↔
        p ∈ merged fuel (heap s) page ++ [page] ∨ heap s !! p = None) ∧
  lookup_ref (parent_ref pg) s' =
    Some (MkRef WT_REF_DISK NULL (write_off_addr m) (write_off_size m)).
Proof.
  intros Hp Hsm Hty Hout Hx Ho Hn Hrun.
  destruct (evict_to_update _ _ _ _ _ _ _ _ Hp Hsm Hty Hout Hrun)
    as (s2 & pg2 & Hsk & Hsame & Hp2 & Hr2 & Hpar2 & Hty2 & Hf2 & Hm2 & Hup).
  destruct (skel_lookup_ref s s2 _ x Hsk Hx) as (x2 & Hx2 & _).
  apply (evict_update_dirty _ _ _ _ pg2) in Hup; [|done|by rewrite Hf2].
  rewrite <- Hr2 in Hx2, Ho, Hn, Hsame. rewrite <- Hty2 in Hty. rewrite <- Hr2.
  exact (dirty_update_replace _ _ _ s s2 _ _ _ _ Hsame
           (f_equal discarded Hsk : discarded s2 = discarded s)
           Hp2 Hty Hf2 Hm2 Hx2 Ho Hn Hup).
Qed.

Lemma evict_replace_spec_witness :
  ∃ s', __wt_rec_evict 2 100 0 st_replace_internal = Ret 0 s' ∧
        discarded s' = [200; 100] ∧
        heap s' !! 100 = None ∧ heap s' !! 200 = None ∧
        lookup_ref (SlotRef 50 0) s' = Some (MkRef WT_REF_DISK NULL 0x42 4096).
Proof.
  eexists. split; [vm_compute; reflexivity|].
  match goal with |- discarded ?s' = _ ∧ _ =>
    destruct (evict_replace_spec 2 100 0 st_replace_internal
                (internal_100 0 (Some a_dirty) [MkRef WT_REF_MEM 200 21 22])
                (MkModify 0x42 4096 NULL false) (MkRef WT_REF_MEM 100 11 12) s')
      as (Hd & Hh & Href)
  end.
  - vm_compute; reflexivity.
  - vm_compute; reflexivity.
  - vm_compute; discriminate.
  - vm_compute. eexists _, _. repeat split; reflexivity.
  - vm_compute; reflexivity.
  - intros i. discriminate.
  - intros (p & i & Heq & Hin). injection Heq as <- <-. vm_compute in Hin.
    apply list_elem_of_singleton in Hin. discriminate Hin.
  - vm_compute; reflexivity.
  - split; [exact Hd|].
    split; [apply Hh; left; vm_compute; apply list_elem_of_further, list_elem_of_here|].
    split; [apply Hh; left; vm_compute; apply list_elem_of_here|].
    exact Href.
Defined.

(** X8.  For a row-store page or a leaf other than the root that reconciles
    to Split, a successful eviction discards exactly the pages merged into
    it, in the order of the discard walk, and then the page itself: these
    are the pages added to the discard trace, they have left memory and no
    other page has.  The parent reference is left in state MEM, pointing at
    the new internal page [write_split], with its address and size as they
    were. *)
Theorem evict_split_spec (fuel : nat) (page : ptr) (fl : Z) (s : St)
    (pg : WT_PAGE) (m : WT_PAGE_MODIFY) (x : WT_REF) (s' : St) :
  heap s !! page = Some pg →
  F_ISSET pg WT_PAGE_REC_SPLIT_MERGE = 0 →
  type pg ≠ WT_PAGE_COL_INT →
  outcome pg s WT_PAGE_REC_SPLIT (Some m) →
  parent pg ≠ NULL →
  lookup_ref (parent_ref pg) s = Some x →
  outside (parent_ref pg) page →
  ¬ held_in (parent_ref pg) (merged fuel (heap s) page) →
  __wt_rec_evict fuel page fl s = Ret 0 s' →
  discarded s' = discarded s ++ merged fuel (heap s) page ++ [page] ∧
  (∀ p, heap s' !! p = None ↔
        p ∈ merged fuel (heap s) page ++ [page] ∨ heap s !! p = None) ∧
  lookup_ref (parent_ref pg) s' =
    Some (MkRef WT_REF_MEM (write_split m) (ref_addr x) (ref_size x)).
Proof.
  intros Hp Hsm Hty Hout Hroot Hx Ho Hn Hrun.
  destruct (evict_to_update _ _ _ _ _ _ _ _ Hp Hsm Hty Hout Hrun)
    as (s2 & pg2 & Hsk & Hsame & Hp2 & Hr2 & Hpar2 & Hty2 & Hf2 & Hm2 & Hup).
  destruct (skel_lookup_ref s s2 _ x Hsk Hx) as (x2 & Hx2 & _ & <- & <-).
  apply (evict_update_dirty _ _ _ _ pg2) in Hup; [|done|by rewrite Hf2].
  rewrite <- Hr2 in Hx2, Ho, Hn, Hsame. rewrite <- Hty2 in Hty.
  rewrite <- Hpar2 in Hroot. rewrite <- Hr2.
  exact (dirty_update_split _ _ _ s s2 _ _ _ _ Hsame
           (f_equal discarded Hsk : discarded s2 = discarded s)
           Hp2 Hty Hf2 Hroot Hm2 Hx2 Ho Hn Hup).
Qed.

Lemma evict_split_spec_witness :
  ∃ s', __wt_rec_evict 3 100 0 st_split_internal = Ret 0 s' ∧
        discarded s' = [300; 200; 100] ∧
        heap s' !! 300 = None ∧ heap s' !! 200 = None ∧ heap s' !! 100 = None ∧
        lookup_ref (SlotRef 50 0) s' = Some (MkRef WT_REF_MEM 700 11 12).
Proof.
  eexists. split; [vm_compute; reflexivity|].
  match goal with |- discarded ?s' = _ ∧ _ =>
    destruct (evict_split_spec 3 100 0 st_split_internal
                (internal_100 0 (Some a_dirty)
                   [MkRef WT_REF_DISK NULL 31 32; MkRef WT_REF_MEM 200 21 22])
                (MkModify 0 0 700 false) (MkRef WT_REF_MEM 100 11 12) s')
      as (Hd & Hh & Href)
  end.
  - vm_compute; reflexivity.
  - vm_compute; reflexivity.
  - vm_compute; discriminate.
  - vm_compute. eexists _, _. repeat split; reflexivity.
  - vm_compute. discriminate.
  - vm_compute; reflexivity.
  - intros i. discriminate.
  - intros (p & i & Heq & Hin). injection Heq as <- <-. vm_compute in Hin.
    apply elem_of_cons in Hin as [Hin|Hin]; [discriminate Hin|].
    apply list_elem_of_singleton in Hin. discriminate Hin.
  - vm_compute; reflexivity.
  - split; [exact Hd|].
    split; [apply Hh; left; vm_compute; apply list_elem_of_here|].
    split; [apply Hh; left; vm_compute; apply list_elem_of_further, list_elem_of_here|].
    split; [apply Hh; left; vm_compute;
            apply list_elem_of_further, list_elem_of_further, list_elem_of_here|].
    exact Href.
Defined.

(** X9.  For a row-store root page that reconciles to Empty, a successful
    eviction resets the root reference (state DISK, null page pointer,
    address WT_ADDR_INVALID, size as it was) and discards the tree: exactly
    the pages below the root that are not on disk, in the order of the
    discard walk, and then the root page; they have left memory and no other
    page has. *)
Theorem evict_empty_root_spec (fuel : nat) (page : ptr) (fl : Z) (s : St)
    (pg : WT_PAGE) (om : option WT_PAGE_MODIFY) (s' : St) :
  heap s !! page = Some pg →
  F_ISSET pg WT_PAGE_REC_SPLIT_MERGE = 0 →
  type pg ≠ WT_PAGE_COL_INT →
  outcome pg s WT_PAGE_REC_EMPTY om →
  parent pg = NULL →
  parent_ref pg = RootRef →
  __wt_rec_evict fuel page fl s = Ret 0 s' →
  root_page s' =
    MkRef WT_REF_DISK NULL WT_ADDR_INVALID (ref_size (root_page s)) ∧
  discarded s' = discarded s ++ merged fuel (heap s) page ++ [page] ∧
  (∀ p, heap s' !! p = None ↔
        p ∈ merged fuel (heap s) page ++ [page] ∨ heap s !! p = None).
Proof.
  intros Hp Hsm Hty Hout Hroot Hrr Hrun.
  destruct (evict_to_update _ _ _ _ _ _ _ _ Hp Hsm Hty Hout Hrun)
    as (s2 & pg2 & Hsk & Hsame & Hp2 & Hr2 & Hpar2 & Hty2 & Hf2 & Hm2 & Hup).
  assert (Hx : lookup_ref (parent_ref pg) s = Some (root_page s)) by (by rewrite Hrr).
  destruct (skel_lookup_ref s s2 _ _ Hsk Hx) as (x2 & Hx2 & _ & _ & <-).
  assert (Ho : outside (parent_ref pg) page) by (rewrite Hrr; intros i; discriminate).
  assert (Hn : ¬ held_in (parent_ref pg) (merged fuel (heap s) page)).
  { rewrite Hrr. by intros (p & i & ? & _). }
  apply (evict_update_dirty _ _ _ _ pg2) in Hup; [|done|by rewrite Hf2].
  rewrite <- Hr2 in Hx2, Ho, Hn, Hsame. rewrite <- Hty2 in Hty.
  rewrite <- Hpar2 in Hroot.
  destruct (dirty_update_empty_root _ _ _ s s2 _ _ _ Hsame
              (f_equal discarded Hsk : discarded s2 = discarded s)
              Hp2 Hty Hf2 Hroot Hx2 Ho Hn Hup) as (Hd & Hh & Href).
  rewrite Hr2, Hrr in Href. simpl in Href. by injection Href as ->.
Qed.

Lemma evict_empty_root_spec_witness :
  ∃ s', __wt_rec_evict 2 50 0 st_empty_root = Ret 0 s' ∧
        root_page s' = MkRef WT_REF_DISK NULL WT_ADDR_INVALID 2 ∧
        discarded s' = [100; 50] ∧
        heap s' !! 100 = None ∧ heap s' !! 50 = None.
Proof.
  eexists. split; [vm_compute; reflexivity|].
  match goal with |- root_page ?s' = _ ∧ _ =>
    destruct (evict_empty_root_spec 2 50 0 st_empty_root root_page_50
                (Some (MkModify 0 0 NULL false)) s')
      as (Hroot & Hd & Hh)
  end.
  - vm_compute; reflexivity.
  - vm_compute; reflexivity.
  - vm_compute; discriminate.
  - vm_compute. eexists _, _. repeat split; reflexivity.
  - reflexivity.
  - reflexivity.
  - vm_compute; reflexivity.
  - split; [exact Hroot|]. split; [exact Hd|].
    split; [apply Hh; left; vm_compute; apply list_elem_of_here|].
    apply Hh; left; vm_compute; apply list_elem_of_further, list_elem_of_here.
Defined.

(** * The error paths of the entry point *)

(** ** The unlock walk after a failed write *)

Lemma skel_sym_lookup_ref (s s' : St) (r : ref_ptr) (x : WT_REF) :
  skel s' = skel s → lookup_ref r s' = Some x →
  ∃ x', lookup_ref r s = Some x' ∧ ref_page x' = ref_page x.
Proof.
  intros Hs Hx. destruct (skel_lookup_ref s' s r x (eq_sym Hs) Hx) as (x' & ? & ? & _).
  by exists x'.
Qed.

(** A loop that ran through made every one of its passes. *)
Lemma foreach_pass {A B : Type} (body : nat → A → M (step A B))
    (idx : list nat) (a : A) (s : St) (b : A) (s' : St) (i : nat) :
  foreach body idx a s = Ret (Next b) s' → i ∈ idx →
  ∃ a1 s1 a2 s2,
    body i a1 s1 = Ret (Next a2) s2 ∧
    ∀ P : St → Prop, (∀ j a, keeps P (body j a)) → (P s → P s1) ∧ (P s2 → P s').
Proof.
  revert a s. induction idx as [|j idx IH]; intros a s Hrun Hin.
  - by apply elem_of_nil in Hin.
  - cbn [foreach] in Hrun. apply bind_Ret in Hrun as (x & s1 & Hbody & Hrest).
    destruct x as [a'|e]; [|done].
    apply elem_of_cons in Hin as [->|Hin].
    + exists a, s, a', s1. split; [done|]. intros P HP. split; [done|].
      intros H1. exact (keeps_foreach P body idx a' HP _ _ _ H1 Hrest).
    + destruct (IH a' s1 Hrest Hin) as (a1 & t1 & a2 & t2 & Hb & Hk).
      exists a1, t1, a2, t2. split; [done|]. intros P HP.
      destruct (Hk P HP) as [H1 H2]. split; [|done].
      intros H0. apply H1. by eapply HP.
Qed.

(** A loop that returned did so in one of its passes. *)
Lemma foreach_return {A B : Type} (body : nat → A → M (step A B))
    (idx : list nat) (a : A) (s : St) (b : B) (s' : St) :
  foreach body idx a s = Ret (Return b) s' →
  ∃ i a1 s1,
    i ∈ idx ∧ body i a1 s1 = Ret (Return b) s' ∧
    ∀ P : St → Prop, (∀ j a, keeps P (body j a)) → P s → P s1.
Proof.
  revert a s. induction idx as [|j idx IH]; intros a s Hrun; [done|].
  cbn [foreach] in Hrun. apply bind_Ret in Hrun as (x & s1 & Hbody & Hrest).
  destruct x as [a'|e].
  - destruct (IH a' s1 Hrest) as (i & a1 & t1 & Hin & Hb & Hk).
    exists i, a1, t1. split; [by apply elem_of_cons; right|]. split; [done|].
    intros P HP H0. apply (Hk P HP). by eapply HP.
  - injection Hrest as <- <-. exists j, a, s.
    split; [apply list_elem_of_here|]. by split.
Qed.

Section unlock.

Context {T : Type} `{HasRef T}.
Variable get_slot : ptr → nat → M T.
Variable slots : ptr → M (list nat).
Variable ty0 : page_type.
Variable walk : nat → ptr → ptr → M Z.

Hypothesis get_slot_lookup :
  ∀ p i c s s', get_slot p i s = Ret c s' →
                s' = s ∧ lookup_ref (SlotRef p i) s = Some (ref c).
Hypothesis slots_Ret :
  ∀ p s idx s', slots p s = Ret idx s' →
                s' = s ∧ ∃ pg, heap s !! p = Some pg ∧ idx = seq 0 (nslots pg).
Hypothesis walk_O : ∀ p last s, walk O p last s = Unfinished.
Hypothesis walk_S :
  ∀ fuel p last,
    walk (S fuel) p last =
    (idx <- slots p ;;
     x <- foreach (excl_clear_body get_slot ty0 (λ q, walk fuel q last) p last)
            idx tt ;;
     match x with
     | Next _ => ret 0
     | Return e => ret e
     end).
Hypothesis frames_walk : ∀ fuel p last, frames (walk fuel p last).
Hypothesis keeps_mem_walk :
  ∀ r fuel p last, keeps (ref_in_mem r) (walk fuel p last).

Lemma frames_clear_body (fuel : nat) (p last : ptr) (i : nat) (a : unit) :
  frames (excl_clear_body get_slot ty0 (λ q, walk fuel q last) p last i a).
Proof.
  unfold excl_clear_body. apply frames_bind.
  { intros s c s' Hc. by destruct (get_slot_lookup _ _ _ _ _ Hc) as [-> _]. }
  intros c. apply frames_bind; [apply frames_set_ref_state|]. intros _. cbv zeta.
  destruct (decide _); [apply frames_ret|].
  apply frames_bind; [apply frames_page_type_of|]. intros ty.
  destruct (decide _); [|apply frames_ret].
  apply frames_bind; [apply frames_walk|]. intros e1.
  destruct (decide _); apply frames_ret.
Qed.

Lemma keeps_mem_clear_body (r : ref_ptr) (fuel : nat) (p last : ptr) (i : nat)
    (a : unit) :
  keeps (ref_in_mem r)
    (excl_clear_body get_slot ty0 (λ q, walk fuel q last) p last i a).
Proof.
  unfold excl_clear_body. apply keeps_bind.
  { intros s c s' HP Hc. by destruct (get_slot_lookup _ _ _ _ _ Hc) as [-> _]. }
  intros c. apply keeps_bind; [apply keeps_mem_set_ref_state|]. intros _. cbv zeta.
  destruct (decide _); [auto with keeps|].
  apply keeps_bind; [auto with keeps|]. intros ty.
  destruct (decide _); [|auto with keeps].
  apply keeps_bind; [apply keeps_mem_walk|]. intros e1.
  destruct (decide _); auto with keeps.
Qed.

Lemma keeps_skel_clear_body (s0 : St) (fuel : nat) (p last : ptr) (i : nat)
    (a : unit) :
  keeps (λ t, skel t = skel s0)
    (excl_clear_body get_slot ty0 (λ q, walk fuel q last) p last i a).
Proof.
  intros s x s' Hs Hrun. rewrite <- Hs. apply skel_of_erase.
  by eapply frames_clear_body.
Qed.

(** The pass over slot [i], when the loop goes on after it. *)
Lemma clear_body_next (fuel : nat) (p last : ptr) (i : nat) (s s' : St) :
  excl_clear_body get_slot ty0 (λ q, walk fuel q last) p last i tt s =
    Ret (Next tt) s' →
  ∃ y sa,
    lookup_ref (SlotRef p i) s = Some y ∧
    sa = store_ref (SlotRef p i) (with_state WT_REF_MEM y) s ∧
    ref_page y ≠ last ∧
    ∃ cpg, heap sa !! ref_page y = Some cpg ∧
           if decide (type cpg = ty0) then walk fuel (ref_page y) last sa = Ret 0 s'
           else s' = sa.
Proof.
  unfold excl_clear_body.
  intros (c & s1 & Hc & ([] & sa & Hset & Hrest)%bind_Ret)%bind_Ret.
  destruct (get_slot_lookup _ _ _ _ _ Hc) as [-> Hy].
  apply set_ref_state_Ret in Hset as (x & Hx & ->). rewrite Hy in Hx.
  injection Hx as <-. cbv zeta in Hrest.
  exists (ref c), (store_ref (SlotRef p i) (with_state WT_REF_MEM (ref c)) s).
  split; [done|]. split; [done|].
  destruct (decide (ref_page (ref c) = last)); [done|]. split; [done|].
  apply bind_Ret in Hrest as (ty & s2 & Hty & Hrest).
  unfold page_type_of in Hty.
  apply bind_Ret in Hty as (cpg & s3 & [Hcpg ->]%get_page_Ret & [= <- <-]).
  exists cpg. split; [done|].
  destruct (decide (type cpg = ty0)); [|by injection Hrest as <-].
  apply bind_Ret in Hrest as (e1 & s4 & Hw & Hrest).
  destruct (decide (e1 ≠ 0)) as [|He]; [done|].
  injection Hrest as <-. by apply dec_stable in He as ->.
Qed.

Lemma clear_loop_return (fuel : nat) (p last : ptr) (idx : list nat) (s : St)
    (e : Z) (s' : St) :
  foreach (excl_clear_body get_slot ty0 (λ q, walk fuel q last) p last) idx tt s =
    Ret (Return e) s' →
  e = 1.
Proof.
  revert s. induction idx as [|i idx IH]; intros s; [done|].
  cbn [foreach]. intros (x & s1 & Hbody & Hrest)%bind_Ret.
  destruct x as [[]|e1]; [by eapply IH|]. injection Hrest as <- <-.
  unfold excl_clear_body in Hbody.
  apply bind_Ret in Hbody as (c & s2 & _ & ([] & s3 & _ & Hrest)%bind_Ret).
  cbv zeta in Hrest. destruct (decide _); [by injection Hrest|].
  apply bind_Ret in Hrest as (ty & s4 & _ & Hrest).
  destruct (decide _); [|done].
  apply bind_Ret in Hrest as (e2 & s5 & _ & Hrest).
  destruct (decide _); [by injection Hrest|done].
Qed.

(** Where the unlock walk ran through, every reference below [parent] is in
    state MEM. *)
Lemma walk_releases (s0 : St) (parent : ptr) (r : ref_ptr) :
  below ty0 s0 parent r →
  ∀ fuel last s s', skel s = skel s0 → walk fuel parent last s = Ret 0 s' →
                    ref_in_mem r s'.
Proof.
  induction 1 as [parent i y Hy|parent i y cpg r Hy Hc Hty _ IH];
    intros fuel last s s' Hs Hrun.
  all: destruct fuel as [|fuel]; [by rewrite walk_O in Hrun|].
  all: rewrite walk_S in Hrun.
  all: apply bind_Ret in Hrun as (idx & s1 & Hidx & Hrun).
  all: apply slots_Ret in Hidx as (-> & pg & Hp & ->).
  all: apply bind_Ret in Hrun as (x & s2 & Hloop & Hret).
  all: destruct (skel_lookup_ref s0 s _ _ Hs Hy) as (y' & Hy' & Hpy & _).
  all: assert (Hi : i ∈ seq 0 (nslots pg)).
  1,3: apply elem_of_seq; split; [lia|]; simpl; apply slot_ref_nslots;
       apply lookup_ref_slot in Hy' as (pg' & Hp' & Hsl); rewrite Hp in Hp';
       injection Hp' as <-; by exists y'.
  all: destruct x as [[]|e1].
  2,4: (apply clear_loop_return in Hloop as ->; by injection Hret).
  all: injection Hret as <-.
  all: destruct (foreach_pass _ _ _ _ _ _ i Hloop Hi) as ([] & t1 & [] & t2 & Hbody & Hk).
  all: apply clear_body_next in Hbody as (z & sa & Hz & -> & Hne & cz & Hcz & Hw).
  - destruct (Hk (ref_in_mem (SlotRef parent i))
                (keeps_mem_clear_body _ fuel parent last)) as [_ H2].
    apply H2.
    assert (Hm : ref_in_mem (SlotRef parent i)
                   (store_ref (SlotRef parent i) (with_state WT_REF_MEM z) t1)).
    { eexists. split; [by eapply lookup_store_ref|done]. }
    destruct (decide (type cz = ty0)); [|by subst t2].
    exact (keeps_mem_walk _ _ _ _ _ _ _ Hm Hw).
  - destruct (Hk (ref_in_mem r) (keeps_mem_clear_body _ fuel parent last)) as [_ H2].
    apply H2.
    destruct (Hk (λ t, skel t = skel s0) (keeps_skel_clear_body s0 fuel parent last))
      as [H1 _].
    specialize (H1 Hs).
    assert (Hsa : skel (store_ref (SlotRef parent i) (with_state WT_REF_MEM z) t1)
                  = skel s0).
    { rewrite <- H1. apply skel_of_erase. by apply (erase_store_ref _ _ z). }
    destruct (skel_lookup_ref s0 t1 _ _ H1 Hy) as (z' & Hz' & Hpz & _).
    rewrite Hz in Hz'. injection Hz' as <-.
    destruct (skel_get_page s0 _ _ _ Hsa Hc) as (cz' & Hcz' & _ & _ & Htz).
    rewrite <- Hpz, Hcz in Hcz'. injection Hcz' as <-.
    destruct (decide (type cz = ty0)) as [_|Hn]; [|congruence].
    rewrite Hpz in Hw. by eapply IH.
Qed.

(** The pass over slot [i], when the function returns from it. *)
Lemma clear_body_return (fuel : nat) (p last : ptr) (i : nat) (s : St) (e : Z)
    (s' : St) :
  excl_clear_body get_slot ty0 (λ q, walk fuel q last) p last i tt s =
    Ret (Return e) s' →
  ∃ y sa,
    lookup_ref (SlotRef p i) s = Some y ∧
    sa = store_ref (SlotRef p i) (with_state WT_REF_MEM y) s ∧
    (ref_page y = last ∨
     ∃ cpg e1, heap sa !! ref_page y = Some cpg ∧ type cpg = ty0 ∧
               walk fuel (ref_page y) last sa = Ret e1 s' ∧ e1 ≠ 0).
Proof.
  unfold excl_clear_body.
  intros (c & s1 & Hc & ([] & sa & Hset & Hrest)%bind_Ret)%bind_Ret.
  destruct (get_slot_lookup _ _ _ _ _ Hc) as [-> Hy].
  apply set_ref_state_Ret in Hset as (x & Hx & ->). rewrite Hy in Hx.
  injection Hx as <-. cbv zeta in Hrest.
  exists (ref c), (store_ref (SlotRef p i) (with_state WT_REF_MEM (ref c)) s).
  split; [done|]. split; [done|].
  destruct (decide (ref_page (ref c) = last)); [by left|]. right.
  apply bind_Ret in Hrest as (ty & s2 & Hty & Hrest).
  unfold page_type_of in Hty.
  apply bind_Ret in Hty as (cpg & s3 & [Hcpg ->]%get_page_Ret & [= <- <-]).
  destruct (decide (type cpg = ty0)); [|done].
  apply bind_Ret in Hrest as (e1 & s4 & Hw & Hrest).
  destruct (decide (e1 ≠ 0)) as [He|]; [|done].
  injection Hrest as _ <-. by exists cpg, e1.
Qed.

(** Where no slot below [parent] holds the watermark, the unlock walk runs
    through. *)
Lemma walk_through (s0 : St) (last : ptr) (fuel : nat) :
  ∀ parent s e s',
    skel s = skel s0 →
    (∀ r y, below ty0 s0 parent r → lookup_ref r s0 = Some y → ref_page y ≠ last) →
    walk fuel parent last s = Ret e s' → e = 0.
Proof.
  induction fuel as [|fuel IH]; intros parent s e s' Hs Hnn Hrun;
    [by rewrite walk_O in Hrun|].
  rewrite walk_S in Hrun.
  apply bind_Ret in Hrun as (idx & s1 & Hidx & Hrun).
  apply slots_Ret in Hidx as (-> & pg & Hp & ->).
  apply bind_Ret in Hrun as (x & s2 & Hloop & Hret).
  destruct x as [[]|e1]; [by injection Hret as <-|]. exfalso.
  apply foreach_return in Hloop as (i & [] & t1 & _ & Hbody & Hk).
  specialize (Hk (λ t, skel t = skel s0) (keeps_skel_clear_body s0 fuel parent last) Hs).
  apply clear_body_return in Hbody as (z & sa & Hz & -> & Hcase).
  destruct (skel_sym_lookup_ref s0 t1 _ _ Hk Hz) as (y & Hy & Hpy).
  assert (Hb : below ty0 s0 parent (SlotRef parent i)) by (by eapply below_slot).
  destruct Hcase as [Hlast|(cz & e2 & Hcz & Htz & Hw & He2)].
  { apply (Hnn _ _ Hb Hy). congruence. }
  assert (Hsa : skel (store_ref (SlotRef parent i) (with_state WT_REF_MEM z) t1)
                = skel s0).
  { rewrite <- Hk. apply skel_of_erase. by apply (erase_store_ref _ _ z). }
  destruct (skel_get_page _ s0 _ _ (eq_sym Hsa) Hcz) as (cy & Hcy & _ & _ & Hty).
  apply He2. apply (IH (ref_page z) _ e2 s2 Hsa); [|done].
  intros r y' Hbr. apply Hnn. rewrite <- Hpy in Hbr, Hcy.
  eapply below_child; [exact Hy|exact Hcy|congruence|exact Hbr].
Qed.

End unlock.

Lemma get_row_slot_Ret (p : ptr) (i : nat) (c : WT_ROW_REF) (s s' : St) :
  get_row_slot p i s = Ret c s' → s' = s ∧ lookup_ref (SlotRef p i) s = Some (ref c).
Proof.
  intros Hc. pose proof (reads_get_row_slot _ _ _ _ _ Hc) as ->.
  split; [done|]. by apply get_row_slot_lookup.
Qed.

Lemma get_col_slot_Ret (p : ptr) (i : nat) (c : WT_COL_REF) (s s' : St) :
  get_col_slot p i s = Ret c s' → s' = s ∧ lookup_ref (SlotRef p i) s = Some (ref c).
Proof.
  intros Hc. pose proof (reads_get_col_slot _ _ _ _ _ Hc) as ->.
  split; [done|]. by apply get_col_slot_lookup.
Qed.

Lemma row_slots_Ret (p : ptr) (s : St) (idx : list nat) (s' : St) :
  row_slots p s = Ret idx s' →
  s' = s ∧ ∃ pg, heap s !! p = Some pg ∧ idx = seq 0 (nslots pg).
Proof.
  unfold row_slots. intros (pg & s1 & [Hp ->]%get_page_Ret & Hrest)%bind_Ret.
  destruct (u pg) eqn:Hu; try done. injection Hrest as <- <-.
  split; [done|]. exists pg. unfold nslots. by rewrite Hu.
Qed.

Lemma col_slots_Ret (p : ptr) (s : St) (idx : list nat) (s' : St) :
  col_slots p s = Ret idx s' →
  s' = s ∧ ∃ pg, heap s !! p = Some pg ∧ idx = seq 0 (nslots pg).
Proof.
  unfold col_slots. intros (pg & s1 & [Hp ->]%get_page_Ret & Hrest)%bind_Ret.
  destruct (u pg) eqn:Hu; try done. injection Hrest as <- <-.
  split; [done|]. exists pg. unfold nslots. by rewrite Hu.
Qed.

Lemma row_clear_releases (s0 : St) (parent : ptr) (r : ref_ptr) (fuel : nat)
    (last : ptr) (s s' : St) :
  below WT_PAGE_ROW_INT s0 parent r → skel s = skel s0 →
  __rec_sub_excl_row_clear fuel parent last s = Ret 0 s' → ref_in_mem r s'.
Proof.
  intros Hb. revert fuel last s s'.
  apply (walk_releases get_row_slot row_slots WT_PAGE_ROW_INT __rec_sub_excl_row_clear);
    try done.
  - apply get_row_slot_Ret.
  - apply row_slots_Ret.
  - apply frames_rec_sub_excl_row_clear.
  - intros. apply keeps_mem_row_clear.
Qed.

Lemma col_clear_releases (s0 : St) (parent : ptr) (r : ref_ptr) (fuel : nat)
    (last : ptr) (s s' : St) :
  below WT_PAGE_COL_INT s0 parent r → skel s = skel s0 →
  __rec_sub_excl_col_clear fuel parent last s = Ret 0 s' → ref_in_mem r s'.
Proof.
  intros Hb. revert fuel last s s'.
  apply (walk_releases get_col_slot col_slots WT_PAGE_COL_INT __rec_sub_excl_col_clear);
    try done.
  - apply get_col_slot_Ret.
  - apply col_slots_Ret.
  - apply frames_rec_sub_excl_col_clear.
  - intros. apply keeps_mem_col_clear.
Qed.

Lemma row_clear_through (s0 : St) (last : ptr) (fuel : nat) (parent : ptr)
    (s : St) (e : Z) (s' : St) :
  skel s = skel s0 →
  (∀ r y, below WT_PAGE_ROW_INT s0 parent r → lookup_ref r s0 = Some y →
          ref_page y ≠ last) →
  __rec_sub_excl_row_clear fuel parent last s = Ret e s' → e = 0.
Proof.
  apply (walk_through get_row_slot row_slots WT_PAGE_ROW_INT __rec_sub_excl_row_clear);
    try done.
  - apply get_row_slot_Ret.
  - apply row_slots_Ret.
  - apply frames_rec_sub_excl_row_clear.
Qed.

Lemma col_clear_through (s0 : St) (last : ptr) (fuel : nat) (parent : ptr)
    (s : St) (e : Z) (s' : St) :
  skel s = skel s0 →
  (∀ r y, below WT_PAGE_COL_INT s0 parent r → lookup_ref r s0 = Some y →
          ref_page y ≠ last) →
  __rec_sub_excl_col_clear fuel parent last s = Ret e s' → e = 0.
Proof.
  apply (walk_through get_col_slot col_slots WT_PAGE_COL_INT __rec_sub_excl_col_clear);
    try done.
  - apply get_col_slot_Ret.
  - apply col_slots_Ret.
  - apply frames_rec_sub_excl_col_clear.
Qed.

(** The unlocker over a subtree without a null page pointer leaves every
    reference below the page in state MEM. *)
Lemma rec_sub_excl_clear_releases (fuel : nat) (page : ptr) (fl : Z) (s0 s : St)
    (pg : WT_PAGE) (s' : St) (r : ref_ptr) :
  skel s = skel s0 → heap s0 !! page = Some pg →
  LF_ISSET fl WT_REC_SINGLE = 0 → page ≠ NULL →
  (∀ r y, below (type pg) s0 page r → lookup_ref r s0 = Some y →
          ref_page y ≠ NULL) →
  __rec_sub_excl_clear fuel page NULL fl s = Ret tt s' →
  below (type pg) s0 page r → ref_in_mem r s'.
Proof.
  intros Hs Hp Hsingle Hnull Hnn Hrun Hb. unfold __rec_sub_excl_clear in Hrun.
  destruct (decide (LF_ISSET fl WT_REC_SINGLE ≠ 0)); [done|].
  destruct (skel_get_page s0 s _ _ Hs Hp) as (pg1 & Hp1 & _ & _ & Hty1).
  rewrite (bind_run _ _ _ _ _ (get_page_run _ _ _ Hp1)) in Hrun.
  apply bind_Ret in Hrun as ([] & s1 & Hset & Hrun).
  assert (Hs1 : skel s1 = skel s0).
  { rewrite <- Hs. apply skel_of_erase. by eapply frames_set_ref_state. }
  destruct (decide (page = NULL)); [done|].
  destruct (skel_get_page s0 s1 _ _ Hs1 Hp) as (pg2 & Hp2 & _ & _ & Hty2).
  rewrite (bind_run _ _ _ _ _ (page_type_of_run _ _ _ Hp2)), Hty2 in Hrun.
  destruct (type pg) eqn:Hty.
  - exfalso. inversion Hb as [? ? y Hy|? ? y ? ? Hy]; subst;
      apply lookup_ref_slot in Hy as (pg' & Hp' & Hsl);
      rewrite Hp in Hp'; injection Hp' as <-;
      unfold slot_ref, type in *; by destruct (u pg).
  - apply bind_Ret in Hrun as (e & s2 & Hw & [= <-]).
    pose proof (col_clear_through s0 NULL fuel page s1 e s2 Hs1 Hnn Hw) as ->.
    by eapply col_clear_releases.
  - exfalso. inversion Hb as [? ? y Hy|? ? y ? ? Hy]; subst;
      apply lookup_ref_slot in Hy as (pg' & Hp' & Hsl);
      rewrite Hp in Hp'; injection Hp' as <-;
      unfold slot_ref, type in *; by destruct (u pg).
  - apply bind_Ret in Hrun as (e & s2 & Hw & [= <-]).
    pose proof (row_clear_through s0 NULL fuel page s1 e s2 Hs1 Hnn Hw) as ->.
    by eapply row_clear_releases.
  - exfalso. inversion Hb as [? ? y Hy|? ? y ? ? Hy]; subst;
      apply lookup_ref_slot in Hy as (pg' & Hp' & Hsl);
      rewrite Hp in Hp'; injection Hp' as <-;
      unfold slot_ref, type in *; by destruct (u pg).
Qed.

(** C9, as amended.  Whenever [__wt_rec_evict] returns, every non-zero code
    that [write_page] or the drain of [discard_page] answered during the run
    is the value returned.  When the write of the candidate fails, the
    unlocker has run over the candidate's subtree before the error is
    returned: the answer is consumed, the tree is as before up to reference
    states and nothing is discarded; outside WT_REC_SINGLE the candidate's
    parent reference is in state MEM and, when no slot of the candidate's
    subtree has a null page pointer (none is on disk), so is every reference
    of the subtree: every lock the review took is released.  When the
    discard fails on the clean path, the error is returned at once and no
    unlocker runs: the parent reference stays as the clean update left it,
    in state DISK with a null page pointer, and the page is not freed. *)
Theorem evict_errors_surface (fuel : nat) (page : ptr) (fl : Z) (s : St)
    (e : Z) (s' : St) :
  __wt_rec_evict fuel page fl s = Ret e s' →
  (∃ cw ct,
     rec_answers s = cw ++ rec_answers s' ∧
     track_answers s = ct ++ track_answers s' ∧
     (∀ a, a ∈ cw → rec_ret a ≠ 0 → e = rec_ret a) ∧
     (∀ t, t ∈ ct → t ≠ 0 → e = t)) ∧
  (∀ pg a rest,
     heap s !! page = Some pg → F_ISSET pg WT_PAGE_REC_SPLIT_MERGE = 0 →
     __wt_page_is_modified pg = true →
     rec_answers s = a :: rest → rec_ret a ≠ 0 →
     rec_answers s' ≠ rec_answers s →
     e = rec_ret a ∧ rec_answers s' = rest ∧ skel s' = skel s ∧
     (LF_ISSET (evict_flags pg fl) WT_REC_SINGLE = 0 →
      ref_in_mem (parent_ref pg) s' ∧
      (page ≠ NULL →
       (∀ r y, below (type pg) s page r → lookup_ref r s = Some y →
               ref_page y ≠ NULL) →
       ∀ r, below (type pg) s page r → ref_in_mem r s'))) ∧
  (∀ pg x,
     heap s !! page = Some pg → F_ISSET pg WT_PAGE_REC_SPLIT_MERGE = 0 →
     clean_outcome pg s →
     lookup_ref (parent_ref pg) s = Some x → outside (parent_ref pg) page →
     e ≠ 0 → track_answers s' ≠ track_answers s →
     track_answers s = e :: track_answers s' ∧
     lookup_ref (parent_ref pg) s' =
       Some (MkRef WT_REF_DISK NULL (ref_addr x) (ref_size x)) ∧
     is_Some (heap s' !! page) ∧ discarded s' = discarded s).
Proof.
  intros Hrun. split; [|split].
  - apply surfaced_each. by apply (surfaces_wt_rec_evict fuel page fl s e s').
  - intros pg a rest Hp Hsm Hdirty Ha Herr Hcalled.
    destruct (evict_cases _ _ _ _ _ _ _ Hp Hsm Hrun)
      as (s1 & pg1 & Hsk & Hans & Hp1 & Hm1 & Hr1 & Hf1 & Hcases).
    destruct Hcases as [[? ->]|[[Hnd _]|(_ & a' & rest' & Ha' & Hw)]].
    + done.
    + congruence.
    + rewrite Ha in Ha'. injection Ha' as <- <-.
      destruct Hw as [(_ & -> & Hc)|(? & _)]; [|done].
      pose proof (frames_rec_sub_excl_clear _ _ _ _ _ _ _ Hc) as Hfr.
      split; [done|]. split; [exact (f_equal rec_answers Hfr)|].
      split; [rewrite (skel_of_erase _ _ Hfr); exact Hsk|].
      intros Hsingle. split.
      * rewrite <- Hr1.
        exact (rec_sub_excl_clear_parent fuel page NULL (evict_flags pg fl)
                 (set_rec_answers rest s1) pg1 s' Hp1 Hsingle Hc).
      * intros Hnull Hun r Hb.
        by apply (rec_sub_excl_clear_releases fuel page (evict_flags pg fl) s
                    (set_rec_answers rest s1) pg s' r).
  - intros pg x Hp Hsm Hclean Hx Ho Hne Hcalled.
    destruct (evict_clean_run _ _ _ _ _ _ _ _ Hp Hsm Hclean Hx Ho Hrun)
      as [[_ Hsk]|[Hl [(? & _)|(_ & ? & ? & ?)]]]; [|done|done].
    by pose proof (f_equal track_answers Hsk).
Qed.

(** The write of a dirty internal page with two leaves in memory fails with
    error 7: the page's reference and the two slots the review locked are
    back in state MEM. *)
Lemma evict_errors_surface_witness :
  ∃ s', __wt_rec_evict 2 100 0 st_write_fails_internal = Ret 7 s' ∧
        rec_answers s' = [] ∧
        ref_in_mem (SlotRef 50 0) s' ∧
        ref_in_mem (SlotRef 100 0) s' ∧ ref_in_mem (SlotRef 100 1) s'.
Proof.
  eexists. split; [vm_compute; reflexivity|].
  match goal with |- rec_answers ?s' = _ ∧ _ =>
    destruct (evict_errors_surface 2 100 0 st_write_fails_internal 7 s')
      as (_ & Hwrite & _); [vm_compute; reflexivity|];
    destruct (Hwrite (internal_100 0 (Some a_dirty)
                        [MkRef WT_REF_MEM 200 21 22; MkRef WT_REF_MEM 300 31 32])
                (MkAnswer 7 0 a_clean) [])
      as (_ & Hrest & _ & Hmem)
  end.
  - vm_compute; reflexivity.
  - vm_compute; reflexivity.
  - vm_compute; reflexivity.
  - vm_compute; reflexivity.
  - vm_compute. discriminate.
  - vm_compute. discriminate.
  - destruct Hmem as [Hpar Hsub]; [vm_compute; reflexivity|].
    split; [exact Hrest|]. split; [exact Hpar|].
    assert (Hnn : ∀ r y, below WT_PAGE_ROW_INT st_write_fails_internal 100 r →
                         lookup_ref r st_write_fails_internal = Some y →
                         ref_page y ≠ NULL).
    { intros r y Hb.
      inversion Hb as [p [|[|i]] z Hz|p [|[|i]] z cpg r' Hz Hc Hty _]; subst;
        vm_compute in Hz; try discriminate Hz; injection Hz as <-.
      - intros [= <-]. vm_compute. discriminate.
      - intros [= <-]. vm_compute. discriminate.
      - vm_compute in Hc. injection Hc as <-. discriminate Hty.
      - vm_compute in Hc. injection Hc as <-. discriminate Hty. }
    split; apply (Hsub ltac:(vm_compute; discriminate) Hnn);
      eapply below_slot; vm_compute; reflexivity.
Defined.
